(** * blog-builder: extraction heuristics and the resumable Generate stage

  A shallow embedding of the parts of blog-builder that its specification
  makes claims about:

  - [utils/fetcher.ts]            : [fetchPage], [extractMainContent],
                                    [extractMetadata], [extractLinks],
                                    [findBlogLinks];
  - [utils/storage.ts]            : [slugify];
  - [analyzer/blog-discovery.ts]  : [extractArticleLinks], [fetchArticle],
                                    [discoverArticles];
  - [generator/article-writer.ts] : [generateArticles].

  Conventions.  A JavaScript string is a sequence of code units; it is
  modelled by [string], whose characters are read as the code units
  0..255 (Latin-1).  The HTML parser (cheerio.load) and the WHATWG URL
  parser are libraries outside the repository: a function that takes an
  HTML text and loads it takes the loaded document here, and the URL
  parser is a parameter of the sections that use it.  The language model
  behind the generator and the web are given by their answers.  Paths are
  POSIX paths: [path.join] is the function of Node for them, which joins
  its arguments that are not empty and normalizes the result. *)

From Stdlib Require Import ZArith NArith Ascii String Lia Bool.
From stdpp Require Import base list strings pretty.

Local Open Scope string_scope.
Local Open Scope list_scope.

(* ===================================================================== *)
(** * JavaScript strings *)
(* ===================================================================== *)

Module JsString.

Definition code (c : ascii) : N := N_of_ascii c.

Definition in_range (lo hi : N) (c : ascii) : bool :=
  ((lo <=? code c) && (code c <=? hi))%N.

(** The class [\s] of a JavaScript regular expression, which is also the
    set of characters removed by [String.prototype.trim]:
    TAB, LF, VT, FF, CR, SPACE and NBSP among the code units below 256. *)
Definition is_space (c : ascii) : bool :=
  in_range 9 13 c || (code c =? 32)%N || (code c =? 160)%N.

Definition is_upper (c : ascii) : bool := in_range 65 90 c.
Definition is_lower (c : ascii) : bool := in_range 97 122 c.
Definition is_digit (c : ascii) : bool := in_range 48 57 c.
Definition is_underscore (c : ascii) : bool := (code c =? 95)%N.
Definition is_hyphen (c : ascii) : bool := (code c =? 45)%N.
Definition is_newline (c : ascii) : bool := (code c =? 10)%N.

(** The class [\w] (no unicode flag): [A-Za-z0-9_]. *)
Definition is_word (c : ascii) : bool :=
  is_upper c || is_lower c || is_digit c || is_underscore c.

(** [toLowerCase] on one code unit: A-Z, and the Latin-1 capitals
    U+00C0..U+00DE except the multiplication sign U+00D7. *)
Definition to_lower_char (c : ascii) : ascii :=
  if is_upper c || (in_range 192 222 c && negb (code c =? 215)%N)
  then ascii_of_N (code c + 32)
  else c.

Fixpoint map (f : ascii -> ascii) (s : string) : string :=
  match s with
  | EmptyString => EmptyString
  | String c r => String (f c) (map f r)
  end.

Definition toLowerCase (s : string) : string := map to_lower_char s.

(** [s.replace(/[^...]/g, "")]: keep the characters of the class. *)
Fixpoint keep_chars (keep : ascii -> bool) (s : string) : string :=
  match s with
  | EmptyString => EmptyString
  | String c r =>
      if keep c then String c (keep_chars keep r) else keep_chars keep r
  end.

(** [s.replace(/C+/g, rep)] for a character class [C]: every maximal run
    of characters of the class becomes one [rep].  [in_run] tells that
    the previous character belonged to the run being replaced. *)
Fixpoint replace_runs_from (p : ascii -> bool) (rep : string)
         (in_run : bool) (s : string) : string :=
  match s with
  | EmptyString => EmptyString
  | String c r =>
      if p c then
        if in_run then replace_runs_from p rep true r
        else rep +:+ replace_runs_from p rep true r
      else String c (replace_runs_from p rep false r)
  end.

Definition replace_runs (p : ascii -> bool) (rep : string) (s : string)
  : string :=
  replace_runs_from p rep false s.

Fixpoint trimStart (s : string) : string :=
  match s with
  | EmptyString => EmptyString
  | String c r => if is_space c then trimStart r else s
  end.

Fixpoint trimEnd (s : string) : string :=
  match s with
  | EmptyString => EmptyString
  | String c r =>
      match trimEnd r with
      | EmptyString => if is_space c then EmptyString else String c EmptyString
      | r' => String c r'
      end
  end.

Definition trim (s : string) : string := trimEnd (trimStart s).

Definition chars (s : string) : list ascii := list_ascii_of_string s.

(** [s.slice(0, n)] for [0 <= n]. *)
Fixpoint slice0 (n : nat) (s : string) : string :=
  match n, s with
  | O, _ => EmptyString
  | S _, EmptyString => EmptyString
  | S m, String c r => String c (slice0 m r)
  end.

Fixpoint startsWith (t s : string) : bool :=
  match t, s with
  | EmptyString, _ => true
  | String _ _, EmptyString => false
  | String a t', String b s' => Ascii.eqb a b && startsWith t' s'
  end.

(** [s.includes(t)]. *)
Fixpoint includes (s t : string) : bool :=
  startsWith t s ||
  match s with
  | EmptyString => false
  | String _ r => includes r t
  end.

Fixpoint endsWith (s t : string) : bool :=
  String.eqb s t ||
  match s with
  | EmptyString => false
  | String _ r => endsWith r t
  end.

(** Matching under the flag [i] compares canonicalized characters.  The
    patterns of the program are lowercase ASCII, and no code unit above 127
    canonicalizes to an ASCII character, so folding A-Z to a-z in the
    subject and matching the pattern as written decides the same matches. *)
Definition canonicalize_char (c : ascii) : ascii :=
  if is_upper c then ascii_of_N (code c + 32) else c.

Definition canonicalize (s : string) : string := map canonicalize_char s.

(** [s.split(/\s+/).length]: one piece more than there are maximal runs of
    white space (the pattern cannot match the empty string, so the empty
    input gives the one piece [""]). *)
Fixpoint count_runs (p : ascii -> bool) (in_run : bool) (s : string) : nat :=
  match s with
  | EmptyString => 0
  | String c r =>
      if p c then (if in_run then 0 else 1) + count_runs p true r
      else count_runs p false r
  end.

Definition split_ws_length (s : string) : nat :=
  S (count_runs is_space false s).

(** JavaScript truthiness of a string. *)
Definition truthy (s : string) : bool :=
  match s with EmptyString => false | _ => true end.

End JsString.

(* ===================================================================== *)
(** * utils/storage.ts *)
(* ===================================================================== *)

Module Storage.
Import JsString.

(** [/[^\w\s-]/g]: the characters that survive the first replacement. *)
Definition slug_keep (c : ascii) : bool :=
  is_word c || is_space c || is_hyphen c.

Definition slugify (text : string) : string :=
  trim
    (replace_runs is_hyphen "-"
       (replace_runs is_space "-"
          (keep_chars slug_keep (toLowerCase text)))).

(** Lowercase letters, digits, underscore and hyphen. *)
Definition is_slug_char (c : ascii) : bool :=
  is_lower c || is_digit c || is_underscore c || is_hyphen c.

End Storage.

(* ===================================================================== *)
(** * Parsed documents and the selectors the program uses *)
(* ===================================================================== *)

Module Dom.
Import JsString.

Record element := mkElement {
  tag : string;
  attrs : list (string * string)
}.

(** A node of the tree built by the HTML parser.  Comments hold no text
    and match no selector; they are left out. *)
#[warnings="-register-all"]
Inductive node :=
| Text (data : string)
| Elem (e : element) (kids : list node).

(** The children of the document root. *)
Definition document := list node.

Fixpoint lookup_attr (name : string) (l : list (string * string))
  : option string :=
  match l with
  | [] => None
  | (k, v) :: r => if String.eqb k name then Some v else lookup_attr name r
  end.

(** [.attr(name)] on one element; [None] is [undefined]. *)
Definition attr (name : string) (n : node) : option string :=
  match n with
  | Text _ => None
  | Elem e _ => lookup_attr name (attrs e)
  end.

(** The class selector [.c]: the token [c], delimited by white space or by
    the ends of the attribute value. *)
Fixpoint token_here (tok s : string) : bool :=
  match tok, s with
  | EmptyString, EmptyString => true
  | EmptyString, String c _ => is_space c
  | String _ _, EmptyString => false
  | String a t, String b r => Ascii.eqb a b && token_here t r
  end.

Fixpoint has_token (at_boundary : bool) (tok s : string) : bool :=
  (at_boundary && token_here tok s) ||
  match s with
  | EmptyString => false
  | String c r => has_token (is_space c) tok r
  end.

Inductive simple :=
| STag (name : string)                      (* [name]          *)
| SClass (cls : string)                     (* [.cls]          *)
| SId (id : string)                         (* [#id]           *)
| SAttr (name : string)                     (* [[name]]        *)
| SAttrEq (name value : string)             (* [[name="v"]]    *)
| SAttrContains (name value : string).      (* [[name*="v"]]   *)

Definition matches_simple (s : simple) (e : element) : bool :=
  match s with
  | STag name => String.eqb (tag e) name
  | SClass cls =>
      match lookup_attr "class" (attrs e) with
      | Some v => has_token true cls v
      | None => false
      end
  | SId id =>
      match lookup_attr "id" (attrs e) with
      | Some v => String.eqb v id
      | None => false
      end
  | SAttr name =>
      match lookup_attr name (attrs e) with
      | Some _ => true
      | None => false
      end
  | SAttrEq name value =>
      match lookup_attr name (attrs e) with
      | Some v => String.eqb v value
      | None => false
      end
  | SAttrContains name value =>
      match lookup_attr name (attrs e) with
      | Some v => includes v value
      | None => false
      end
  end.

(** A compound selector such as [a[href]]: all its parts match. *)
Definition compound := list simple.

Definition matches_compound (c : compound) (e : element) : bool :=
  forallb (fun s => matches_simple s e) c.

(** The selectors of the program are a compound, or a compound below an
    ancestor ([article a]). *)
Inductive selector :=
| Sel (c : compound)
| Desc (ancestor : compound) (c : compound).

Definition matches (sel : selector) (ancestors : list element) (e : element)
  : bool :=
  match sel with
  | Sel c => matches_compound c e
  | Desc a c => matches_compound c e && existsb (matches_compound a) ancestors
  end.

(** A comma-separated selector list. *)
Definition matches_any (group : list selector) (ancestors : list element)
           (e : element) : bool :=
  existsb (fun sel => matches sel ancestors e) group.

(** [$(group)]: the matching elements, in document order. *)
Fixpoint select_node (group : list selector) (ancestors : list element)
         (n : node) : list node :=
  match n with
  | Text _ => []
  | Elem e kids =>
      (if matches_any group ancestors e then [n] else [])
        ++ flat_map (select_node group (e :: ancestors)) kids
  end.

Definition select (group : list selector) (doc : document) : list node :=
  flat_map (select_node group []) doc.

(** [$(group).remove()]: the document without the matching elements (and
    so without everything below them). *)
Fixpoint remove_node (group : list selector) (ancestors : list element)
         (n : node) : list node :=
  match n with
  | Text s => [Text s]
  | Elem e kids =>
      if matches_any group ancestors e then []
      else [Elem e (flat_map (remove_node group (e :: ancestors)) kids)]
  end.

Definition remove (group : list selector) (doc : document) : document :=
  flat_map (remove_node group []) doc.

Definition join (l : list string) : string :=
  fold_right String.append EmptyString l.

(** The text of one node: the data of the text nodes below it, in order.
    (Versions of the library differ on the text inside [script] and
    [style]; [extractMainContent] removes these elements first.) *)
Fixpoint text_of (n : node) : string :=
  match n with
  | Text s => s
  | Elem _ kids => join (List.map text_of kids)
  end.

(** [.text()] on a selection: the texts of its elements, concatenated. *)
Definition text (sel : list node) : string := join (List.map text_of sel).

(** [.first()]. *)
Definition first (sel : list node) : list node :=
  match sel with
  | [] => []
  | n :: _ => [n]
  end.

(** [.attr(name)] on a selection reads the first element. *)
Definition attr_of (name : string) (sel : list node) : option string :=
  match sel with
  | [] => None
  | n :: _ => attr name n
  end.

End Dom.

(* ===================================================================== *)
(** * Results of fallible code, and URLs *)
(* ===================================================================== *)

(** A call returns a value or throws an [Error] with a message. *)
Inductive result (A : Type) :=
| Ok (a : A)
| Throw (message : string).
Arguments Ok {A} a.
Arguments Throw {A} message.

(** The fields of a WHATWG [URL] object that the program reads. *)
Record URL := mkURL {
  href : string;
  hostname : string;
  pathname : string
}.

(** [links.includes(x)] on an array of strings. *)
Definition array_includes (l : list string) (x : string) : bool :=
  existsb (String.eqb x) l.

(** [[...new Set(l)]]: a [Set] keeps its elements in insertion order and
    ignores the insertion of an element it already has. *)
Definition set_add (acc : list string) (x : string) : list string :=
  if array_includes acc x then acc else acc ++ [x].

Definition set_spread (l : list string) : list string :=
  fold_left set_add l [].

(* ===================================================================== *)
(** * utils/fetcher.ts *)
(* ===================================================================== *)

Module Fetcher.
Import JsString Dom.

Definition MAX_RETRIES : nat := 3.
Definition RETRY_DELAY : Z := 1000.

(** What one [axios.get] does.  With [validateStatus: status < 400] the
    promise resolves on a final status below 400; otherwise it rejects with
    an [AxiosError], which has a [response] when the server answered (and
    none on a timeout or a network error).  Any other thrown value is an
    [OtherError]. *)
Inductive outcome :=
| Response (data : string)
| AxiosError (status : option Z) (message : string)
| OtherError (message : string).

(** What [fetchPage] does to the outside world. *)
Inductive event :=
| Get (attempt : nat)
| Sleep (ms : Z).

Definition message_of (o : outcome) : string :=
  match o with
  | Response _ => ""
  | AxiosError _ m => m
  | OtherError m => m
  end.

(** The test of the [catch] block: an [AxiosError] whose response status is
    truthy, at least 400, below 500 and not 429.  It gives that status. *)
Definition client_error (o : outcome) : option Z :=
  match o with
  | AxiosError (Some st) _ =>
      if (negb (st =? 0) && (400 <=? st) && (st <? 500) && negb (st =? 429))%Z
      then Some st else None
  | _ => None
  end.

(** The loop [for (attempt = 1; attempt <= MAX_RETRIES; attempt++)];
    [remaining] is the number of iterations left, [MAX_RETRIES + 1 - attempt].
    [http attempt] is the outcome of the request of that attempt. *)
Fixpoint fetchPage_loop (url : string) (http : nat -> outcome)
         (remaining attempt : nat) (lastError : option string)
  : list event * result string :=
  match remaining with
  | O =>
      ([], Throw ("Failed to fetch " +:+ url +:+ " after "
                  +:+ pretty (Z.of_nat MAX_RETRIES) +:+ " attempts: "
                  +:+ default "undefined" lastError))
  | S k =>
      match http attempt with
      | Response data => ([Get attempt], Ok data)
      | err =>
          match client_error err with
          | Some st =>
              ([Get attempt],
               Throw ("Failed to fetch " +:+ url +:+ ": " +:+ pretty st))
          | None =>
              let pause :=
                if (attempt <? MAX_RETRIES)%nat
                then [Sleep (RETRY_DELAY * Z.of_nat attempt)] else [] in
              let '(trace, r) :=
                fetchPage_loop url http k (S attempt) (Some (message_of err)) in
              (Get attempt :: pause ++ trace, r)
          end
      end
  end.

Definition fetchPage (url : string) (http : nat -> outcome)
  : list event * result string :=
  fetchPage_loop url http MAX_RETRIES 1 None.

Definition attempts (trace : list event) : nat :=
  length (List.filter (fun e => match e with Get _ => true | _ => false end)
            trace).

(** ** extractMainContent *)

Definition boilerplate : list selector :=
  [ Sel [STag "script"]; Sel [STag "style"]; Sel [STag "nav"];
    Sel [STag "header"]; Sel [STag "footer"]; Sel [STag "aside"];
    Sel [SClass "sidebar"]; Sel [SClass "navigation"]; Sel [SClass "menu"];
    Sel [SClass "footer"]; Sel [SClass "header"]; Sel [SClass "ads"];
    Sel [SClass "advertisement"]; Sel [SClass "cookie-banner"];
    Sel [SClass "popup"] ].

Definition mainSelectors : list selector :=
  [ Sel [STag "main"]; Sel [STag "article"]; Sel [SAttrEq "role" "main"];
    Sel [SClass "content"]; Sel [SClass "main-content"]; Sel [SId "content"];
    Sel [SId "main"]; Sel [SClass "post-content"];
    Sel [SClass "entry-content"]; Sel [SClass "article-content"] ].

(** The loop over [mainSelectors]: the text of the first element of the
    first selector that matches anything ([break]); [""] when none does. *)
Fixpoint first_match_text (sels : list selector) (doc : document) : string :=
  match sels with
  | [] => ""
  | sel :: rest =>
      match first (select [sel] doc) with
      | [] => first_match_text rest doc
      | element => text element
      end
  end.

Definition LF : ascii := ascii_of_N 10.

Fixpoint take_spaces (s : string) : string :=
  match s with
  | EmptyString => EmptyString
  | String c r => if is_space c then String c (take_spaces r) else EmptyString
  end.

(** The position of the last line feed of a string. *)
Fixpoint last_newline (s : string) : option nat :=
  match s with
  | EmptyString => None
  | String c r =>
      match last_newline r with
      | Some k => Some (S k)
      | None => if is_newline c then Some O else None
      end
  end.

Fixpoint drop_chars (n : nat) (s : string) : string :=
  match n, s with
  | O, _ => s
  | S _, EmptyString => EmptyString
  | S m, String _ r => drop_chars m r
  end.

(** [s.replace(/\n\s*\n/g, "\n\n")].  At a line feed, the greedy [\s*]
    takes the whole run of white space that follows and gives characters
    back until it stands before a line feed: the match ends at the last
    line feed of the run, and scanning resumes behind it.  [fuel] bounds
    the number of characters scanned. *)
Fixpoint replace_blank_lines_fuel (fuel : nat) (s : string) : string :=
  match fuel with
  | O => s
  | S f =>
      match s with
      | EmptyString => EmptyString
      | String c r =>
          if is_newline c then
            match last_newline (take_spaces r) with
            | Some k =>
                String LF (String LF
                  (replace_blank_lines_fuel f (drop_chars (S k) r)))
            | None => String c (replace_blank_lines_fuel f r)
            end
          else String c (replace_blank_lines_fuel f r)
      end
  end.

Definition replace_blank_lines (s : string) : string :=
  replace_blank_lines_fuel (String.length s) s.

(** The three steps behind the comment "Clean up whitespace". *)
Definition clean_whitespace (content : string) : string :=
  trim (replace_blank_lines (replace_runs is_space " " content)).

(** The text chosen before the white space is cleaned. *)
Definition raw_content (doc : document) : string :=
  let pruned := remove boilerplate doc in
  let content := first_match_text mainSelectors pruned in
  if truthy content then content
  else text (select [Sel [STag "body"]] pruned).

Definition extractMainContent (html : document) : string :=
  clean_whitespace (raw_content html).

(** ** extractMetadata *)

Record metadata := mkMetadata {
  title : string;
  description : string;
  keywords : list string
}.

(** [a || b] on values that are a string or [undefined]. *)
Definition or_else (a : option string) (b : option string) : option string :=
  match a with
  | Some s => if truthy s then a else b
  | None => b
  end.

(** [s.split(sep)] for a one-character separator. *)
Fixpoint split_char (sep : ascii) (s : string) : list string :=
  match s with
  | EmptyString => [EmptyString]
  | String c r =>
      if Ascii.eqb c sep then EmptyString :: split_char sep r
      else match split_char sep r with
           | [] => [String c EmptyString]
           | piece :: pieces => String c piece :: pieces
           end
  end.

Definition meta_content (s : simple) (html : document) : option string :=
  attr_of "content" (select [Sel [STag "meta"; s]] html).

Definition extractMetadata (html : document) : metadata :=
  let title :=
    or_else (Some (trim (text (select [Sel [STag "title"]] html))))
      (or_else (meta_content (SAttrEq "property" "og:title") html)
         (or_else (Some (trim (text (first (select [Sel [STag "h1"]] html)))))
            (Some ""))) in
  let description :=
    or_else (meta_content (SAttrEq "name" "description") html)
      (or_else (meta_content (SAttrEq "property" "og:description") html)
         (Some "")) in
  let keywordsStr :=
    or_else (meta_content (SAttrEq "name" "keywords") html) (Some "") in
  {| title := default "" title;
     description := default "" description;
     keywords :=
       List.filter truthy
         (List.map trim (split_char "," (default "" keywordsStr))) |}.

(** ** extractLinks *)

Section Links.

(** [new URL(s)] and [new URL(href, base)]; [None] when the constructor
    throws. *)
Variable new_URL : string -> option URL.
Variable new_URL_in : string -> URL -> option URL.

(** The callback of [$("a[href]").each]: the links array after one anchor. *)
Definition extractLinks_step (base : URL) (links : list string) (element : node)
  : list string :=
  match attr "href" element with
  | None => links
  | Some h =>
      if negb (truthy h) then links
      else
        match new_URL_in h base with
        | Some url =>
            if String.eqb (hostname url) (hostname base)
            then links ++ [href url]
            else links
        | None => links
        end
  end.

Definition extractLinks (html : document) (baseUrl : string)
  : result (list string) :=
  match new_URL baseUrl with
  | None => Throw "Invalid URL"
  | Some base =>
      let links :=
        fold_left (extractLinks_step base)
          (select [Sel [STag "a"; SAttr "href"]] html) [] in
      Ok (set_spread links)
  end.

(** ** findBlogLinks *)

(** A pattern [/\/word(s)?\/?$/i] (anchored) or [/\/word(s)?\//i]. *)
Record path_pattern := mkPattern {
  word : string;
  optional_s : bool;
  anchored : bool
}.

Definition blogPatterns : list path_pattern :=
  [ mkPattern "blog" false true;     mkPattern "blog" false false;
    mkPattern "news" false true;     mkPattern "news" false false;
    mkPattern "article" true true;   mkPattern "article" true false;
    mkPattern "post" true true;      mkPattern "post" true false;
    mkPattern "insight" true true;   mkPattern "resource" true true ].

Definition test_pattern (p : path_pattern) (path : string) : bool :=
  let folded := canonicalize path in
  let test w :=
    if anchored p
    then endsWith folded ("/" +:+ w) || endsWith folded ("/" +:+ w +:+ "/")
    else includes folded ("/" +:+ w +:+ "/") in
  test (word p) || (optional_s p && test (word p +:+ "s")).

Definition findBlogLinks_step (base : URL) (blogLinks : list string)
           (element : node) : list string :=
  match attr "href" element with
  | None => blogLinks
  | Some h =>
      if negb (truthy h) then blogLinks
      else
        match new_URL_in h base with
        | Some url =>
            if String.eqb (hostname url) (hostname base)
               && existsb (fun p => test_pattern p (pathname url)) blogPatterns
            then blogLinks ++ [href url]
            else blogLinks
        | None => blogLinks
        end
  end.

Definition findBlogLinks (html : document) (baseUrl : string)
  : result (list string) :=
  match new_URL baseUrl with
  | None => Throw "Invalid URL"
  | Some base =>
      let blogLinks :=
        fold_left (findBlogLinks_step base)
          (select [Sel [STag "a"; SAttr "href"]] html) [] in
      Ok (set_spread blogLinks)
  end.

End Links.

End Fetcher.

(* ===================================================================== *)
(** * path.join of Node, for POSIX paths *)
(* ===================================================================== *)

Module Path.
Import JsString.

Definition SLASH : ascii := "/"%char.

(** [parts.join("/")]. *)
Fixpoint join_with (sep : string) (parts : list string) : string :=
  match parts with
  | [] => EmptyString
  | [part] => part
  | part :: rest => part +:+ sep +:+ join_with sep rest
  end.

(** What [normalizeString] does at the end of one segment; [res] holds the
    segments kept so far, the last one first.  An empty segment and [.]
    are dropped; [..] removes the last segment, unless there is none or it
    is [..] itself: then [..] is kept when the path is relative and
    dropped when it is absolute. *)
Definition normalize_segment (allowAboveRoot : bool) (res : list string)
           (segment : string) : list string :=
  if String.eqb segment "" || String.eqb segment "." then res
  else if String.eqb segment ".." then
    match res with
    | [] => if allowAboveRoot then [".."] else []
    | last :: rest =>
        if String.eqb last ".."
        then (if allowAboveRoot then ".." :: res else res)
        else rest
    end
  else segment :: res.

Definition isAbsolute (path : string) : bool := startsWith "/" path.

(** The segments that [normalizeString] keeps, in order. *)
Definition kept_segments (path : string) : list string :=
  rev (fold_left (normalize_segment (negb (isAbsolute path)))
         (Fetcher.split_char SLASH path) []).

Definition normalizeString (path : string) : string :=
  join_with "/" (kept_segments path).

(** [path.posix.normalize]. *)
Definition normalize (path : string) : string :=
  if truthy path then
    let trailingSeparator := endsWith path "/" in
    let res := normalizeString path in
    if truthy res then
      (if isAbsolute path then "/" else "")
        +:+ res +:+ (if trailingSeparator then "/" else "")
    else if isAbsolute path then "/"
    else if trailingSeparator then "./" else "."
  else ".".

(** [path.posix.join(...paths)]: the arguments that are not empty, joined
    by a slash and normalized. *)
Definition join (paths : list string) : string :=
  match List.filter truthy paths with
  | [] => "."
  | parts => normalize (join_with "/" parts)
  end.

End Path.

(* ===================================================================== *)
(** * discovery: extractArticleLinks, fetchArticle, discoverArticles *)
(* ===================================================================== *)

Module Discover.
Import JsString Dom Fetcher.

Record ExistingArticle := mkExistingArticle {
  url : string;
  article_title : string;
  publishedAt : option string;
  excerpt : string;
  topics : list string;
  wordCount : nat;
  content : string
}.

(** The document written to [existing-articles.json] (without its time
    stamp). *)
Record inventory := mkInventory {
  blogUrl : option string;
  articleCount : nat;
  articles : list ExistingArticle
}.

Record DiscoverResult := mkDiscoverResult {
  result_articles : list ExistingArticle;
  inventoryPath : string
}.

Definition articleSelectors : list selector :=
  [ Desc [STag "article"] [STag "a"];
    Desc [SClass "post"] [STag "a"];
    Desc [SClass "blog-post"] [STag "a"];
    Desc [SClass "article-card"] [STag "a"];
    Desc [SClass "entry"] [STag "a"];
    Desc [SClass "news-item"] [STag "a"];
    Desc [SAttrContains "class" "article"] [STag "a"];
    Desc [SAttrContains "class" "post"] [STag "a"];
    Desc [STag "h2"] [STag "a"];
    Desc [STag "h3"] [STag "a"] ].

(** [/\/(tag|category|author|page|search|login|signup)/i]. *)
Definition non_article_segments : list string :=
  [ "tag"; "category"; "author"; "page"; "search"; "login"; "signup" ].

Definition is_non_article_path (path : string) : bool :=
  existsb (fun w => includes (canonicalize path) ("/" +:+ w))
    non_article_segments.

(** [topicPatterns]. *)
Definition topicPatterns : list string :=
  [ "ai"; "artificial intelligence"; "machine learning"; "startup"; "saas";
    "product"; "development"; "engineering"; "design"; "marketing";
    "growth"; "security"; "compliance"; "data"; "analytics"; "cloud";
    "mobile"; "web" ].

Definition extractTopicsFromContent (content : string) (keywords : list string)
  : list string :=
  let contentLower := toLowerCase content in
  let topics :=
    fold_left
      (fun topics pattern =>
         if includes contentLower pattern && negb (array_includes topics pattern)
         then topics ++ [pattern] else topics)
      topicPatterns keywords in
  take 5 topics.

Definition dateSelectors : list selector :=
  [ Sel [STag "time"; SAttr "datetime"];
    Sel [SAttrContains "class" "date"];
    Sel [SAttrContains "class" "published"];
    Sel [STag "meta"; SAttrEq "property" "article:published_time"] ].

(** The loop over [dateSelectors]; it stops at the first truthy value. *)
Fixpoint find_publishedAt (sels : list selector) (html : document)
         (publishedAt : option string) : option string :=
  match sels with
  | [] => publishedAt
  | sel :: rest =>
      match first (select [sel] html) with
      | [] => find_publishedAt rest html publishedAt
      | element =>
          let value :=
            or_else (attr_of "datetime" element)
              (or_else (attr_of "content" element)
                 (Some (trim (text element)))) in
          match value with
          | Some s => if truthy s then value else find_publishedAt rest html value
          | None => find_publishedAt rest html value
          end
      end
  end.

Section Discovery.

Variable new_URL : string -> option URL.
Variable new_URL_in : string -> URL -> option URL.

(** [fetchPage(url)] followed by the parsing of the page it returns. *)
Variable fetchPage : string -> result document.

(** The callback of [$(selector).each] in [extractArticleLinks]. *)
Definition extractArticleLinks_step (base : URL) (articleUrls : list string)
           (element : node) : list string :=
  match attr "href" element with
  | None => articleUrls
  | Some h =>
      if negb (truthy h) then articleUrls
      else
        match new_URL_in h base with
        | Some u =>
            if String.eqb (hostname u) (hostname base)
               && negb (array_includes articleUrls (href u))
            then
              let path := pathname u in
              if negb (is_non_article_path path)
                 && negb (String.eqb path (pathname base))
              then articleUrls ++ [href u]
              else articleUrls
            else articleUrls
        | None => articleUrls
        end
  end.

Definition extractArticleLinks (html : document) (baseUrl : string)
  : result (list string) :=
  match new_URL baseUrl with
  | None => Throw "Invalid URL"
  | Some base =>
      let articleUrls :=
        fold_left
          (fun articleUrls selector =>
             fold_left (extractArticleLinks_step base)
               (select [selector] html) articleUrls)
          articleSelectors [] in
      Ok (set_spread articleUrls)
  end.

Definition fetchArticle (url : string) : result (option ExistingArticle) :=
  match fetchPage url with
  | Throw m => Throw m
  | Ok html =>
      let metadata := extractMetadata html in
      let content := extractMainContent html in
      if negb (truthy (title metadata)) || (String.length content <? 100)%nat
      then Ok None
      else
        let publishedAt := find_publishedAt dateSelectors html None in
        let excerpt :=
          if truthy (description metadata) then description metadata
          else trim (replace_runs is_space " " (slice0 200 content)) +:+ "..." in
        let topics := extractTopicsFromContent content (keywords metadata) in
        Ok (Some {| url := url;
                    article_title := title metadata;
                    publishedAt := publishedAt;
                    excerpt := excerpt;
                    topics := topics;
                    wordCount := split_ws_length content;
                    content := slice0 5000 content |})
  end.

(** The loop [for (const articleUrl of articleUrls.slice(0, 20))]: a page
    that cannot be fetched and a candidate that is rejected are skipped. *)
Definition collect_step (articles : list ExistingArticle) (articleUrl : string)
  : list ExistingArticle :=
  match fetchArticle articleUrl with
  | Ok (Some article) => articles ++ [article]
  | Ok None => articles
  | Throw _ => articles
  end.

Definition collect_articles (articleUrls : list string) : list ExistingArticle :=
  fold_left collect_step (take 20 articleUrls) [].

(** [getDomainFromUrl] and [getSiteOutputDir]. *)
Definition strip_www (host : string) : string :=
  if startsWith "www." host then Fetcher.drop_chars 4 host else host.

Definition getSiteOutputDir (outputDir url : string) : result string :=
  match new_URL url with
  | None => Throw ("Invalid URL: " +:+ url)
  | Some parsed => Ok (Path.join [outputDir; strip_www (hostname parsed)])
  end.

Definition commonPaths : list string :=
  [ "/blog"; "/news"; "/articles"; "/insights"; "/resources" ].

(** The probing loop: [blogLinks] after trying the common paths, stopping
    at the first path that yields links; a failing path is skipped. *)
Fixpoint probe_common_paths (base : URL) (paths : list string)
         (blogLinks : list string) : list string :=
  match paths with
  | [] => blogLinks
  | pathStr :: rest =>
      match new_URL_in pathStr base with
      | None => probe_common_paths base rest blogLinks
      | Some b =>
          match fetchPage (href b) with
          | Throw _ => probe_common_paths base rest blogLinks
          | Ok html =>
              match findBlogLinks new_URL new_URL_in html (href b) with
              | Throw _ => probe_common_paths base rest blogLinks
              | Ok links =>
                  match links with
                  | [] => probe_common_paths base rest (blogLinks ++ links)
                  | _ => blogLinks ++ links
                  end
              end
          end
      end
  end.

(** [/\/(blog|news|articles)\/?$/i.test(new URL(l).pathname)] inside
    [blogLinks.find]; the constructor may throw. *)
Definition is_listing_path (path : string) : bool :=
  existsb
    (fun w => endsWith (canonicalize path) ("/" +:+ w)
              || endsWith (canonicalize path) ("/" +:+ w +:+ "/"))
    [ "blog"; "news"; "articles" ].

Fixpoint find_listing (blogLinks : list string) : result (option string) :=
  match blogLinks with
  | [] => Ok None
  | l :: rest =>
      match new_URL l with
      | None => Throw "Invalid URL"
      | Some u => if is_listing_path (pathname u) then Ok (Some l)
                  else find_listing rest
      end
  end.

(** [discoverArticles]: what it returns and the inventory it writes.  The
    pauses between requests and the time stamp are left out. *)
Definition discoverArticles (url outputDir : string)
  : result (DiscoverResult * inventory) :=
  match getSiteOutputDir outputDir url with
  | Throw m => Throw m
  | Ok siteDir =>
  match fetchPage url with
  | Throw m => Throw m
  | Ok mainHtml =>
  match findBlogLinks new_URL new_URL_in mainHtml url with
  | Throw m => Throw m
  | Ok found =>
  let probed :=
    match found with
    | [] =>
        match new_URL url with
        | None => Throw "Invalid URL"
        | Some base => Ok (probe_common_paths base commonPaths found)
        end
    | _ => Ok found
    end in
  match probed with
  | Throw m => Throw m
  | Ok blogLinks =>
  match find_listing blogLinks with
  | Throw m => Throw m
  | Ok listing =>
  let blogListingUrl :=
    match listing with
    | Some l => if truthy l then Some l else head blogLinks
    | None => head blogLinks
    end in
  let collected :=
    match blogListingUrl with
    | Some l =>
        if truthy l then
          match fetchPage l with
          | Throw m => Throw m
          | Ok listingHtml =>
              match extractArticleLinks listingHtml l with
              | Throw m => Throw m
              | Ok articleUrls => Ok (collect_articles articleUrls)
              end
          end
        else Ok []
    | None => Ok []
    end in
  match collected with
  | Throw m => Throw m
  | Ok articles =>
      let inventoryPath := Path.join [siteDir; "existing-articles.json"] in
      Ok ({| result_articles := articles; inventoryPath := inventoryPath |},
          {| blogUrl :=
               match blogListingUrl with
               | Some l => if truthy l then Some l else None
               | None => None
               end;
             articleCount := length articles;
             articles := articles |})
  end end end end end end.

End Discovery.

End Discover.

(* ===================================================================== *)
(** * generator: generateArticles *)
(* ===================================================================== *)

Module Generate.
Import JsString.

Inductive status := planned | approved | generated.

Inductive platform := medium | linkedin | both.

Record ArticleBrief := mkBrief {
  id : string;
  brief_title : string;
  brief_platform : platform;
  brief_status : status
}.

Record GeneratedArticle := mkGenerated {
  briefId : string;
  generated_title : string;
  generated_content : string;
  mediumContent : option string;
  linkedinContent : option string
}.

Record GenerateResult := mkGenerateResult {
  generated_articles : list GeneratedArticle;
  outputPath : string
}.

(** A JavaScript number that [parseInt] can return. *)
Inductive number :=
| NaN
| Int (z : Z).

(** [array.slice(0, end)]: [NaN] counts as 0 and a negative [end] is taken
    from the end of the array. *)
Definition array_slice0 {A : Type} (last : number) (l : list A) : list A :=
  let len := Z.of_nat (length l) in
  let final :=
    match last with
    | NaN => 0%Z
    | Int z => if (z <? 0)%Z then Z.max (len + z) 0 else Z.min z len
    end in
  take (Z.to_nat final) l.

Definition is_generated (s : status) : bool :=
  match s with generated => true | _ => false end.

Definition set_generated (b : ArticleBrief) : ArticleBrief :=
  {| id := id b; brief_title := brief_title b;
     brief_platform := brief_platform b; brief_status := generated |}.

Section Generation.

(** The site analysis is read and handed to the generator as it is. *)
Variable SiteAnalysis : Type.

(** The site directory on disk, and the record of the generator calls. *)
Record world := mkWorld {
  site_analysis : option SiteAnalysis;          (* site-analysis.json *)
  article_plan : option (list ArticleBrief);    (* article-plan.json  *)
  written : list string;                        (* other files written *)
  invocations : list ArticleBrief               (* briefs handed to the generator *)
}.

(** Computations that change the world and may throw. *)
Definition M (A : Type) : Type := world -> world * result A.

Definition ret {A} (a : A) : M A := fun w => (w, Ok a).
Definition throw {A} (m : string) : M A := fun w => (w, Throw m).
Definition bind {A B} (c : M A) (k : A -> M B) : M B :=
  fun w =>
    match c w with
    | (w', Ok a) => k a w'
    | (w', Throw m) => (w', Throw m)
    end.

Notation "x <- c ;; k" := (bind c (fun x => k))
  (at level 100, c at next level, right associativity).
Notation "c ;;; k" := (bind c (fun _ => k))
  (at level 100, right associativity).

Definition readAnalysis : M (option SiteAnalysis) :=
  fun w => (w, Ok (site_analysis w)).

Definition readPlan : M (option (list ArticleBrief)) :=
  fun w => (w, Ok (article_plan w)).

Definition writePlan (plan : list ArticleBrief) : M unit :=
  fun w =>
    ({| site_analysis := site_analysis w; article_plan := Some plan;
        written := written w; invocations := invocations w |}, Ok tt).

Definition writeFile (path : string) : M unit :=
  fun w =>
    ({| site_analysis := site_analysis w; article_plan := article_plan w;
        written := written w ++ [path]; invocations := invocations w |}, Ok tt).

(** The generator is the language model behind [generateSingleArticle]:
    for a brief it gives an article or fails. *)
Variable generateSingleArticle :
  ArticleBrief -> SiteAnalysis -> result GeneratedArticle.

Definition invoke (brief : ArticleBrief) (analysis : SiteAnalysis)
  : M GeneratedArticle :=
  fun w =>
    ({| site_analysis := site_analysis w; article_plan := article_plan w;
        written := written w;
        invocations := invocations w ++ [brief] |},
     generateSingleArticle brief analysis).

Definition when (b : bool) (c : M unit) : M unit :=
  if b then c else ret tt.

Definition is_truthy (o : option string) : bool :=
  match o with Some s => truthy s | None => false end.

(** The body of the loop [for (const brief of articlesToGenerate)].  The
    briefs of [articlesToGenerate] are the objects of [plan.articles]
    themselves, so a brief is given by its position [i] in the plan, and
    [brief.status = "generated"] changes the plan in memory. *)
Definition generate_one (articlesOutputDir : string) (analysis : SiteAnalysis)
           (i : nat) (st : list ArticleBrief * list GeneratedArticle)
  : M (list ArticleBrief * list GeneratedArticle) :=
  let '(plan, generatedArticles) := st in
  match plan !! i with
  | None => ret st
  | Some brief =>
      article <- invoke brief analysis ;;
      let articleDir :=
        Path.join [articlesOutputDir; Storage.slugify (brief_title brief)] in
      writeFile (Path.join [articleDir; "article.md"]) ;;;
      when (is_truthy (mediumContent article))
           (writeFile (Path.join [articleDir; "medium.md"])) ;;;
      when (is_truthy (linkedinContent article))
           (writeFile (Path.join [articleDir; "linkedin.md"])) ;;;
      writeFile (Path.join [articleDir; "metadata.json"]) ;;;
      ret (alter set_generated i plan, generatedArticles ++ [article])
  end.

Fixpoint generate_loop (articlesOutputDir : string) (analysis : SiteAnalysis)
         (articlesToGenerate : list nat)
         (st : list ArticleBrief * list GeneratedArticle)
  : M (list ArticleBrief * list GeneratedArticle) :=
  match articlesToGenerate with
  | [] => ret st
  | i :: rest =>
      st' <- generate_one articlesOutputDir analysis i st ;;
      generate_loop articlesOutputDir analysis rest st'
  end.

(** The positions of the briefs that [filter] keeps. *)
Definition pending (plan : list ArticleBrief) : list nat :=
  List.filter
    (fun i => match plan !! i with
              | Some a => negb (is_generated (brief_status a))
              | None => false
              end)
    (seq 0 (length plan)).

(** [generateArticles]; [outputDir] is the site directory that
    [getSiteOutputDir(config, url)] gives, and [articleCount] is
    [config.articleCount].  The creation of directories is not recorded. *)
Definition generateArticles (outputDir : string) (articleCount : number)
  : M GenerateResult :=
  let articlesOutputDir := Path.join [outputDir; "output"] in
  analysis <- readAnalysis ;;
  match analysis with
  | None => throw "Site analysis not found. Run `blog-builder analyze` first."
  | Some analysis =>
      plan <- readPlan ;;
      match plan with
      | None => throw "Article plan not found. Run `blog-builder plan` first."
      | Some plan =>
          let articlesToGenerate := array_slice0 articleCount (pending plan) in
          st <- generate_loop articlesOutputDir analysis articlesToGenerate
                  (plan, []) ;;
          let '(plan', generatedArticles) := st in
          writePlan plan' ;;;
          writeFile (Path.join [articlesOutputDir; "blog.ts"]) ;;;
          writeFile (Path.join [articlesOutputDir; "README.md"]) ;;;
          ret {| generated_articles := generatedArticles;
                 outputPath := articlesOutputDir |}
      end
  end.

(** The briefs of a plan that are already generated, and their number. *)
Definition generated_count (plan : list ArticleBrief) : nat :=
  length (List.filter (fun a => is_generated (brief_status a)) plan).

End Generation.

End Generate.

(* ===================================================================== *)
(** * utils/claude.ts *)
(* ===================================================================== *)

Module Claude.
Import JsString.

(** A content block of the answer of the model. *)
Inductive block :=
| TextBlock (text : string)
| OtherBlock.

(** [response.content.find((block) => block.type === "text")]. *)
Fixpoint find_text (content : list block) : option string :=
  match content with
  | [] => None
  | TextBlock t :: _ => Some t
  | OtherBlock :: rest => find_text rest
  end.

(** [s.slice(0, -n)]. *)
Definition drop_last (n : nat) (s : string) : string :=
  slice0 (String.length s - n) s.

(** The clean-up of [generateJsonWithClaude]: the text between the code
    fences, if there are any. *)
Definition strip_code_fences (response : string) : string :=
  let jsonStr := trim response in
  let jsonStr :=
    if startsWith "```json" jsonStr then Fetcher.drop_chars 7 jsonStr
    else if startsWith "```" jsonStr then Fetcher.drop_chars 3 jsonStr
    else jsonStr in
  let jsonStr :=
    if endsWith jsonStr "```" then drop_last 3 jsonStr else jsonStr in
  trim jsonStr.

Definition json_instruction : string :=
  String Fetcher.LF (String Fetcher.LF
    "IMPORTANT: Respond ONLY with valid JSON. No markdown code blocks, no explanations.").

Section Claude.

(** [anthropic.messages.create] for a system prompt and a user prompt (the
    token limit and the temperature do not matter here). *)
Variable messages_create : string -> string -> result (list block).

Definition generateWithClaude (systemPrompt userPrompt : string)
  : result string :=
  match messages_create systemPrompt userPrompt with
  | Throw m => Throw m
  | Ok content =>
      match find_text content with
      | Some text => Ok text
      | None => Throw "No text response from Claude"
      end
  end.

(** [JSON.parse]; [None] when it throws. *)
Variable T : Type.
Variable JSON_parse : string -> option T.

Definition generateJsonWithClaude (systemPrompt userPrompt : string)
  : result T :=
  match generateWithClaude (systemPrompt +:+ json_instruction) userPrompt with
  | Throw m => Throw m
  | Ok response =>
      let jsonStr := strip_code_fences response in
      match JSON_parse jsonStr with
      | Some v => Ok v
      | None =>
          Throw ("Failed to parse Claude response as JSON: "
                 +:+ slice0 200 jsonStr +:+ "...")
      end
  end.

End Claude.

End Claude.

(* ===================================================================== *)
(** * generator/article-writer.ts: one article *)
(* ===================================================================== *)

Module ArticleWriter.
Import JsString.

Record diagram := mkDiagram {
  diagram_id : string;
  diagram_description : string;
  code : string
}.

Definition fence : string := "```".

Definition mermaid_open : string := "```mermaid" +:+ String Fetcher.LF "".

(** The first code fence of a text: what is before it and what is behind
    it.  This is where the lazy [[\s\S]*?] followed by the fence stops. *)
Fixpoint find_fence (s : string) : option (string * string) :=
  match s with
  | EmptyString => None
  | String c r =>
      if startsWith fence s then Some (EmptyString, Fetcher.drop_chars 3 s)
      else match find_fence r with
           | Some (before, behind) => Some (String c before, behind)
           | None => None
           end
  end.

(** The loop [while ((match = mermaidRegex.exec(content)) !== null)] with
    the pattern [/```mermaid\n([\s\S]*?)```/g]: the search goes on behind
    each match, [index] counts the matches, and [fuel] bounds the number
    of characters looked at. *)
Fixpoint extractMermaidDiagrams_from (fuel : nat) (index : nat) (s : string)
  : list diagram :=
  match fuel with
  | O => []
  | S f =>
      match s with
      | EmptyString => []
      | String _ r =>
          if startsWith mermaid_open s then
            match find_fence (Fetcher.drop_chars 11 s) with
            | Some (body, behind) =>
                {| diagram_id := "diagram-" +:+ pretty (N.of_nat index);
                   diagram_description :=
                     "Diagram " +:+ pretty (N.of_nat (S index));
                   code := trim body |}
                  :: extractMermaidDiagrams_from f (S index) behind
            | None => extractMermaidDiagrams_from f index r
            end
          else extractMermaidDiagrams_from f index r
      end
  end.

Definition extractMermaidDiagrams (content : string) : list diagram :=
  extractMermaidDiagrams_from (String.length content) 0 content.

(** [lines.find(...)]. *)
Fixpoint find_line (p : string -> bool) (lines : list string) : option string :=
  match lines with
  | [] => None
  | l :: rest => if p l then Some l else find_line p rest
  end.

(** [firstParagraph?.slice(0, 300).trim() + "..." || ""]: the sum is
    formed first, and [undefined + "..."] is the text ["undefined..."]. *)
Definition extractExcerpt (content : string) : string :=
  let lines :=
    List.filter (fun l => truthy (trim l)) (Fetcher.split_char Fetcher.LF content) in
  let firstParagraph :=
    find_line (fun l => negb (startsWith "#" l) && (50 <? String.length l)%nat)
      lines in
  let sum :=
    match firstParagraph with
    | Some l => trim (slice0 300 l) +:+ "..."
    | None => "undefined" +:+ "..."
    end in
  if truthy sum then sum else "".

(** What [generateSingleArticle] returns: the article as [generateArticles]
    uses it, and the fields derived from the content.  The fields copied
    from the brief are left out. *)
Record written_article := mkWritten {
  article : Generate.GeneratedArticle;
  excerpt : string;
  metaDescription : string;
  mermaidDiagrams : list diagram
}.

Section Writer.

Variable SiteAnalysis : Type.

(** The three calls of [generateWithClaude]; each prompt is built from the
    data named here. *)
Inductive request :=
| ArticleRequest (brief : Generate.ArticleBrief) (analysis : SiteAnalysis)
| MediumRequest (brief : Generate.ArticleBrief) (content : string)
| LinkedInRequest (content : string).

Variable generateWithClaude : request -> result string.

Definition wants_medium (p : Generate.platform) : bool :=
  match p with Generate.medium | Generate.both => true | _ => false end.

Definition wants_linkedin (p : Generate.platform) : bool :=
  match p with Generate.linkedin | Generate.both => true | _ => false end.

Definition generateSingleArticle (brief : Generate.ArticleBrief)
           (analysis : SiteAnalysis) : result written_article :=
  match generateWithClaude (ArticleRequest brief analysis) with
  | Throw m => Throw m
  | Ok content =>
      let mermaidDiagrams := extractMermaidDiagrams content in
      let medium :=
        if wants_medium (Generate.brief_platform brief)
        then match generateWithClaude (MediumRequest brief content) with
             | Ok t => Ok (Some t)
             | Throw m => Throw m
             end
        else Ok None in
      match medium with
      | Throw m => Throw m
      | Ok mediumContent =>
          let linkedin :=
            if wants_linkedin (Generate.brief_platform brief)
            then match generateWithClaude (LinkedInRequest content) with
                 | Ok t => Ok (Some t)
                 | Throw m => Throw m
                 end
            else Ok None in
          match linkedin with
          | Throw m => Throw m
          | Ok linkedinContent =>
              let excerpt := extractExcerpt content in
              Ok {| article :=
                      Generate.mkGenerated (Generate.id brief)
                        (Generate.brief_title brief) content
                        mediumContent linkedinContent;
                    excerpt := excerpt;
                    metaDescription := slice0 160 excerpt;
                    mermaidDiagrams := mermaidDiagrams |}
          end
      end
  end.

End Writer.

End ArticleWriter.

(* ===================================================================== *)
(** * planner/article-planner.ts: the briefs of a plan *)
(* ===================================================================== *)

Module Planner.
Import JsString.

Definition GRADIENT_OPTIONS : list string :=
  [ "blue"; "purple"; "green"; "orange"; "teal"; "slate"; "rose"; "amber";
    "indigo"; "cyan" ].

Definition PATTERN_OPTIONS : list string := [ "dots"; "grid"; "waves"; "circuit" ].

(** An article as the model recommends it; a field it may leave out is an
    [option]. *)
Record recommendation := mkRecommendation {
  rec_slug : option string;
  rec_title : string;
  rec_subtitle : option string;
  rec_angle : option string;
  rec_category : option string;
  rec_gradient : option string;
  rec_pattern : option string;
  rec_readTime : option string;
  rec_targetLength : Z;
  rec_platform : Generate.platform
}.

(** A brief of the plan; [None] is [undefined]. *)
Record brief := mkPlannedBrief {
  id : string;
  status : Generate.status;
  slug : option string;
  title : string;
  subtitle : option string;
  category : option string;
  gradient : option string;
  pattern : option string;
  readTime : option string;
  targetLength : Z;
  platform : Generate.platform
}.

(** [Math.ceil(n / 200)] for an integer [n]. *)
Definition ceil_div_200 (n : Z) : Z := (- ((- n) / 200))%Z.

Section Planner.

(** [crypto.randomUUID()] at the call with the given number. *)
Variable randomUUID : nat -> string.

Definition generateId (call : nat) : string :=
  "article-" +:+ slice0 8 (randomUUID call).

(** The callback of [.map((article, index) => ...)]. *)
Definition plan_brief (index : nat) (a : recommendation) : brief :=
  {| id := generateId index;
     status := Generate.planned;
     slug := Fetcher.or_else (rec_slug a) (Some (Storage.slugify (rec_title a)));
     title := rec_title a;
     subtitle := Fetcher.or_else (rec_subtitle a) (rec_angle a);
     category := Fetcher.or_else (rec_category a) (Some "Engineering");
     gradient :=
       Fetcher.or_else (rec_gradient a)
         (GRADIENT_OPTIONS !! (index mod length GRADIENT_OPTIONS));
     pattern :=
       Fetcher.or_else (rec_pattern a)
         (PATTERN_OPTIONS !! (index mod length PATTERN_OPTIONS));
     readTime :=
       Fetcher.or_else (rec_readTime a)
         (Some (pretty (ceil_div_200 (rec_targetLength a)) +:+ " min read"));
     targetLength := rec_targetLength a;
     platform := rec_platform a |}.

(** [planData.articles.slice(0, config.articleCount).map(...)], the briefs
    that [planArticles] writes to [article-plan.json]. *)
Definition planned_briefs (articles : list recommendation)
           (articleCount : Generate.number) : list brief :=
  imap plan_brief (Generate.array_slice0 articleCount articles).

End Planner.

(** The fields of a brief that [generateArticles] reads. *)
Definition as_generate_brief (b : brief) : Generate.ArticleBrief :=
  Generate.mkBrief (id b) (title b) (platform b) (status b).

End Planner.

(* ===================================================================== *)
(** * Concrete inputs used by the examples *)
(* ===================================================================== *)

Module Examples.
Import JsString Dom Fetcher.

Definition el (name : string) (attributes : list (string * string))
           (kids : list node) : node :=
  Elem (mkElement name attributes) kids.

Definition page (body : list node) : document :=
  [ el "html" [] [ el "head" [] []; el "body" [] body ] ].

Fixpoint repeat_string (s : string) (n : nat) : string :=
  match n with
  | O => EmptyString
  | S m => s +:+ repeat_string s m
  end.

(** [<article>First paragraph.\n\n\n\nSecond paragraph.</article>] *)
Definition two_paragraphs : string :=
  "First paragraph." +:+ String LF (String LF (String LF (String LF
  "Second paragraph."))).

Definition two_paragraphs_page : document :=
  page [ el "article" [] [ el "p" [] [ Text two_paragraphs ] ] ].

(** [<main></main><p>Hello</p>]: the first match has no text. *)
Definition empty_main_page : document :=
  page [ el "main" [] []; el "p" [] [ Text "Hello" ] ].

(** The scenario of the specification:
    [<nav>Home About</nav><article><h1>T</h1><p>x...x</p></article>
     <footer>Copyright</footer>]. *)
Definition scenario_page : document :=
  page [ el "nav" [] [ Text "Home About" ];
         el "article" []
           [ el "h1" [] [ Text "T" ];
             el "p" [] [ Text (repeat_string "x" 150) ] ];
         el "footer" [] [ Text "Copyright" ] ].

(** [<p>Just text</p>]: no selector of [mainSelectors] matches. *)
Definition plain_page : document :=
  page [ el "p" [] [ Text "Just text" ] ].

(** A small URL parser for the examples: [https://host/path], and
    references that start with a slash. *)
Fixpoint split_host (s : string) : string * string :=
  match s with
  | EmptyString => (EmptyString, EmptyString)
  | String c r =>
      if Ascii.eqb c "/" then (EmptyString, s)
      else let '(h, p) := split_host r in (String c h, p)
  end.

Definition example_new_URL (s : string) : option URL :=
  if startsWith "https://" s then
    let '(h, p) := split_host (drop_chars 8 s) in
    let p' := if truthy p then p else "/" in
    Some (mkURL ("https://" +:+ h +:+ p') h p')
  else None.

Definition example_new_URL_in (h : string) (base : URL) : option URL :=
  if startsWith "/" h
  then Some (mkURL ("https://" +:+ hostname base +:+ h) (hostname base) h)
  else example_new_URL h.

Definition anchor (target label : string) : node :=
  el "a" [("href", target)] [ Text label ].

(** Anchors to the same host (one twice), to another host, and one whose
    reference cannot be resolved. *)
Definition links_page : document :=
  page [ anchor "/about" "About";
         anchor "https://example.com/blog/first" "First";
         anchor "https://other.example.org/x" "Elsewhere";
         anchor "mailto nobody" "Broken";
         anchor "/about" "About again" ].

(** The scenario of the specification: five anchors inside [.blog-post]
    and one anchor to [/blog/tag/ai]. *)
Definition listing_page : document :=
  page [ el "div" [("class", "blog-post")]
           [ anchor "/blog/one" "One"; anchor "/blog/two" "Two";
             anchor "/blog/three" "Three"; anchor "/blog/four" "Four";
             anchor "/blog/five" "Five"; anchor "/blog/tag/ai" "AI";
             anchor "/blog/two" "Two again"; anchor "/blog" "All posts" ] ].

(** A small site: a home page that links to its blog, a listing with four
    candidate articles, one of which cannot be fetched, and a long article
    that the listing does not mention. *)
Definition titled_page (head_title : string) (body : list node) : document :=
  [ el "html" []
      [ el "head" [] [ el "title" [] [ Text head_title ] ];
        el "body" [] body ] ].

Definition long_text : string := repeat_string "word " 30.

Definition very_long_text : string := repeat_string "word " 1500.

Definition example_web (url : string) : result document :=
  if String.eqb url "https://example.com/" then
    Ok (page [ anchor "/blog" "Blog" ])
  else if String.eqb url "https://example.com/blog" then
    Ok (page [ el "div" [("class", "blog-post")]
                 [ anchor "/blog/good" "Good";
                   anchor "/blog/untitled" "Untitled";
                   anchor "/blog/short" "Short";
                   anchor "/blog/missing" "Missing" ] ])
  else if String.eqb url "https://example.com/blog/good" then
    Ok (titled_page "Good article" [ el "article" [] [ Text long_text ] ])
  else if String.eqb url "https://example.com/blog/untitled" then
    Ok (page [ el "article" [] [ Text long_text ] ])
  else if String.eqb url "https://example.com/blog/short" then
    Ok (titled_page "Short article" [ el "article" [] [ Text "Too short" ] ])
  else if String.eqb url "https://example.com/blog/long" then
    Ok (titled_page "Long article" [ el "article" [] [ Text very_long_text ] ])
  else Throw ("Failed to fetch " +:+ url +:+ ": 404").

(** A plan of three briefs, none generated yet; a generator that always
    answers, and one that fails on the third brief. *)
Definition plan3 : list Generate.ArticleBrief :=
  [ Generate.mkBrief "b1" "First Post" Generate.both Generate.planned;
    Generate.mkBrief "b2" "Second Post" Generate.medium Generate.planned;
    Generate.mkBrief "b3" "Third Post" Generate.linkedin Generate.planned ].

Definition world0 : Generate.world unit :=
  Generate.mkWorld unit (Some tt) (Some plan3) [] [].

Definition generator_ok (brief : Generate.ArticleBrief) (analysis : unit)
  : result Generate.GeneratedArticle :=
  Ok (Generate.mkGenerated (Generate.id brief) (Generate.brief_title brief)
        ("# " +:+ Generate.brief_title brief) (Some "medium") None).

Definition generator_failing_on (bad : string)
           (brief : Generate.ArticleBrief) (analysis : unit)
  : result Generate.GeneratedArticle :=
  if String.eqb (Generate.id brief) bad then Throw "generation failed"
  else generator_ok brief analysis.

End Examples.

Module MoreExamples.
Import JsString Dom Fetcher.

(** A site without any blog: its home page links to an about page only,
    and nothing else can be fetched. *)
Definition plain_web (url : string) : result document :=
  if String.eqb url "https://plain.example/" then
    Ok (Examples.page [ Examples.anchor "/about" "About" ])
  else Throw ("Failed to fetch " +:+ url +:+ ": 404").

(** A plan whose first brief was generated by an earlier run. *)
Definition resumed_plan : list Generate.ArticleBrief :=
  [ Generate.mkBrief "b1" "First Post" Generate.both Generate.generated;
    Generate.mkBrief "b2" "Second Post" Generate.medium Generate.planned;
    Generate.mkBrief "b3" "Third Post" Generate.linkedin Generate.planned ].

Definition resumed_world : Generate.world unit :=
  Generate.mkWorld unit (Some tt) (Some resumed_plan) [] [].

(** An article as the model writes it: a heading, a paragraph, a diagram. *)
Definition nl : string := String Fetcher.LF "".

Definition paragraph : string :=
  "Retries with a growing pause keep a crawler polite while a slow site recovers.".

Definition before_diagram : string :=
  "# Polite crawling" +:+ nl +:+ nl +:+ paragraph +:+ nl +:+ nl.

Definition diagram_body : string := "graph TD; A-->B" +:+ nl.

Definition after_diagram : string := nl +:+ "The end.".

Definition article_text : string :=
  before_diagram +:+ ArticleWriter.mermaid_open +:+ diagram_body +:+ "```"
  +:+ after_diagram.

(** A model that writes the article and its Medium version, and fails on
    the LinkedIn version. *)
Definition example_model (r : ArticleWriter.request unit) : result string :=
  match r with
  | ArticleWriter.ArticleRequest _ _ _ => Ok article_text
  | ArticleWriter.MediumRequest _ _ _ => Ok "Medium version"
  | ArticleWriter.LinkedInRequest _ _ => Throw "429 rate limited"
  end.

(** An answer of the model in code fences, and a parser that accepts the
    empty object only. *)
Definition json_inner : string := nl +:+ "{}" +:+ nl.

Definition fenced_answer : string := "  ```json" +:+ json_inner +:+ "```" +:+ nl.

Definition example_messages_create (systemPrompt userPrompt : string)
  : result (list Claude.block) :=
  Ok [ Claude.OtherBlock; Claude.TextBlock fenced_answer ].

Definition example_JSON_parse (s : string) : option nat :=
  if String.eqb s "{}" then Some 0 else None.

(** Two recommendations of the model, the second without visual theme. *)
Definition recommendations : list Planner.recommendation :=
  [ Planner.mkRecommendation (Some "polite-crawling") "Polite crawling"
      (Some "How to wait") None (Some "Engineering") (Some "teal")
      (Some "grid") (Some "8 min read") 1600 Generate.both;
    Planner.mkRecommendation None "Retry Budgets!" None (Some "An angle")
      None None None None 1500 Generate.medium ].

Definition example_randomUUID (call : nat) : string :=
  pretty (N.of_nat call) +:+ "f8fad5b-d9cb-469f-a165-70867728950e".

Definition planned_world (count : Z) : Generate.world unit :=
  Generate.mkWorld unit (Some tt)
    (Some (Planner.as_generate_brief
             <$> Planner.planned_briefs example_randomUUID recommendations
                   (Generate.Int count)))
    [] [].

End MoreExamples.

(* ===================================================================== *)
(** * Vocabulary of the statements *)
(* ===================================================================== *)

Module JsStringSpec.
Import JsString.

(** The first character is of the class [p]. *)
Definition head_is (p : ascii -> bool) (s : string) : bool :=
  match s with
  | EmptyString => false
  | String c _ => p c
  end.

(** Somewhere two neighbouring characters are of the class [p]. *)
Fixpoint adjacent (p : ascii -> bool) (s : string) : bool :=
  match s with
  | EmptyString => false
  | String c r => (p c && head_is p r) || adjacent p r
  end.

(** Every character satisfies [P]. *)
Definition all_chars (P : ascii -> Prop) (s : string) : Prop :=
  Forall P (chars s).

(** The last character is of the class [p]. *)
Fixpoint last_is (p : ascii -> bool) (s : string) : bool :=
  match s with
  | EmptyString => false
  | String c EmptyString => p c
  | String _ r => last_is p r
  end.

(** After [replace(/\s+/g, " ")] the only white space is the space. *)
Definition space_or_ink (c : ascii) : Prop :=
  is_space c = false \/ c = " "%char.

End JsStringSpec.

Module StorageSpec.
Import JsString Storage.

(** The text before the final [trim]. *)
Definition hyphenated (text : string) : string :=
  replace_runs is_hyphen "-"
    (replace_runs is_space "-" (keep_chars slug_keep (toLowerCase text))).

End StorageSpec.

Module FetchPageSpec.
Import JsString Fetcher.

(** An HTTP answer with a status in [400,500) other than 429. *)
Definition is_client_error (o : outcome) (st : Z) : Prop :=
  exists m, o = AxiosError (Some st) m /\ (400 <= st < 500)%Z /\ st <> 429%Z.

(** Every other failure: no answer at all (time-out, network error), an
    answer with another status (5xx, 429), or an error that is not an
    [AxiosError]. *)
Definition transient (o : outcome) : Prop :=
  match o with
  | Response _ => False
  | AxiosError None _ => True
  | AxiosError (Some st) _ => ~ ((400 <= st < 500)%Z /\ st <> 429%Z)
  | OtherError _ => True
  end.

(** The requests and pauses up to the request of attempt [k]. *)
Definition trace_upto (k : nat) : list event :=
  flat_map (fun j => [Get j; Sleep (RETRY_DELAY * Z.of_nat j)]) (seq 1 (k - 1))
    ++ [Get k].

Definition client_error_message (url : string) (st : Z) : string :=
  "Failed to fetch " +:+ url +:+ ": " +:+ pretty st.

Definition exhausted_message (url last : string) : string :=
  "Failed to fetch " +:+ url +:+ " after 3 attempts: " +:+ last.

End FetchPageSpec.

Module DomSpec.
Import JsString Dom.

(** The data of the text nodes below a node, in document order. *)
Fixpoint leaves (n : node) : list string :=
  match n with
  | Text s => [s]
  | Elem _ kids => flat_map leaves kids
  end.

(** A group of selectors without ancestor parts matches an element
    whatever its ancestors are. *)
Definition flat_group (group : list selector) : Prop :=
  Forall (fun sel => match sel with Sel _ => True | Desc _ _ => False end) group.

(** [s] is the data of a text node that has no ancestor matching [group]. *)
Inductive outside_node (group : list selector) : node -> string -> Prop :=
| outside_text s : outside_node group (Text s) s
| outside_elem e kids k s :
    matches_any group [] e = false ->
    In k kids ->
    outside_node group k s ->
    outside_node group (Elem e kids) s.

Definition outside (group : list selector) (doc : document) (s : string)
  : Prop :=
  exists n, In n doc /\ outside_node group n s.

End DomSpec.

Module MainContentSpec.
Import JsString Dom Fetcher.

Definition body_selector : list selector := [Sel [STag "body"]].

(** Selector number [i] of the list is the first that selects anything in
    [doc], and [e] is the first element it selects. *)
Definition first_match (sels : list selector) (doc : document)
           (i : nat) (e : node) : Prop :=
  exists sel rest,
    sels !! i = Some sel
    /\ select [sel] doc = e :: rest
    /\ forall j sel', j < i -> sels !! j = Some sel' -> select [sel'] doc = [].

Definition no_match (sels : list selector) (doc : document) : Prop :=
  forall sel, In sel sels -> select [sel] doc = [].

End MainContentSpec.

Module SetSpec.

(** Each element once, at the place of its first occurrence. *)
Fixpoint first_seen (l : list string) : list string :=
  match l with
  | [] => []
  | x :: r => x :: List.filter (fun y => negb (String.eqb x y)) (first_seen r)
  end.

Definition absent_from (acc : list string) (y : string) : bool :=
  negb (array_includes acc y).

End SetSpec.

Module LinksSpec.
Import JsString Dom Fetcher.

Definition anchors_with_href : list selector := [Sel [STag "a"; SAttr "href"]].

Section Resolver.

(** [new URL(href, base)]; [None] when the constructor throws. *)
Variable new_URL_in : string -> URL -> option URL.

(** The link that one anchor contributes: its reference resolved against
    the base, when that succeeds and stays on the host of the base. *)
Definition resolved_link (base : URL) (element : node) : option string :=
  match attr "href" element with
  | Some h =>
      if truthy h then
        match new_URL_in h base with
        | Some u =>
            if String.eqb (hostname u) (hostname base) then Some (href u)
            else None
        | None => None
        end
      else None
  | None => None
  end.

End Resolver.

End LinksSpec.

Module ArticleLinksSpec.
Import JsString Dom Fetcher Discover.

(** The anchors visited, selector after selector. *)
Definition candidates (html : document) : list node :=
  flat_map (fun selector => select [selector] html) articleSelectors.

(** A path with one of the segments that mark a page as no article. *)
Definition has_non_article_segment (path : string) : Prop :=
  exists w pre post,
    In w non_article_segments
    /\ canonicalize path = pre +:+ ("/" +:+ w) +:+ post.

Section Resolver.

(** [new URL(href, base)]; [None] when the constructor throws. *)
Variable new_URL_in : string -> URL -> option URL.

(** The URL that one anchor contributes. *)
Definition article_link (base : URL) (element : node) : option string :=
  match attr "href" element with
  | Some h =>
      if truthy h then
        match new_URL_in h base with
        | Some u =>
            if String.eqb (hostname u) (hostname base)
               && negb (is_non_article_path (pathname u))
               && negb (String.eqb (pathname u) (pathname base))
            then Some (href u) else None
        | None => None
        end
      else None
  | None => None
  end.

End Resolver.

End ArticleLinksSpec.

Module DiscoverSpec.
Import JsString Dom Fetcher Discover.

(** A candidate passes the gate: it has a title and a body of at least
    100 characters. *)
Definition passes_gate (html : document) : Prop :=
  title (extractMetadata html) <> ""
  /\ 100 <= String.length (extractMainContent html).

End DiscoverSpec.

Module GenerateSpec.
Import JsString Generate.

(** The briefs at the given positions of a plan. *)
Definition briefs_at (plan : list ArticleBrief) (positions : list nat)
  : list ArticleBrief :=
  omap (fun i => plan !! i) positions.

(** The plan after the briefs at the given positions were generated. *)
Definition flip_all (positions : list nat) (plan : list ArticleBrief)
  : list ArticleBrief :=
  fold_left (fun p i => alter set_generated i p) positions plan.

End GenerateSpec.

Module FetcherSpec.
Import JsString Dom Fetcher.

(** The time spent in the pauses of a trace, in milliseconds. *)
Fixpoint total_sleep (trace : list event) : Z :=
  match trace with
  | [] => 0
  | Get _ :: rest => total_sleep rest
  | Sleep ms :: rest => ms + total_sleep rest
  end.

(** [s] ends with [t]; [s] contains [t]. *)
Definition ends_with (s t : string) : Prop := exists pre, s = pre +:+ t.

Definition contains (s t : string) : Prop :=
  exists pre post, s = pre +:+ t +:+ post.

(** A path that one of [blogPatterns] matches: a segment blog, news,
    article(s) or post(s) at the end of the path or followed by a slash,
    or a segment insight(s) or resource(s) at the end of the path (with or
    without a final slash), in any letter case. *)
Definition blog_like (path : string) : Prop :=
  (exists w,
     In w [ "blog"; "news"; "article"; "articles"; "post"; "posts" ]
     /\ (ends_with (canonicalize path) ("/" +:+ w)
         \/ ends_with (canonicalize path) ("/" +:+ w +:+ "/")
         \/ contains (canonicalize path) ("/" +:+ w +:+ "/")))
  \/ (exists w,
        In w [ "insight"; "insights"; "resource"; "resources" ]
        /\ (ends_with (canonicalize path) ("/" +:+ w)
            \/ ends_with (canonicalize path) ("/" +:+ w +:+ "/"))).

Section Resolver.

Variable new_URL_in : string -> URL -> option URL.

(** The link that one anchor contributes to [findBlogLinks]. *)
Definition blog_link (base : URL) (element : node) : option string :=
  match attr "href" element with
  | Some h =>
      if truthy h then
        match new_URL_in h base with
        | Some u =>
            if String.eqb (hostname u) (hostname base)
               && existsb (fun p => test_pattern p (pathname u)) blogPatterns
            then Some (href u) else None
        | None => None
        end
      else None
  | None => None
  end.

End Resolver.

End FetcherSpec.

Module DiscoverMoreSpec.
Import JsString Dom Fetcher Discover.

(** The topics that the content adds to the keywords: the words of the
    vocabulary that occur in the lowercased content and are no keyword. *)
Definition content_topics (content : string) (keywords : list string)
  : list string :=
  List.filter
    (fun t => includes (toLowerCase content) t
              && negb (array_includes keywords t))
    topicPatterns.

Section Web.

Variable fetchPage : string -> result document.

(** The candidate is fetched and passes the validation. *)
Definition accepted (articleUrl : string) : bool :=
  match fetchArticle fetchPage articleUrl with
  | Ok (Some _) => true
  | _ => false
  end.

End Web.

End DiscoverMoreSpec.

Module PathSpec.
Import JsString JsStringSpec.

(** A segment that names an entry of a directory: it is not empty, it is
    neither [.] nor [..], and it holds no slash. *)
Definition plain_segment (s : string) : Prop :=
  s <> "" /\ s <> "." /\ s <> ".."
  /\ all_chars (fun c => c <> "/"%char) s.

(** The text of a path with the given segments. *)
Definition rendered (absolute : bool) (segs : list string) : string :=
  (if absolute then "/" else "") +:+ Path.join_with "/" segs.

(** The path that leads from the directory [dir], as [path.join]
    normalizes it, down through the segments [segs]. *)
Definition under (dir : string) (segs : list string) : string :=
  rendered (Path.isAbsolute dir) (Path.kept_segments dir ++ segs).

(** The shape of the segments that [normalizeString] has kept, the last
    one first: plain segments above the [..] that lead out of the start
    of a relative path. *)
Definition kept_shape (allowAboveRoot : bool) (res : list string) : Prop :=
  exists tops dots,
    res = tops ++ dots
    /\ Forall plain_segment tops
    /\ Forall (fun s => s = "..") dots
    /\ (allowAboveRoot = false -> dots = []).

End PathSpec.

Module SlugSpec.
Import JsString.

(** The segments that the slug of a title adds to a path: the slug, or
    nothing when the slug is empty. *)
Definition slug_segments (title : string) : list string :=
  if truthy (Storage.slugify title) then [Storage.slugify title] else [].

End SlugSpec.

Module GenerateMoreSpec.
Import JsString Generate.

(** The files of one article, and where they are put. *)
Definition article_file_names : list string :=
  [ "article.md"; "medium.md"; "linkedin.md"; "metadata.json" ].

(** The file [name] of the article with the given title: in the site
    directory, under [output] and under the slug of the title (directly
    under [output] when the slug is empty). *)
Definition article_file (outputDir title name : string) : string :=
  PathSpec.under outputDir
    ("output" :: SlugSpec.slug_segments title ++ [name]).

(** A path that [generateArticles] may write for a plan: a file of the
    article of one of its briefs, or one of the two files that describe
    the whole output. *)
Definition output_file (outputDir : string) (plan : list ArticleBrief)
           (path : string) : Prop :=
  (exists b name,
     In b plan /\ In name article_file_names
     /\ path = article_file outputDir (brief_title b) name)
  \/ path = PathSpec.under outputDir [ "output"; "blog.ts" ]
  \/ path = PathSpec.under outputDir [ "output"; "README.md" ].

(** The later brief is the earlier one, possibly generated in between. *)
Definition advanced (before after : ArticleBrief) : Prop :=
  id after = id before
  /\ brief_title after = brief_title before
  /\ brief_platform after = brief_platform before
  /\ (brief_status after = brief_status before
      \/ brief_status after = generated).

End GenerateMoreSpec.

Module WriterSpec.
Import JsString Fetcher.

(** A line that [extractExcerpt] takes for a paragraph: it is not blank,
    it is no heading, and it has more than fifty characters. *)
Definition paragraph_line (l : string) : bool :=
  truthy (trim l)
  && (negb (startsWith "#" l) && (50 <? String.length l)%nat).

Definition backtick : ascii := "`"%char.

(** [answer] is the text [inner] inside code fences with the language tag
    [tag], up to white space around it. *)
Definition fenced (tag inner answer : string) : Prop :=
  trim answer = "```" +:+ tag +:+ inner +:+ "```".

End WriterSpec.

Module PipelineSpec.
Import JsString Generate ArticleWriter.

Section Writer.

Variable SiteAnalysis : Type.
Variable generateWithClaude : request SiteAnalysis -> result string.

(** [generateSingleArticle] as [generateArticles] calls it: of the article
    it returns, the loop reads the fields of [GeneratedArticle]. *)
Definition generator (brief : ArticleBrief) (analysis : SiteAnalysis)
  : result GeneratedArticle :=
  match generateSingleArticle SiteAnalysis generateWithClaude brief analysis with
  | Ok w => Ok (article w)
  | Throw m => Throw m
  end.

End Writer.

(** The file of the version of an article for one platform: it is there
    when the platform is wanted and the model gave a text for it. *)
Definition platform_file (wanted : bool) (answer : result string)
           (path : string) : list string :=
  if wanted then
    match answer with
    | Ok t => if truthy t then [path] else []
    | Throw _ => []
    end
  else [].

End PipelineSpec.

Module PlannerSpec.
Import JsString Planner.

(** A field that holds a text that is not empty. *)
Definition defined (field : option string) : Prop :=
  exists s, field = Some s /\ truthy s = true.

(** The field is the recommended one, or one of the options. *)
Definition recommended_or (given : option string) (options : list string)
           (field : option string) : Prop :=
  (defined given /\ field = given)
  \/ (exists s, field = Some s /\ In s options).

End PlannerSpec.

(* ===================================================================== *)
(** * Facts about JavaScript strings *)
(* ===================================================================== *)

Module JsStringFacts.
Import JsString JsStringSpec.

Lemma all_chars_nil P : all_chars P "".
Proof. constructor. Qed.

Lemma all_chars_cons P c s :
  all_chars P (String c s) <-> P c /\ all_chars P s.
Proof. unfold all_chars, chars; simpl. apply Forall_cons. Qed.

Lemma all_chars_app P s t :
  all_chars P s -> all_chars P t -> all_chars P (s +:+ t).
Proof.
  induction s as [|c s IH]; simpl; intros Hs Ht; [exact Ht|].
  apply all_chars_cons in Hs as [Hc Hs].
  apply all_chars_cons; split; auto.
Qed.

Lemma all_chars_impl (P Q : ascii -> Prop) s :
  (forall c, P c -> Q c) -> all_chars P s -> all_chars Q s.
Proof. unfold all_chars. intros H HP. eapply Forall_impl; eauto. Qed.

Lemma all_chars_and (P Q : ascii -> Prop) s :
  all_chars P s -> all_chars Q s -> all_chars (fun c => P c /\ Q c) s.
Proof.
  unfold all_chars. intros HP HQ. apply Forall_and; split; assumption.
Qed.

Lemma to_lower_char_not_upper c : is_upper (to_lower_char c) = false.
Proof. destruct c as [[] [] [] [] [] [] [] []]; reflexivity. Qed.

Lemma toLowerCase_not_upper s :
  all_chars (fun c => is_upper c = false) (toLowerCase s).
Proof.
  induction s as [|c s IH]; [apply all_chars_nil|].
  apply all_chars_cons; split; [apply to_lower_char_not_upper | exact IH].
Qed.

Lemma keep_chars_kept keep s :
  all_chars (fun c => keep c = true) (keep_chars keep s).
Proof.
  induction s as [|c s IH]; simpl; [apply all_chars_nil|].
  destruct (keep c) eqn:E; [|exact IH].
  apply all_chars_cons; split; assumption.
Qed.

Lemma keep_chars_preserves (P : ascii -> Prop) keep s :
  all_chars P s -> all_chars P (keep_chars keep s).
Proof.
  induction s as [|c s IH]; simpl; intros H; [exact H|].
  apply all_chars_cons in H as [Hc Hs].
  destruct (keep c); auto.
  apply all_chars_cons; split; auto.
Qed.

(** What a replacement of runs leaves: the characters outside the class,
    and the characters of the replacement. *)
Lemma replace_runs_from_chars (Q : ascii -> Prop) p rep b s :
  all_chars Q rep ->
  all_chars (fun c => p c = false -> Q c) s ->
  all_chars Q (replace_runs_from p rep b s).
Proof.
  intros Hrep. revert b.
  induction s as [|c s IH]; simpl; intros b H; [apply all_chars_nil|].
  apply all_chars_cons in H as [Hc Hs].
  destruct (p c) eqn:E.
  - destruct b; [apply IH; assumption|].
    apply all_chars_app; [assumption | apply IH; assumption].
  - apply all_chars_cons; split; [apply Hc; reflexivity | apply IH; assumption].
Qed.

Lemma replace_runs_from_no_class p rep b s :
  all_chars (fun c => p c = false) rep ->
  all_chars (fun c => p c = false) (replace_runs_from p rep b s).
Proof.
  intros Hrep. apply replace_runs_from_chars; [assumption|].
  unfold all_chars. apply Forall_forall. auto.
Qed.

(** Replacing the runs of a class by one character of that class leaves no
    two neighbours of the class. *)
Lemma replace_runs_from_adjacent p h b s :
  p h = true ->
  adjacent p (replace_runs_from p (String h "") b s) = false
  /\ (b = true -> head_is p (replace_runs_from p (String h "") b s) = false).
Proof.
  intros Hh. revert b.
  induction s as [|c s IH]; simpl; intros b; [split; reflexivity|].
  destruct (p c) eqn:E.
  - destruct b.
    + apply IH.
    + destruct (IH true) as [Hadj Hhead].
      change (String h "" +:+ ?t) with (String h t).
      cbn [adjacent]. split; [|discriminate].
      rewrite Hh, (Hhead eq_refl), Hadj. reflexivity.
  - destruct (IH false) as [Hadj _]. cbn [adjacent head_is].
    rewrite E, Hadj. split; [reflexivity | intros _; reflexivity].
Qed.

Lemma adjacent_occurrence p a b pre post :
  p a = true -> p b = true ->
  adjacent p (pre +:+ String a (String b post)) = true.
Proof.
  intros Ha Hb. induction pre as [|c pre IH]; simpl.
  - rewrite Ha, Hb. reflexivity.
  - rewrite IH. apply orb_true_r.
Qed.

Lemma trimStart_no_space s :
  head_is is_space s = false -> trimStart s = s.
Proof. destruct s as [|c s]; simpl; [reflexivity|]. intros ->. reflexivity. Qed.

Lemma trimEnd_no_space s :
  all_chars (fun c => is_space c = false) s -> trimEnd s = s.
Proof.
  induction s as [|c s IH]; simpl; intros H; [reflexivity|].
  apply all_chars_cons in H as [Hc Hs].
  rewrite (IH Hs), Hc. destruct s; reflexivity.
Qed.

Lemma trim_no_space s :
  all_chars (fun c => is_space c = false) s -> trim s = s.
Proof.
  intros H. unfold trim. rewrite trimStart_no_space.
  - apply trimEnd_no_space, H.
  - destruct s as [|c s]; [reflexivity|].
    apply all_chars_cons in H as [Hc _]. exact Hc.
Qed.

End JsStringFacts.

(* ===================================================================== *)
(** * slugify *)
(* ===================================================================== *)

Module StorageFacts.
Import JsString JsStringSpec JsStringFacts Storage StorageSpec.

Lemma slug_char_of_kept c :
  slug_keep c = true -> is_upper c = false -> is_space c = false ->
  is_slug_char c = true.
Proof.
  unfold slug_keep, is_slug_char, is_word. intros H Hu Hs.
  rewrite Hu, Hs in H. simpl in H.
  destruct (is_lower c), (is_digit c), (is_underscore c), (is_hyphen c);
    simpl in *; congruence.
Qed.

Lemma slug_char_not_space c : is_slug_char c = true -> is_space c = false.
Proof. destruct c as [[] [] [] [] [] [] [] []]; vm_compute; congruence. Qed.

Lemma slug_char_path_safe c :
  is_slug_char c = true ->
  c <> "/"%char /\ c <> "\"%char /\ c <> "."%char.
Proof.
  intros H. repeat split; intros ->; vm_compute in H; discriminate.
Qed.

Lemma hyphenated_chars text :
  all_chars (fun c => is_slug_char c = true) (hyphenated text).
Proof.
  unfold hyphenated, replace_runs.
  apply replace_runs_from_chars.
  { apply all_chars_cons; split; [reflexivity | apply all_chars_nil]. }
  apply all_chars_impl with (P := fun c => is_slug_char c = true); [auto|].
  apply replace_runs_from_chars.
  { apply all_chars_cons; split; [reflexivity | apply all_chars_nil]. }
  eapply all_chars_impl;
    [| apply all_chars_and;
       [ apply keep_chars_kept
       | apply keep_chars_preserves, toLowerCase_not_upper ] ].
  intros c [Hk Hu] Hs. simpl in *. apply slug_char_of_kept; assumption.
Qed.

Lemma slugify_hyphenated text : slugify text = hyphenated text.
Proof.
  unfold slugify. fold (hyphenated text). apply trim_no_space.
  eapply all_chars_impl; [| apply hyphenated_chars].
  apply slug_char_not_space.
Qed.

(** The characters of a slug: lowercase letters, digits, underscores and
    hyphens only, so no white space, no two consecutive hyphens, and no
    slash, backslash or dot. *)
Lemma slugify_alphabet (text : string) :
  all_chars (fun c => is_slug_char c = true) (slugify text)
  /\ all_chars (fun c => is_space c = false) (slugify text)
  /\ (forall pre post, slugify text <> pre +:+ "--" +:+ post)
  /\ all_chars (fun c => c <> "/"%char /\ c <> "\"%char /\ c <> "."%char)
       (slugify text).
Proof.
  rewrite slugify_hyphenated.
  pose proof (hyphenated_chars text) as H.
  repeat split.
  - exact H.
  - eapply all_chars_impl; [apply slug_char_not_space | exact H].
  - intros pre post E.
    destruct (replace_runs_from_adjacent is_hyphen "-"%char false
                (replace_runs is_space "-"
                   (keep_chars slug_keep (toLowerCase text))) eq_refl)
      as [Hadj _].
    fold (replace_runs is_hyphen "-"
            (replace_runs is_space "-"
               (keep_chars slug_keep (toLowerCase text)))) in Hadj.
    fold (hyphenated text) in Hadj.
    rewrite E in Hadj.
    change ("--" +:+ post) with (String "-" (String "-" post)) in Hadj.
    rewrite adjacent_occurrence in Hadj by reflexivity. discriminate.
  - eapply all_chars_impl; [apply slug_char_path_safe | exact H].
Qed.

Example slugify_title :
  slugify "Hello,  World! -- It's 2024_ok" = "hello-world-its-2024_ok".
Proof. reflexivity. Qed.

(** White space at the ends becomes a hyphen before [trim] runs. *)
Example slugify_padded : slugify "  A  --  B " = "-a-b-".
Proof. reflexivity. Qed.

(** A title without letters or digits gives the empty slug. *)
Example slugify_symbols : slugify "!!! ???" = "-" /\ slugify "!!!" = "".
Proof. split; reflexivity. Qed.

End StorageFacts.

(* ===================================================================== *)
(** * fetchPage: retries *)
(* ===================================================================== *)

Module FetchPageFacts.
Import JsString Fetcher FetchPageSpec.

Lemma client_error_spec o st :
  client_error o = Some st <-> is_client_error o st.
Proof.
  unfold client_error, is_client_error. split.
  - destruct o as [d|[s|] m|m]; try discriminate.
    destruct (negb (s =? 0)%Z && (400 <=? s)%Z && (s <? 500)%Z
              && negb (s =? 429)%Z) eqn:E; [|discriminate].
    intros [= <-]. exists m. split; [reflexivity|].
    repeat (apply andb_prop in E as [E ?]).
    rewrite negb_true_iff in *. lia.
  - intros (m & -> & Hr & Hn).
    replace (negb (st =? 0)%Z) with true by (symmetry; rewrite negb_true_iff; lia).
    replace (400 <=? st)%Z with true by lia.
    replace (st <? 500)%Z with true by lia.
    replace (negb (st =? 429)%Z) with true
      by (symmetry; rewrite negb_true_iff; lia).
    reflexivity.
Qed.

Lemma transient_spec o :
  transient o -> client_error o = None /\ forall d, o <> Response d.
Proof.
  intros H. split.
  - destruct (client_error o) as [st|] eqn:E; [|reflexivity].
    apply client_error_spec in E as (m & -> & Hr & Hn). simpl in H. tauto.
  - intros d ->. exact H.
Qed.

Lemma loop_success url http k a last d :
  http a = Response d ->
  fetchPage_loop url http (S k) a last = ([Get a], Ok d).
Proof. intros E. simpl. rewrite E. reflexivity. Qed.

Lemma loop_client_error url http k a last st :
  is_client_error (http a) st ->
  fetchPage_loop url http (S k) a last
  = ([Get a], Throw (client_error_message url st)).
Proof.
  intros H. pose proof H as (m & E & _).
  apply client_error_spec in H. cbn [fetchPage_loop].
  rewrite E in *. rewrite H. reflexivity.
Qed.

Lemma loop_transient url http k a last :
  transient (http a) ->
  fetchPage_loop url http (S k) a last
  = (Get a
       :: (if (a <? MAX_RETRIES)%nat
           then [Sleep (RETRY_DELAY * Z.of_nat a)] else [])
       ++ (fetchPage_loop url http k (S a) (Some (message_of (http a)))).1,
     (fetchPage_loop url http k (S a) (Some (message_of (http a)))).2).
Proof.
  intros H. apply transient_spec in H as [Hc Hr]. cbn [fetchPage_loop].
  destruct (http a) as [d|s m|m] eqn:E.
  - exfalso. apply (Hr d). reflexivity.
  - rewrite Hc.
    destruct (fetchPage_loop url http k (S a) (Some (message_of (AxiosError s m))));
      reflexivity.
  - destruct (fetchPage_loop url http k (S a) (Some (message_of (OtherError m))));
      reflexivity.
Qed.

Lemma attempts_bound url http remaining a last :
  attempts (fetchPage_loop url http remaining a last).1 <= remaining.
Proof.
  revert a last.
  induction remaining as [|k IH]; intros a last; cbn [fetchPage_loop];
    [unfold attempts; simpl; lia|].
  destruct (http a) as [d|s m|m] eqn:E; [unfold attempts; simpl; lia| |].
  - destruct (client_error (AxiosError s m)); [unfold attempts; simpl; lia|].
    specialize (IH (S a) (Some m)). cbn [message_of].
    destruct (fetchPage_loop url http k (S a) (Some m)) as [t r].
    unfold attempts in *. simpl in *.
    destruct (a <? MAX_RETRIES)%nat; simpl; lia.
  - specialize (IH (S a) (Some m)). cbn [message_of].
    destruct (fetchPage_loop url http k (S a) (Some m)) as [t r].
    unfold attempts in *. simpl in *.
    destruct (a <? MAX_RETRIES)%nat; simpl; lia.
Qed.

Lemma three_cases k : 1 <= k <= 3 -> k = 1 \/ k = 2 \/ k = 3.
Proof. lia. Qed.

(** C3.  [fetchPage] makes at most 3 attempts.  When attempt [k] is
    answered with a status in [400,500) other than 429 after failures that
    are not of that kind, no further attempt is made: the requests are
    those up to [k], a pause of [attempt * 1000] ms after each earlier one,
    and the error names the URL and the status (so such an answer to the
    first attempt gives exactly 1 attempt).  A success at attempt [k] ends
    the same way with the page.  After 3 failures of the other kind the
    requests were made with pauses of 1000 and 2000 ms between them, and
    the error carries the URL and the message of the last failure. *)
Theorem fetchPage_retry_classification (url : string) (http : nat -> outcome) :
  attempts (fetchPage url http).1 <= 3
  /\ (forall st, is_client_error (http 1) st ->
        fetchPage url http = ([Get 1], Throw (client_error_message url st)))
  /\ (forall k st, 1 <= k <= 3 ->
        (forall j, 1 <= j < k -> transient (http j)) ->
        is_client_error (http k) st ->
        fetchPage url http
        = (trace_upto k, Throw (client_error_message url st))
        /\ attempts (fetchPage url http).1 = k)
  /\ (forall k data, 1 <= k <= 3 ->
        (forall j, 1 <= j < k -> transient (http j)) ->
        http k = Response data ->
        fetchPage url http = (trace_upto k, Ok data))
  /\ ((forall j, 1 <= j <= 3 -> transient (http j)) ->
        fetchPage url http
        = ([Get 1; Sleep 1000; Get 2; Sleep 2000; Get 3],
           Throw (exhausted_message url (message_of (http 3))))
        /\ attempts (fetchPage url http).1 = 3).
Proof.
  unfold fetchPage. split; [apply (attempts_bound url http 3)|].
  split; [intros st H; apply loop_client_error, H|].
  split; [|split].
  - intros k st Hk Htr Hc.
    assert (forall tr r, fetchPage_loop url http MAX_RETRIES 1 None = (tr, r) ->
                         tr = trace_upto k -> attempts tr = k ->
            fetchPage_loop url http MAX_RETRIES 1 None
            = (trace_upto k, r) /\
            attempts (fetchPage_loop url http MAX_RETRIES 1 None).1 = k) as Hfin.
    { intros tr r -> -> Ha. split; [reflexivity | exact Ha]. }
    unfold MAX_RETRIES in *.
    destruct (three_cases k Hk) as [-> | [-> | ->]].
    + eapply Hfin; [apply loop_client_error, Hc | reflexivity | reflexivity].
    + eapply Hfin; [| reflexivity | reflexivity].
      rewrite loop_transient by (apply Htr; lia).
      rewrite (loop_client_error _ _ _ _ _ _ Hc). reflexivity.
    + eapply Hfin; [| reflexivity | reflexivity].
      rewrite loop_transient by (apply Htr; lia).
      rewrite loop_transient by (apply Htr; lia).
      rewrite (loop_client_error _ _ _ _ _ _ Hc). reflexivity.
  - intros k data Hk Htr Hr.
    destruct (three_cases k Hk) as [-> | [-> | ->]]; unfold MAX_RETRIES.
    + apply loop_success, Hr.
    + rewrite loop_transient by (apply Htr; lia).
      rewrite (loop_success _ _ _ _ _ _ Hr). reflexivity.
    + rewrite loop_transient by (apply Htr; lia).
      rewrite loop_transient by (apply Htr; lia).
      rewrite (loop_success _ _ _ _ _ _ Hr). reflexivity.
  - intros Htr. unfold MAX_RETRIES.
    rewrite loop_transient by (apply Htr; lia).
    rewrite loop_transient by (apply Htr; lia).
    rewrite loop_transient by (apply Htr; lia).
    split; reflexivity.
Qed.

(** The scenarios of the specification and two mixed runs: a 404 on the
    first attempt; a time-out followed by a 403; two answers 429 followed
    by the page; three answers 503. *)
Lemma fetchPage_retry_scenarios :
  fetchPage "https://example.com/x"
    (fun _ => AxiosError (Some 404%Z) "status 404")
  = ([Get 1], Throw "Failed to fetch https://example.com/x: 404")
  /\ (fetchPage "https://example.com/x"
        (fun k => if (k =? 1)%nat then AxiosError None "timeout"
                  else AxiosError (Some 403%Z) "status 403")
      = ([Get 1; Sleep 1000; Get 2],
         Throw "Failed to fetch https://example.com/x: 403")
      /\ attempts
           (fetchPage "https://example.com/x"
              (fun k => if (k =? 1)%nat then AxiosError None "timeout"
                        else AxiosError (Some 403%Z) "status 403")).1 = 2)
  /\ fetchPage "https://example.com/x"
       (fun k => if (k <=? 2)%nat then AxiosError (Some 429%Z) "status 429"
                 else Response "<html></html>")
     = ([Get 1; Sleep 1000; Get 2; Sleep 2000; Get 3], Ok "<html></html>")
  /\ (fetchPage "https://example.com/"
        (fun _ => AxiosError (Some 503%Z) "status 503")
      = ([Get 1; Sleep 1000; Get 2; Sleep 2000; Get 3],
         Throw
           "Failed to fetch https://example.com/ after 3 attempts: status 503")
      /\ attempts
           (fetchPage "https://example.com/"
              (fun _ => AxiosError (Some 503%Z) "status 503")).1 = 3).
Proof.
  split; [|split; [|split]].
  - apply (proj1 (proj2 (fetchPage_retry_classification
                           "https://example.com/x"
                           (fun _ => AxiosError (Some 404%Z) "status 404")))
             404%Z).
    exists "status 404". split; [reflexivity | lia].
  - apply (proj1 (proj2 (proj2 (fetchPage_retry_classification
                                  "https://example.com/x"
                                  (fun k => if (k =? 1)%nat
                                            then AxiosError None "timeout"
                                            else AxiosError (Some 403%Z)
                                                   "status 403"))))
             2 403%Z).
    + lia.
    + intros j Hj. replace j with 1 by lia. exact I.
    + exists "status 403". split; [reflexivity | lia].
  - apply (proj1 (proj2 (proj2 (proj2 (fetchPage_retry_classification
                                         "https://example.com/x"
                                         (fun k => if (k <=? 2)%nat
                                                   then AxiosError (Some 429%Z)
                                                          "status 429"
                                                   else Response
                                                          "<html></html>")))))
             3 "<html></html>").
    + lia.
    + intros j Hj. replace (j <=? 2)%nat with true by (symmetry; apply Nat.leb_le; lia).
      simpl. lia.
    + reflexivity.
  - apply (fetchPage_retry_classification "https://example.com/"
             (fun _ => AxiosError (Some 503%Z) "status 503")).
    intros j _. simpl. lia.
Defined.

End FetchPageFacts.

(* ===================================================================== *)
(** * Cleaning of white space *)
(* ===================================================================== *)

Module WhitespaceFacts.
Import JsString JsStringSpec JsStringFacts Fetcher.

Lemma trimStart_head s : head_is is_space (trimStart s) = false.
Proof.
  induction s as [|c s IH]; simpl; [reflexivity|].
  destruct (is_space c) eqn:E; [exact IH | simpl; exact E].
Qed.

Lemma trimStart_chars (P : ascii -> Prop) s :
  all_chars P s -> all_chars P (trimStart s).
Proof.
  induction s as [|c s IH]; simpl; intros H; [exact H|].
  destruct (is_space c); [|exact H].
  apply all_chars_cons in H as [_ H]. auto.
Qed.

Lemma trimStart_adjacent p s :
  adjacent p s = false -> adjacent p (trimStart s) = false.
Proof.
  induction s as [|c s IH]; simpl; intros H; [reflexivity|].
  apply orb_false_iff in H as [H1 H2].
  destruct (is_space c); [auto|]. simpl. rewrite H1, H2. reflexivity.
Qed.

Lemma trimEnd_chars (P : ascii -> Prop) s :
  all_chars P s -> all_chars P (trimEnd s).
Proof.
  induction s as [|c s IH]; simpl; intros H; [exact H|].
  apply all_chars_cons in H as [Hc Hs]. specialize (IH Hs).
  destruct (trimEnd s) as [|d t].
  - destruct (is_space c); [apply all_chars_nil|].
    apply all_chars_cons; split; [exact Hc | apply all_chars_nil].
  - apply all_chars_cons; split; assumption.
Qed.

Lemma trimEnd_last s : last_is is_space (trimEnd s) = false.
Proof.
  induction s as [|c s IH]; simpl; [reflexivity|].
  destruct (trimEnd s) as [|d t] eqn:E.
  - destruct (is_space c) eqn:Ec; simpl; [reflexivity | exact Ec].
  - exact IH.
Qed.

Lemma head_is_trimEnd p s :
  head_is p s = false -> head_is p (trimEnd s) = false.
Proof.
  destruct s as [|c s]; simpl; [reflexivity|]. intros H.
  destruct (trimEnd s); [destruct (is_space c)|]; simpl; auto.
Qed.

Lemma trimEnd_adjacent p s :
  adjacent p s = false -> adjacent p (trimEnd s) = false.
Proof.
  induction s as [|c s IH]; simpl; intros H; [reflexivity|].
  apply orb_false_iff in H as [H1 H2]. specialize (IH H2).
  destruct (trimEnd s) as [|d t] eqn:E.
  - destruct (is_space c); simpl; [reflexivity|].
    rewrite andb_false_r. reflexivity.
  - change (adjacent p (String c (String d t)))
      with ((p c && head_is p (String d t)) || adjacent p (String d t)).
    rewrite IH, orb_false_r.
    apply andb_false_iff in H1 as [H1|H1]; [rewrite H1; reflexivity|].
    pose proof (head_is_trimEnd p s H1) as Hh. rewrite E in Hh.
    rewrite Hh. apply andb_false_r.
Qed.

(** On a text that still has its line feeds, the second replacement keeps
    one blank line. *)
Example replace_blank_lines_keeps_one :
  replace_blank_lines
    ("a" +:+ String LF (String " " (String LF (String LF "b c"))))
  = "a" +:+ String LF (String LF "b c").
Proof. reflexivity. Qed.

(** Without a line feed there is nothing for [/\n\s*\n/] to match. *)
Lemma replace_blank_lines_fuel_id fuel s :
  all_chars (fun c => is_newline c = false) s ->
  replace_blank_lines_fuel fuel s = s.
Proof.
  revert s. induction fuel as [|f IH]; intros s H; [reflexivity|].
  destruct s as [|c r]; [reflexivity|].
  apply all_chars_cons in H as [Hc Hr].
  simpl. rewrite Hc, (IH r Hr). reflexivity.
Qed.

Lemma collapsed_chars s :
  all_chars space_or_ink (replace_runs is_space " " s).
Proof.
  unfold replace_runs. apply replace_runs_from_chars.
  - apply all_chars_cons; split; [right; reflexivity | apply all_chars_nil].
  - unfold all_chars. apply Forall_forall. intros c _ H. left. exact H.
Qed.

Lemma space_or_ink_not_newline c : space_or_ink c -> is_newline c = false.
Proof.
  intros [H| ->]; [|reflexivity].
  destruct c as [[] [] [] [] [] [] [] []]; vm_compute in H |- *; congruence.
Qed.

(** The second replacement of [extractMainContent] never applies: it runs
    on a text that the first one has left without any line feed. *)
Lemma clean_whitespace_collapse content :
  clean_whitespace content = trim (replace_runs is_space " " content).
Proof.
  unfold clean_whitespace, replace_blank_lines.
  rewrite replace_blank_lines_fuel_id; [reflexivity|].
  eapply all_chars_impl; [apply space_or_ink_not_newline | apply collapsed_chars].
Qed.

(** The cleaned text: white space occurs only as single spaces between
    other characters. *)
Lemma clean_whitespace_normal content :
  all_chars space_or_ink (clean_whitespace content)
  /\ adjacent is_space (clean_whitespace content) = false
  /\ head_is is_space (clean_whitespace content) = false
  /\ last_is is_space (clean_whitespace content) = false.
Proof.
  rewrite clean_whitespace_collapse. unfold trim. repeat split.
  - apply trimEnd_chars, trimStart_chars, collapsed_chars.
  - apply trimEnd_adjacent, trimStart_adjacent.
    apply (replace_runs_from_adjacent is_space " "%char false content eq_refl).
  - apply head_is_trimEnd, trimStart_head.
  - apply trimEnd_last.
Qed.

Lemma clean_whitespace_no_line_feed content :
  all_chars (fun c => c <> LF) (clean_whitespace content).
Proof.
  eapply all_chars_impl; [| apply (clean_whitespace_normal content)].
  intros c H ->. apply space_or_ink_not_newline in H. discriminate.
Qed.

(** C8.  The blank lines of the body text are not kept as one blank line:
    the page [two_paragraphs_page], whose two paragraphs are separated by
    blank lines, comes out with a single space between them, and no output
    of [extractMainContent] holds a line feed at all.  The other two steps
    hold: runs of white space become single spaces and the ends are
    trimmed ([clean_whitespace_normal]). *)
Theorem extractMainContent_drops_blank_lines :
  extractMainContent Examples.two_paragraphs_page
  = "First paragraph. Second paragraph."
  /\ forall html, all_chars (fun c => c <> LF) (extractMainContent html).
Proof.
  split; [vm_compute; reflexivity|].
  intros html. apply clean_whitespace_no_line_feed.
Qed.

End WhitespaceFacts.

(* ===================================================================== *)
(** * Documents: selections, removal and text *)
(* ===================================================================== *)

Module DomFacts.
Import JsString Dom DomSpec.

Lemma node_ind' (P : node -> Prop) :
  (forall s, P (Text s)) ->
  (forall e kids, Forall P kids -> P (Elem e kids)) ->
  forall n, P n.
Proof.
  intros HT HE. fix IH 1. intros [s|e kids]; [apply HT|].
  apply HE. induction kids as [|k kids IHk]; constructor; [apply IH | exact IHk].
Qed.

Lemma append_cons c s t : String c s +:+ t = String c (s +:+ t).
Proof. reflexivity. Qed.

Lemma append_empty s : s +:+ "" = s.
Proof.
  induction s as [|c s IH]; [reflexivity|]. rewrite append_cons, IH. reflexivity.
Qed.

Lemma append_assoc s t u : (s +:+ t) +:+ u = s +:+ t +:+ u.
Proof.
  induction s as [|c s IH]; [reflexivity|].
  rewrite !append_cons, IH. reflexivity.
Qed.

Lemma join_cons s l : join (s :: l) = s +:+ join l.
Proof. reflexivity. Qed.

Lemma join_app l1 l2 : join (l1 ++ l2) = join l1 +:+ join l2.
Proof.
  induction l1 as [|s l1 IH]; [reflexivity|].
  change ((s :: l1) ++ l2) with (s :: (l1 ++ l2)).
  rewrite !join_cons, IH, append_assoc. reflexivity.
Qed.

Lemma text_of_leaves n : text_of n = join (leaves n).
Proof.
  induction n as [s|e kids IH] using node_ind'; simpl.
  - symmetry. apply append_empty.
  - induction IH as [|k kids Hk _ IHkids]; [reflexivity|].
    cbn [List.map flat_map]. rewrite join_cons, join_app, <- Hk, IHkids.
    reflexivity.
Qed.

Lemma text_leaves sel : text sel = join (flat_map leaves sel).
Proof.
  unfold text. induction sel as [|n sel IH]; [reflexivity|].
  cbn [List.map flat_map]. rewrite join_cons, join_app, <- text_of_leaves, IH.
  reflexivity.
Qed.

Lemma text_single n : text [n] = text_of n.
Proof. unfold text, join. simpl. apply append_empty. Qed.

(** A selected element lies in the document it is selected from: so do
    its text nodes. *)
Lemma select_node_leaves group n :
  forall ancestors m s,
    In m (select_node group ancestors n) -> In s (leaves m) -> In s (leaves n).
Proof.
  induction n as [t|e kids IH] using node_ind'; intros ancestors m s Hm Hs.
  - destruct Hm.
  - simpl in Hm. apply in_app_iff in Hm as [Hm|Hm].
    + destruct (matches_any group ancestors e); [|destruct Hm].
      destruct Hm as [<-|[]]. exact Hs.
    + apply in_flat_map in Hm as (k & Hk & Hm). simpl.
      apply in_flat_map. exists k. split; [exact Hk|].
      rewrite Forall_forall in IH.
      apply (IH k (proj2 (list_elem_of_In _ _) Hk) _ _ _ Hm Hs).
Qed.

Lemma select_leaves group doc m s :
  In m (select group doc) -> In s (leaves m) -> In s (flat_map leaves doc).
Proof.
  unfold select. intros Hm Hs.
  apply in_flat_map in Hm as (n & Hn & Hm).
  apply in_flat_map. exists n. split; [exact Hn|].
  eapply select_node_leaves; eassumption.
Qed.

Lemma matches_any_flat group a1 a2 e :
  flat_group group -> matches_any group a1 e = matches_any group a2 e.
Proof.
  unfold matches_any. induction 1 as [|sel group Hsel _ IH]; [reflexivity|].
  simpl. rewrite IH. destruct sel; [reflexivity | destruct Hsel].
Qed.

Lemma remove_node_outside group n :
  flat_group group ->
  forall ancestors s,
    In s (flat_map leaves (remove_node group ancestors n)) ->
    outside_node group n s.
Proof.
  intros Hflat.
  induction n as [t|e kids IH] using node_ind'; intros ancestors s Hs.
  - simpl in Hs. destruct Hs as [<-|[]]. constructor.
  - simpl in Hs.
    destruct (matches_any group ancestors e) eqn:E; [destruct Hs|].
    simpl in Hs. rewrite app_nil_r in Hs.
    apply in_flat_map in Hs as (k' & Hk' & Hs).
    apply in_flat_map in Hk' as (k & Hk & Hk').
    rewrite Forall_forall in IH.
    apply outside_elem with (k := k).
    + rewrite (matches_any_flat group [] ancestors e Hflat). exact E.
    + exact Hk.
    + apply (IH k (proj2 (list_elem_of_In _ _) Hk) (e :: ancestors)).
      apply in_flat_map. exists k'. split; assumption.
Qed.

Lemma remove_outside group doc s :
  flat_group group ->
  In s (flat_map leaves (remove group doc)) -> outside group doc s.
Proof.
  intros Hflat Hs. unfold remove in Hs.
  apply in_flat_map in Hs as (k' & Hk' & Hs).
  apply in_flat_map in Hk' as (n & Hn & Hk').
  exists n. split; [exact Hn|].
  apply (remove_node_outside group n Hflat []).
  apply in_flat_map. exists k'. split; assumption.
Qed.

(** Nothing that matches the group is left after its removal. *)
Lemma select_remove_node group n :
  flat_group group ->
  forall a1 a2,
    flat_map (select_node group a1) (remove_node group a2 n) = [].
Proof.
  intros Hflat.
  induction n as [t|e kids IH] using node_ind'; intros a1 a2; [reflexivity|].
  simpl. destruct (matches_any group a2 e) eqn:E; [reflexivity|].
  simpl. rewrite (matches_any_flat group a1 a2 e Hflat), E. simpl.
  rewrite app_nil_r.
  induction IH as [|k kids Hk _ IHkids]; simpl; [reflexivity|].
  rewrite flat_map_app, Hk, IHkids. reflexivity.
Qed.

Lemma select_remove group doc :
  flat_group group -> select group (remove group doc) = [].
Proof.
  intros Hflat. unfold select, remove.
  induction doc as [|n doc IH]; simpl; [reflexivity|].
  rewrite flat_map_app, IH, (select_remove_node group n Hflat). reflexivity.
Qed.

End DomFacts.

(* ===================================================================== *)
(** * extractMainContent: what is chosen *)
(* ===================================================================== *)

Module MainContentFacts.
Import JsString JsStringSpec JsStringFacts Dom DomSpec DomFacts Fetcher
       MainContentSpec.

Lemma boilerplate_flat : flat_group boilerplate.
Proof. repeat constructor. Qed.

Lemma first_match_text_found sels doc i e :
  first_match sels doc i e -> first_match_text sels doc = text_of e.
Proof.
  revert i. induction sels as [|sel0 sels IH]; intros i (sel & rest & Hi & He & Hj).
  - destruct i; discriminate.
  - destruct i as [|i].
    + injection Hi as ->. simpl. rewrite He. simpl. apply text_single.
    + simpl. rewrite (Hj 0 sel0 (Nat.lt_0_succ i) eq_refl). simpl.
      apply (IH i). exists sel, rest. split; [exact Hi|]. split; [exact He|].
      intros j sel' Hlt Hs. apply (Hj (S j) sel'); [lia | exact Hs].
Qed.

Lemma first_match_text_none sels doc :
  no_match sels doc -> first_match_text sels doc = "".
Proof.
  induction sels as [|sel0 sels IH]; intros H; [reflexivity|].
  simpl. rewrite (H sel0 (or_introl eq_refl)). simpl.
  apply IH. intros sel Hs. apply H. right. exact Hs.
Qed.

(** Whatever the loop picks is the text of elements of the document. *)
Lemma first_match_text_selected sels doc :
  exists sel,
    first_match_text sels doc = text sel
    /\ forall m, In m sel -> exists g, In m (select g doc).
Proof.
  induction sels as [|sel0 sels IH].
  - exists []. split; [reflexivity | intros m []].
  - simpl. destruct (select [sel0] doc) as [|n rest] eqn:E.
    + exact IH.
    + exists [n]. split; [reflexivity|].
      intros m [<-|[]]. exists [sel0]. rewrite E. left. reflexivity.
Qed.

Lemma truthy_nonempty s : truthy s = true <-> s <> "".
Proof. destruct s; simpl; split; congruence. Qed.

Lemma raw_content_pieces doc :
  exists pieces,
    raw_content doc = join pieces /\ Forall (outside boilerplate doc) pieces.
Proof.
  unfold raw_content.
  destruct (first_match_text_selected mainSelectors (remove boilerplate doc))
    as (sel & Htext & Hsel).
  destruct (truthy (first_match_text mainSelectors (remove boilerplate doc))).
  - exists (flat_map leaves sel). split; [rewrite Htext; apply text_leaves|].
    apply Forall_forall. intros s Hs. apply list_elem_of_In in Hs.
    apply in_flat_map in Hs as (m & Hm & Hs).
    destruct (Hsel m Hm) as (g & Hg).
    apply remove_outside; [apply boilerplate_flat|].
    eapply select_leaves; eassumption.
  - exists (flat_map leaves (select [Sel [STag "body"]] (remove boilerplate doc))).
    split; [apply text_leaves|].
    apply Forall_forall. intros s Hs. apply list_elem_of_In in Hs.
    apply in_flat_map in Hs as (m & Hm & Hs).
    apply remove_outside; [apply boilerplate_flat|].
    eapply select_leaves; eassumption.
Qed.


Lemma scenario_first_match :
  first_match mainSelectors (remove boilerplate Examples.scenario_page) 1
    (Examples.el "article" []
       [ Examples.el "h1" [] [ Text "T" ];
         Examples.el "p" [] [ Text (Examples.repeat_string "x" 150) ] ]).
Proof.
  exists (Sel [STag "article"]), []. split; [reflexivity|].
  split; [reflexivity|].
  intros j sel' Hj. destruct j as [|j]; [|lia].
  intros [= <-]. reflexivity.
Defined.

Lemma empty_main_first_match :
  first_match mainSelectors (remove boilerplate Examples.empty_main_page) 0
    (Examples.el "main" [] []).
Proof.
  exists (Sel [STag "main"]), []. split; [reflexivity|].
  split; [reflexivity|]. intros j sel' Hj. lia.
Defined.

Lemma plain_page_no_match :
  no_match mainSelectors (remove boilerplate Examples.plain_page).
Proof.
  intros sel Hsel. simpl in Hsel.
  repeat (destruct Hsel as [<-|Hsel]; [reflexivity|]). destruct Hsel.
Defined.



End MainContentFacts.

(* ===================================================================== *)
(** * Arrays of strings without duplicates *)
(* ===================================================================== *)

Module SetFacts.
Import SetSpec.

Lemma array_includes_In l x : array_includes l x = true <-> In x l.
Proof.
  unfold array_includes. rewrite existsb_exists. split.
  - intros (y & Hy & E). apply String.eqb_eq in E. subst. exact Hy.
  - intros H. exists x. split; [exact H | apply String.eqb_refl].
Qed.

Lemma array_includes_app l1 l2 x :
  array_includes (l1 ++ l2) x = array_includes l1 x || array_includes l2 x.
Proof. unfold array_includes. apply existsb_app. Qed.

Lemma filter_filter_bool {A} (f g : A -> bool) l :
  List.filter f (List.filter g l) = List.filter (fun x => g x && f x) l.
Proof.
  induction l as [|x l IH]; simpl; [reflexivity|].
  destruct (g x); simpl; [destruct (f x)|]; rewrite IH; reflexivity.
Qed.

Lemma filter_ext_bool {A} (f g : A -> bool) l :
  (forall x, f x = g x) -> List.filter f l = List.filter g l.
Proof.
  intros H. induction l as [|x l IH]; simpl; [reflexivity|].
  rewrite H, IH. reflexivity.
Qed.

(** The loop that fills a [Set], started from [acc]. *)
Lemma fold_set_add l :
  forall acc,
    fold_left set_add l acc
    = acc ++ List.filter (absent_from acc) (first_seen l).
Proof.
  induction l as [|x l IH]; intros acc; simpl; [symmetry; apply app_nil_r|].
  rewrite IH. unfold set_add, absent_from at 2.
  destruct (array_includes acc x) eqn:E; simpl.
  - f_equal. rewrite filter_filter_bool. apply filter_ext_bool.
    intros y. unfold absent_from.
    destruct (String.eqb x y) eqn:Exy; simpl; [|reflexivity].
    apply String.eqb_eq in Exy. subst. rewrite E. reflexivity.
  - rewrite <- app_assoc. simpl. do 2 f_equal.
    rewrite filter_filter_bool. apply filter_ext_bool.
    intros y. unfold absent_from. rewrite array_includes_app.
    unfold array_includes at 2. simpl.
    rewrite orb_false_r, negb_orb, (String.eqb_sym y x).
    apply andb_comm.
Qed.

Lemma set_spread_first_seen l : set_spread l = first_seen l.
Proof.
  unfold set_spread. rewrite fold_set_add. simpl.
  induction (first_seen l) as [|y r IH]; simpl; [reflexivity|].
  f_equal. exact IH.
Qed.

Lemma first_seen_In l x : In x (first_seen l) <-> In x l.
Proof.
  induction l as [|y l IH]; simpl; [tauto|].
  rewrite filter_In, IH. split.
  - intros [H|[H _]]; auto.
  - intros [H|H]; [auto|].
    destruct (String.eqb y x) eqn:E.
    + apply String.eqb_eq in E. auto.
    + right. split; [exact H | reflexivity].
Qed.

Lemma first_seen_NoDup l : List.NoDup (first_seen l).
Proof.
  induction l as [|y l IH]; simpl; constructor.
  - rewrite filter_In. intros [_ H]. rewrite String.eqb_refl in H. discriminate.
  - apply List.NoDup_filter, IH.
Qed.

Lemma filter_other x l :
  ~ In x l -> List.filter (fun y => negb (String.eqb x y)) l = l.
Proof.
  induction l as [|y l IH]; simpl; intros H; [reflexivity|].
  destruct (String.eqb x y) eqn:E.
  - apply String.eqb_eq in E. subst. exfalso. apply H. left. reflexivity.
  - simpl. f_equal. apply IH. intros Hx. apply H. right. exact Hx.
Qed.

Lemma first_seen_fixed l : List.NoDup l -> first_seen l = l.
Proof.
  induction 1 as [|x l Hx Hl IH]; simpl; [reflexivity|].
  rewrite IH, (filter_other x l Hx). reflexivity.
Qed.

End SetFacts.

(* ===================================================================== *)
(** * extractLinks *)
(* ===================================================================== *)

Module LinksFacts.
Import JsString Dom Fetcher SetSpec SetFacts LinksSpec.

Section Links.

Variable new_URL : string -> option URL.
Variable new_URL_in : string -> URL -> option URL.

Abbreviation resolved_link := (resolved_link new_URL_in).

Lemma extractLinks_step_link base links element :
  extractLinks_step new_URL_in base links element
  = links ++ option_list (resolved_link base element).
Proof.
  unfold extractLinks_step, resolved_link.
  destruct (attr "href" element) as [h|]; [|symmetry; apply app_nil_r].
  destruct (truthy h); simpl; [|symmetry; apply app_nil_r].
  destruct (new_URL_in h base) as [u|]; [|symmetry; apply app_nil_r].
  destruct (String.eqb (hostname u) (hostname base));
    [reflexivity | symmetry; apply app_nil_r].
Qed.

Lemma extractLinks_fold base elements :
  forall links,
    fold_left (extractLinks_step new_URL_in base) elements links
    = links ++ omap (resolved_link base) elements.
Proof.
  induction elements as [|el elements IH]; intros links; simpl;
    [symmetry; apply app_nil_r|].
  rewrite IH, extractLinks_step_link, <- app_assoc. f_equal.
  destruct (resolved_link base el); reflexivity.
Qed.

Lemma resolved_link_Some base element l :
  resolved_link base element = Some l <->
  exists h u,
    attr "href" element = Some h /\ h <> ""
    /\ new_URL_in h base = Some u
    /\ hostname u = hostname base /\ href u = l.
Proof.
  unfold resolved_link. split.
  - destruct (attr "href" element) as [h|] eqn:Ea; [|discriminate].
    destruct (truthy h) eqn:Eh; [|discriminate].
    destruct (new_URL_in h base) as [u|] eqn:Eu; [|discriminate].
    destruct (String.eqb (hostname u) (hostname base)) eqn:E; [|discriminate].
    intros [= <-]. exists h, u. apply String.eqb_eq in E.
    repeat split; try assumption; try reflexivity.
    intros ->. discriminate.
  - intros (h & u & -> & Hh & -> & Hhost & <-).
    destruct h; [congruence|]. simpl.
    rewrite Hhost, String.eqb_refl. reflexivity.
Qed.

Lemma in_omap_link base elements l :
  In l (omap (resolved_link base) elements) <->
  exists element, In element elements /\ resolved_link base element = Some l.
Proof.
  rewrite <- list_elem_of_In, list_elem_of_omap.
  split; intros (el & H1 & H2); exists el; split;
    try assumption; apply list_elem_of_In; assumption.
Qed.

(** C7.  With a base URL that parses, [extractLinks] returns (it does not
    throw, whatever the anchors hold) a list without duplicates.  Each of
    its entries is the resolved absolute URL of an anchor whose hostname is
    that of the base, every such anchor is represented, and an anchor whose
    reference fails to resolve contributes nothing: the list is the
    resolved same-host links in order of first occurrence. *)
Theorem extractLinks_same_host_no_duplicates
        (html : document) (baseUrl : string) (base : URL) :
  new_URL baseUrl = Some base ->
  exists links,
    extractLinks new_URL new_URL_in html baseUrl = Ok links
    /\ List.NoDup links
    /\ (forall l, In l links ->
          exists element h u,
            In element (select anchors_with_href html)
            /\ attr "href" element = Some h
            /\ new_URL_in h base = Some u
            /\ hostname u = hostname base
            /\ href u = l)
    /\ (forall element h u,
          In element (select anchors_with_href html) ->
          attr "href" element = Some h -> h <> "" ->
          new_URL_in h base = Some u ->
          hostname u = hostname base ->
          In (href u) links)
    /\ (forall element h,
          attr "href" element = Some h -> new_URL_in h base = None ->
          resolved_link base element = None)
    /\ links
       = first_seen (omap (resolved_link base) (select anchors_with_href html)).
Proof.
  intros Hbase. unfold extractLinks. rewrite Hbase.
  eexists. split; [reflexivity|].
  rewrite extractLinks_fold, set_spread_first_seen. simpl.
  fold anchors_with_href.
  split; [apply first_seen_NoDup|].
  split; [|split; [|split]].
  - intros l Hl. apply (proj1 (first_seen_In _ _)) in Hl.
    apply in_omap_link in Hl as (el & Hel & Hl).
    apply resolved_link_Some in Hl as (h & u & Ha & _ & Hu & Hh & Hl).
    exists el, h, u. auto.
  - intros el h u Hel Ha Hh Hu Hhost.
    apply first_seen_In, in_omap_link. exists el. split; [exact Hel|].
    apply resolved_link_Some. exists h, u. auto.
  - intros el h Ha Hu. unfold resolved_link. rewrite Ha, Hu.
    destruct (truthy h); reflexivity.
  - reflexivity.
Qed.

End Links.

(** On [links_page]: the two same-host links, the repeated one once; the
    link to another host and the unresolvable reference are left out. *)
Lemma extractLinks_links_page :
  exists links,
    extractLinks Examples.example_new_URL Examples.example_new_URL_in
      Examples.links_page "https://example.com/" = Ok links
    /\ links = [ "https://example.com/about"; "https://example.com/blog/first" ].
Proof.
  destruct (extractLinks_same_host_no_duplicates
              Examples.example_new_URL Examples.example_new_URL_in
              Examples.links_page "https://example.com/"
              (mkURL "https://example.com/" "example.com" "/") eq_refl)
    as (links & Hok & _ & _ & _ & _ & Hlinks).
  exists links. split; [exact Hok|]. rewrite Hlinks. vm_compute. reflexivity.
Defined.

End LinksFacts.

(* ===================================================================== *)
(** * Substrings *)
(* ===================================================================== *)

Module IncludesFacts.
Import JsString DomFacts.

Lemma startsWith_spec t s :
  startsWith t s = true <-> exists post, s = t +:+ post.
Proof.
  revert s. induction t as [|a t IH]; intros s; simpl.
  - split; [intros _; exists s; reflexivity | reflexivity].
  - destruct s as [|b s].
    + split; [discriminate | intros (post & H); discriminate].
    + rewrite andb_true_iff, Ascii.eqb_eq, IH. split.
      * intros (-> & post & ->). exists post. reflexivity.
      * intros (post & H). rewrite append_cons in H.
        injection H as -> ->. split; [reflexivity | exists post; reflexivity].
Qed.

Lemma includes_spec s t :
  includes s t = true <-> exists pre post, s = pre +:+ t +:+ post.
Proof.
  induction s as [|c s IH].
  - simpl. rewrite orb_false_r, startsWith_spec. split.
    + intros (post & H). exists "", post. exact H.
    + intros ([|c pre] & post & H); [exists post; exact H | discriminate].
  - change (includes (String c s) t)
      with (startsWith t (String c s) || includes s t).
    rewrite orb_true_iff, startsWith_spec, IH. split.
    + intros [(post & H)|(pre & post & H)].
      * exists "", post. exact H.
      * exists (String c pre), post. rewrite append_cons, H. reflexivity.
    + intros ([|d pre] & post & H).
      * left. exists post. exact H.
      * right. rewrite append_cons in H. injection H as -> ->.
        exists pre, post. reflexivity.
Qed.

End IncludesFacts.

(* ===================================================================== *)
(** * extractArticleLinks *)
(* ===================================================================== *)

Module ArticleLinksFacts.
Import JsString Dom Fetcher Discover SetSpec SetFacts IncludesFacts
       ArticleLinksSpec.

Lemma is_non_article_path_spec path :
  is_non_article_path path = true <-> has_non_article_segment path.
Proof.
  unfold is_non_article_path, has_non_article_segment.
  rewrite existsb_exists. split.
  - intros (w & Hw & H). apply includes_spec in H as (pre & post & H).
    exists w, pre, post. auto.
  - intros (w & pre & post & Hw & H). exists w. split; [exact Hw|].
    apply includes_spec. exists pre, post. exact H.
Qed.

Section ArticleLinks.

Variable new_URL : string -> option URL.
Variable new_URL_in : string -> URL -> option URL.

Abbreviation article_link := (article_link new_URL_in).

Lemma extractArticleLinks_step_link base articleUrls element :
  extractArticleLinks_step new_URL_in base articleUrls element
  = match article_link base element with
    | Some l => set_add articleUrls l
    | None => articleUrls
    end.
Proof.
  unfold extractArticleLinks_step, article_link, set_add.
  destruct (attr "href" element) as [h|]; [|reflexivity].
  destruct (truthy h); simpl; [|reflexivity].
  destruct (new_URL_in h base) as [u|]; [|reflexivity].
  destruct (String.eqb (hostname u) (hostname base)); simpl; [|reflexivity].
  destruct (is_non_article_path (pathname u)); simpl;
    [destruct (array_includes articleUrls (href u)); reflexivity|].
  destruct (String.eqb (pathname u) (pathname base)); simpl;
    destruct (array_includes articleUrls (href u)); reflexivity.
Qed.

Lemma extractArticleLinks_fold base elements :
  forall articleUrls,
    fold_left (extractArticleLinks_step new_URL_in base) elements articleUrls
    = fold_left set_add (omap (article_link base) elements) articleUrls.
Proof.
  induction elements as [|el elements IH]; intros acc; simpl; [reflexivity|].
  rewrite IH, extractArticleLinks_step_link.
  destruct (article_link base el); reflexivity.
Qed.

Lemma fold_left_selectors {A B C} (f : A -> C -> A) (g : B -> list C) l :
  forall acc,
    fold_left (fun acc x => fold_left f (g x) acc) l acc
    = fold_left f (flat_map g l) acc.
Proof.
  induction l as [|x l IH]; intros acc; simpl; [reflexivity|].
  rewrite fold_left_app. apply IH.
Qed.

Lemma article_link_Some base element l :
  article_link base element = Some l <->
  exists h u,
    attr "href" element = Some h /\ h <> ""
    /\ new_URL_in h base = Some u
    /\ href u = l
    /\ hostname u = hostname base
    /\ ~ has_non_article_segment (pathname u)
    /\ pathname u <> pathname base.
Proof.
  unfold article_link. split.
  - destruct (attr "href" element) as [h|] eqn:Ea; [|discriminate].
    destruct (truthy h) eqn:Eh; [|discriminate].
    destruct (new_URL_in h base) as [u|] eqn:Eu; [|discriminate].
    destruct (String.eqb (hostname u) (hostname base)) eqn:E1;
      [|discriminate].
    destruct (is_non_article_path (pathname u)) eqn:E2; [discriminate|].
    destruct (String.eqb (pathname u) (pathname base)) eqn:E3; [discriminate|].
    intros [= <-]. exists h, u.
    apply String.eqb_eq in E1. apply String.eqb_neq in E3.
    repeat split; try assumption; try reflexivity.
    + intros ->. discriminate.
    + intros H. apply is_non_article_path_spec in H. congruence.
  - intros (h & u & -> & Hh & -> & <- & Hhost & Hseg & Hpath).
    destruct h; [congruence|]. simpl.
    rewrite Hhost, String.eqb_refl.
    destruct (is_non_article_path (pathname u)) eqn:E2.
    + exfalso. apply Hseg, is_non_article_path_spec, E2.
    + apply String.eqb_neq in Hpath. rewrite Hpath. reflexivity.
Qed.


End ArticleLinks.

Ltac one_candidate :=
  let Ha := fresh "Ha" in
  let Hu := fresh "Hu" in
  intros Ha; vm_compute in Ha; injection Ha as <-;
  intros Hu; vm_compute in Hu; injection Hu as <-;
  vm_compute; congruence.

Ltac each_candidate H :=
  repeat (destruct H as [<-|H]; [one_candidate|]);
  destruct H.


End ArticleLinksFacts.

(* ===================================================================== *)
(** * Discover: the validation gate and the stored article *)
(* ===================================================================== *)

Module DiscoverFacts.
Import JsString Dom Fetcher Discover DiscoverSpec.

Lemma slice0_length n s : String.length (slice0 n s) <= n.
Proof.
  revert s. induction n as [|n IH]; intros s; simpl; [lia|].
  destruct s as [|c s]; simpl; [lia|]. specialize (IH s). lia.
Qed.

Lemma slice0_prefix n s : exists rest, s = slice0 n s +:+ rest.
Proof.
  revert s. induction n as [|n IH]; intros s; simpl; [exists s; reflexivity|].
  destruct s as [|c s]; [exists ""; reflexivity|].
  destruct (IH s) as (rest & H). exists rest.
  rewrite DomFacts.append_cons, <- H. reflexivity.
Qed.

Section Discovery.

Variable new_URL : string -> option URL.
Variable new_URL_in : string -> URL -> option URL.
Variable fetchPage : string -> result document.

Lemma fetchArticle_rejects url html :
  fetchPage url = Ok html ->
  title (extractMetadata html) = ""
  \/ String.length (extractMainContent html) < 100 ->
  fetchArticle fetchPage url = Ok None.
Proof.
  intros Hf H. unfold fetchArticle. rewrite Hf.
  destruct H as [H|H].
  - rewrite H. reflexivity.
  - apply Nat.ltb_lt in H. rewrite H, orb_true_r. reflexivity.
Qed.

Lemma fetchArticle_accepts url article :
  fetchArticle fetchPage url = Ok (Some article) ->
  exists html,
    fetchPage url = Ok html
    /\ passes_gate html
    /\ Discover.url article = url
    /\ article_title article = title (extractMetadata html)
    /\ content article = slice0 5000 (extractMainContent html)
    /\ wordCount article = split_ws_length (extractMainContent html).
Proof.
  unfold fetchArticle. destruct (fetchPage url) as [html|m]; [|discriminate].
  destruct (truthy (title (extractMetadata html))) eqn:Et; [|discriminate].
  destruct (String.length (extractMainContent html) <? 100)%nat eqn:El;
    [discriminate|].
  simpl. intros [= <-]. exists html. split; [reflexivity|].
  split; [|repeat split].
  apply Nat.ltb_ge in El. split; [|exact El].
  intros H. rewrite H in Et. discriminate.
Qed.

(** Every article that the loop collects comes from a page that passes the
    gate. *)
Lemma collect_fold articleUrls :
  forall articles,
    Forall (fun a => exists html,
                fetchPage (Discover.url a) = Ok html /\ passes_gate html)
           articles ->
    Forall (fun a => exists html,
                fetchPage (Discover.url a) = Ok html /\ passes_gate html)
           (fold_left (collect_step fetchPage) articleUrls articles).
Proof.
  induction articleUrls as [|u urls IH]; intros articles H; simpl; [exact H|].
  apply IH. unfold collect_step.
  destruct (fetchArticle fetchPage u) as [[a|]|m] eqn:E; try exact H.
  apply Forall_app. split; [exact H|].
  constructor; [|constructor].
  apply fetchArticle_accepts in E as (html & Hf & Hg & Hu & _).
  exists html. rewrite Hu. auto.
Qed.

Lemma collect_articles_gate articleUrls :
  Forall (fun a => exists html,
              fetchPage (Discover.url a) = Ok html /\ passes_gate html)
         (collect_articles fetchPage articleUrls).
Proof. unfold collect_articles. apply collect_fold. constructor. Qed.

Lemma discoverArticles_inventory url outputDir r inv :
  discoverArticles new_URL new_URL_in fetchPage url outputDir = Ok (r, inv) ->
  result_articles r = articles inv
  /\ articleCount inv = length (articles inv)
  /\ (articles inv = []
      \/ exists articleUrls,
           articles inv = collect_articles fetchPage articleUrls).
Proof.
  unfold discoverArticles.
  destruct (getSiteOutputDir new_URL outputDir url); [|discriminate].
  destruct (fetchPage url) as [mainHtml|]; [|discriminate].
  destruct (findBlogLinks new_URL new_URL_in mainHtml url) as [found|];
    [|discriminate].
  match goal with
  | |- match ?probed with _ => _ end = _ -> _ =>
      destruct probed as [blogLinks|]; [|discriminate]
  end.
  destruct (find_listing new_URL blogLinks) as [listing|]; [|discriminate].
  match goal with
  | |- match ?collected with _ => _ end = _ -> _ =>
      assert ((exists m, collected = Throw m) \/ collected = Ok []
              \/ exists articleUrls,
                   collected = Ok (collect_articles fetchPage articleUrls))
        as Hc;
      [| destruct collected as [arts|]; [|discriminate] ]
  end.
  { match goal with
    | |- context [match ?b with Some l => if truthy l then _ else Ok [] | None => Ok [] end] =>
        destruct b as [l|]; [|auto]
    end.
    destruct (truthy l); [|auto].
    destruct (fetchPage l) as [listingHtml|m]; [|left; eauto].
    destruct (extractArticleLinks new_URL new_URL_in listingHtml l)
      as [articleUrls|m]; [|left; eauto].
    right. right. eauto. }
  intros [= <- <-]. simpl. split; [reflexivity|]. split; [reflexivity|].
  destruct Hc as [(m & Hm)|[Hc|(articleUrls & Hc)]]; [discriminate| |].
  - injection Hc as ->. left. reflexivity.
  - injection Hc as ->. right. eauto.
Qed.

(** C5.  A fetched candidate whose title is empty or whose body is shorter
    than 100 characters is answered with [null] (no error is raised), and
    [fetchArticle] gives an article only for a page with a title and a body
    of at least 100 characters.  So every article of the inventory that
    [discoverArticles] writes comes from a page that passes the gate, and a
    rejected candidate is not in the inventory. *)
Theorem validation_gate :
  (forall url html,
     fetchPage url = Ok html ->
     title (extractMetadata html) = ""
     \/ String.length (extractMainContent html) < 100 ->
     fetchArticle fetchPage url = Ok None)
  /\ (forall url article,
        fetchArticle fetchPage url = Ok (Some article) ->
        exists html,
          fetchPage url = Ok html /\ passes_gate html
          /\ Discover.url article = url)
  /\ (forall url outputDir r inv,
        discoverArticles new_URL new_URL_in fetchPage url outputDir
        = Ok (r, inv) ->
        Forall (fun a => exists html,
                    fetchPage (Discover.url a) = Ok html /\ passes_gate html)
               (articles inv)
        /\ forall rejected html,
             fetchPage rejected = Ok html ->
             title (extractMetadata html) = ""
             \/ String.length (extractMainContent html) < 100 ->
             Forall (fun a => Discover.url a <> rejected) (articles inv)).
Proof.
  split; [exact fetchArticle_rejects|].
  split.
  { intros url article H.
    apply fetchArticle_accepts in H as (html & Hf & Hg & Hu & _).
    exists html. auto. }
  intros url outputDir r inv H.
  assert (Forall (fun a => exists html,
                      fetchPage (Discover.url a) = Ok html /\ passes_gate html)
                 (articles inv)) as Hall.
  { apply discoverArticles_inventory in H as (_ & _ & [Hn|(urls & Hc)]).
    - rewrite Hn. constructor.
    - rewrite Hc. apply collect_articles_gate. }
  split; [exact Hall|].
  intros rejected html Hf Hrej.
  eapply Forall_impl; [exact Hall|].
  intros a (html' & Hf' & Ht & Hl) E.
  rewrite E, Hf in Hf'. injection Hf' as <-.
  destruct Hrej as [Hrej|Hrej]; [congruence | lia].
Qed.

(** C9 (amended).  The stored [content] of an accepted article is the body
    text cut to its first 5000 characters, and [wordCount] is the number of
    pieces of the whole body text, before that cut. *)
Theorem stored_content_and_word_count (url : string) (article : ExistingArticle) :
  fetchArticle fetchPage url = Ok (Some article) ->
  exists html,
    fetchPage url = Ok html
    /\ content article = slice0 5000 (extractMainContent html)
    /\ String.length (content article) <= 5000
    /\ (exists rest, extractMainContent html = content article +:+ rest)
    /\ wordCount article = split_ws_length (extractMainContent html).
Proof.
  intros H.
  apply fetchArticle_accepts in H as (html & Hf & _ & _ & _ & Hc & Hw).
  exists html. split; [exact Hf|]. split; [exact Hc|].
  rewrite Hc. split; [apply slice0_length|]. split; [apply slice0_prefix|].
  exact Hw.
Qed.

End Discovery.

End DiscoverFacts.


Module DiscoverExamples.
Import JsString Dom Fetcher Discover DiscoverSpec DiscoverFacts.

(** On the small site: the candidates without a title and with a short
    body are answered with [null], and neither they nor the page that
    cannot be fetched are in the inventory. *)
Lemma validation_gate_example :
  exists r inv,
    discoverArticles Examples.example_new_URL Examples.example_new_URL_in
      Examples.example_web "https://example.com/" "/out" = Ok (r, inv)
    /\ List.map url (articles inv) = [ "https://example.com/blog/good" ]
    /\ fetchArticle Examples.example_web "https://example.com/blog/untitled"
       = Ok None
    /\ (exists html,
          Examples.example_web "https://example.com/blog/good" = Ok html
          /\ passes_gate html)
    /\ Forall (fun a => url a <> "https://example.com/blog/short")
         (articles inv).
Proof.
  pose proof (validation_gate Examples.example_new_URL
                Examples.example_new_URL_in Examples.example_web)
    as (Hreject & Haccept & Hinventory).
  destruct (discoverArticles Examples.example_new_URL
              Examples.example_new_URL_in Examples.example_web
              "https://example.com/" "/out") as [[r inv]|m] eqn:Hrun.
  2:{ vm_compute in Hrun. discriminate. }
  exists r, inv. split; [reflexivity|].
  split.
  { vm_compute in Hrun. injection Hrun as <- <-. reflexivity. }
  split; [|split].
  - apply (Hreject "https://example.com/blog/untitled"
             (Examples.page
                [ Examples.el "article" [] [ Text Examples.long_text ] ])
             eq_refl).
    left. vm_compute. reflexivity.
  - destruct (fetchArticle Examples.example_web "https://example.com/blog/good")
      as [[article|]|m'] eqn:Hgood.
    2,3: (vm_compute in Hgood; discriminate).
    destruct (Haccept _ _ Hgood) as (html & Hf & Hg & _).
    exists html. split; assumption.
  - apply (proj2 (Hinventory _ _ _ _ Hrun)
             "https://example.com/blog/short"
             (Examples.titled_page "Short article"
                [ Examples.el "article" [] [ Text "Too short" ] ])
             eq_refl).
    right. vm_compute. lia.
Defined.

(** The long article: 1500 words in 7499 characters. *)
Lemma stored_content_long_article :
  exists article html,
    fetchArticle Examples.example_web "https://example.com/blog/long"
    = Ok (Some article)
    /\ Examples.example_web "https://example.com/blog/long" = Ok html
    /\ String.length (content article) <= 5000
    /\ wordCount article = split_ws_length (extractMainContent html).
Proof.
  destruct (fetchArticle Examples.example_web "https://example.com/blog/long")
    as [[article|]|m] eqn:Hrun.
  2,3: (vm_compute in Hrun; discriminate).
  destruct (stored_content_and_word_count Examples.example_web
              "https://example.com/blog/long" article Hrun)
    as (html & Hf & _ & Hlen & _ & Hw).
  exists article, html. auto.
Defined.

(** C9 as stated fails: the word count of the long article is that of the
    whole body (1500), not that of the 5000 characters that are stored
    (1001 pieces). *)
Lemma word_count_counts_beyond_5000 :
  exists article,
    fetchArticle Examples.example_web "https://example.com/blog/long"
    = Ok (Some article)
    /\ String.length (content article) = 5000
    /\ wordCount article = 1500
    /\ split_ws_length (content article) = 1001
    /\ wordCount article <> split_ws_length (content article).
Proof.
  eexists. split; [vm_compute; reflexivity|].
  repeat split; try (vm_compute; reflexivity).
  vm_compute. discriminate.
Qed.

End DiscoverExamples.

(* ===================================================================== *)
(** * generateArticles: what is invoked and what is persisted *)
(* ===================================================================== *)

Module GenerateFacts.
Import JsString Generate GenerateSpec.

Lemma briefs_at_length plan positions :
  length (briefs_at plan positions) <= length positions.
Proof.
  induction positions as [|i l IH]; simpl; [lia|].
  unfold briefs_at in *. simpl. destruct (plan !! i); simpl; lia.
Qed.

Lemma briefs_at_alter plan i positions :
  i ∉ positions ->
  briefs_at (alter set_generated i plan) positions = briefs_at plan positions.
Proof.
  unfold briefs_at. induction positions as [|j l IH]; intros H; [reflexivity|].
  apply not_elem_of_cons in H as [Hij Hl].
  change (omap ?f (j :: l))
    with (match f j with Some b => b :: omap f l | None => omap f l end).
  cbv beta. rewrite list_lookup_alter_ne by congruence. rewrite IH by exact Hl.
  reflexivity.
Qed.

(** The positions that [filter] keeps: distinct, inside the plan, and of
    briefs that are not generated. *)
Lemma pending_spec plan i :
  In i (pending plan) <->
  exists b, plan !! i = Some b /\ brief_status b <> generated.
Proof.
  unfold pending. rewrite filter_In, in_seq. split.
  - intros [_ H]. destruct (plan !! i) as [b|]; [|discriminate].
    exists b. split; [reflexivity|]. intros E. rewrite E in H. discriminate.
  - intros (b & Hb & Hs). split.
    + apply lookup_lt_Some in Hb. lia.
    + rewrite Hb. destruct (brief_status b); try reflexivity. congruence.
Qed.

Lemma pending_NoDup plan : List.NoDup (pending plan).
Proof. unfold pending. apply List.NoDup_filter, seq_NoDup. Qed.

Lemma filter_positions {A} (p : A -> bool) (l : list A) :
  forall k,
    length (List.filter
              (fun i => match l !! (i - k) with Some a => p a | None => false end)
              (seq k (length l)))
    = length (List.filter p l).
Proof.
  induction l as [|x l IH]; intros k; simpl; [reflexivity|].
  rewrite Nat.sub_diag. simpl.
  assert (List.filter
            (fun i => match (x :: l) !! (i - k) with
                      | Some a => p a | None => false end)
            (seq (S k) (length l))
          = List.filter
              (fun i => match l !! (i - S k) with
                        | Some a => p a | None => false end)
              (seq (S k) (length l))) as E.
  { apply filter_ext_in. intros i Hi. apply in_seq in Hi.
    replace (i - k) with (S (i - S k)) by lia. reflexivity. }
  rewrite E. destruct (p x); simpl; rewrite IH; reflexivity.
Qed.

Lemma filter_complement {A} (p : A -> bool) (l : list A) :
  length (List.filter (fun a => negb (p a)) l)
  = length l - length (List.filter p l).
Proof.
  induction l as [|x l IH]; simpl; [reflexivity|].
  pose proof (filter_length_le p l).
  destruct (p x); simpl; lia.
Qed.

Lemma pending_length plan :
  length (pending plan) = length plan - generated_count plan.
Proof.
  unfold pending, generated_count.
  rewrite <- (filter_complement (fun a => is_generated (brief_status a))).
  rewrite <- (filter_positions
                (fun a => negb (is_generated (brief_status a))) plan 0).
  f_equal. apply filter_ext_in. intros i _. rewrite Nat.sub_0_r. reflexivity.
Qed.

(** What [slice(0, end)] takes: a prefix, whose length is [end] or the
    whole length when [end] is not negative, and nothing for [NaN]. *)
Lemma array_slice0_take {A} last (l : list A) :
  exists n, array_slice0 last l = take n l /\ n <= length l.
Proof.
  unfold array_slice0. eexists. split; [reflexivity|].
  destruct last as [|z]; [simpl; lia|].
  destruct (z <? 0)%Z eqn:E; lia.
Qed.

Lemma array_slice0_nonneg {A} c (l : list A) :
  (0 <= c)%Z ->
  length (array_slice0 (Int c) l) = Z.to_nat (Z.min c (Z.of_nat (length l))).
Proof.
  intros H. unfold array_slice0.
  replace (c <? 0)%Z with false by lia.
  rewrite length_take. lia.
Qed.

Lemma array_slice0_NaN {A} (l : list A) : array_slice0 NaN l = [].
Proof. reflexivity. Qed.

Section Generation.

Variable SiteAnalysis : Type.
Variable generateSingleArticle :
  ArticleBrief -> SiteAnalysis -> result GeneratedArticle.

Abbreviation world := (world SiteAnalysis).

(** One turn of the loop: the generator is invoked for the brief, and the
    plan on disk is not touched. *)
Lemma generate_one_spec dir analysis i plan acc (w : world) brief :
  plan !! i = Some brief ->
  exists w',
    generate_one SiteAnalysis generateSingleArticle dir analysis i (plan, acc) w
    = (w', match generateSingleArticle brief analysis with
           | Ok article => Ok (alter set_generated i plan, acc ++ [article])
           | Throw m => Throw m
           end)
    /\ invocations _ w' = invocations _ w ++ [brief]
    /\ article_plan _ w' = article_plan _ w
    /\ site_analysis _ w' = site_analysis _ w.
Proof.
  intros H. unfold generate_one. rewrite H.
  unfold bind, invoke, writeFile, when, ret.
  destruct (generateSingleArticle brief analysis) as [article|m]; simpl.
  - destruct (is_truthy (mediumContent article)),
             (is_truthy (linkedinContent article));
      simpl; eexists; (split; [reflexivity|]); simpl; auto.
  - eexists. split; [reflexivity|]. simpl. auto.
Qed.

(** The loop invokes the generator for the briefs of a prefix of the
    positions, in order, each brief as the persisted plan has it; it ends
    early only by an error, and it never writes the plan. *)
Lemma generate_loop_spec dir analysis positions :
  forall plan acc (w : world),
    List.NoDup positions ->
    (forall i, In i positions -> is_Some (plan !! i)) ->
    exists n w' r,
      generate_loop SiteAnalysis generateSingleArticle dir analysis
        positions (plan, acc) w = (w', r)
      /\ n <= length positions
      /\ invocations _ w' = invocations _ w ++ briefs_at plan (take n positions)
      /\ article_plan _ w' = article_plan _ w
      /\ site_analysis _ w' = site_analysis _ w
      /\ (forall st, r = Ok st ->
            st.1 = flip_all positions plan /\ n = length positions).
Proof.
  induction positions as [|i rest IH]; intros plan acc w Hnd Hin.
  - exists 0, w, (Ok (plan, acc)). simpl. unfold ret.
    rewrite app_nil_r.
    split; [reflexivity|]. split; [lia|]. split; [reflexivity|].
    split; [reflexivity|]. split; [reflexivity|].
    intros st [= <-]. auto.
  - destruct (Hin i (or_introl eq_refl)) as [brief Hb].
    destruct (generate_one_spec dir analysis i plan acc w brief Hb)
      as (w1 & Hone & Hinv1 & Hplan1 & Han1).
    cbn [generate_loop]. unfold bind at 1. rewrite Hone.
    destruct (generateSingleArticle brief analysis) as [article|m].
    + inversion Hnd as [|? ? Hni Hnd']; subst.
      destruct (IH (alter set_generated i plan) (acc ++ [article]) w1 Hnd')
        as (n & w' & r & Hloop & Hn & Hinv & Hplan & Han & Hok).
      { intros j Hj. rewrite list_lookup_alter_ne.
        - apply Hin. right. exact Hj.
        - intros ->. contradiction. }
      exists (S n), w', r. split; [exact Hloop|].
      split; [simpl; lia|]. split.
      { rewrite Hinv, Hinv1, <- app_assoc. f_equal.
        rewrite briefs_at_alter.
        - unfold briefs_at. simpl. rewrite Hb. reflexivity.
        - intros Hi. apply Hni. apply list_elem_of_In.
          apply (subseteq_take n rest). exact Hi. }
      split; [congruence|]. split; [congruence|].
      intros st Hst. destruct (Hok st Hst) as [H1 H2].
      split; [exact H1 | simpl; lia].
    + exists 1, w1, (Throw m). split; [reflexivity|].
      split; [simpl; lia|]. split.
      { rewrite Hinv1. unfold briefs_at. simpl. rewrite Hb. reflexivity. }
      split; [exact Hplan1|]. split; [exact Han1|].
      intros st Hst. discriminate.
Qed.

(** A run that ends with an error leaves the persisted plan as it was. *)
Lemma generateArticles_error_keeps_plan outputDir count (w : world) m :
  (generateArticles SiteAnalysis generateSingleArticle outputDir count w).2
  = Throw m ->
  article_plan _
    (generateArticles SiteAnalysis generateSingleArticle outputDir count w).1
  = article_plan _ w.
Proof.
  unfold generateArticles, bind, readAnalysis, readPlan, throw.
  destruct (site_analysis _ w) as [analysis|]; [|reflexivity].
  destruct (article_plan _ w) as [plan|] eqn:Ep; [|simpl; auto].
  destruct (generate_loop_spec (Path.join [outputDir; "output"]) analysis
              (array_slice0 count (pending plan)) plan [] w)
    as (n & w' & r & Hloop & _ & _ & Hplan & _ & _).
  { destruct (array_slice0_take count (pending plan)) as (k & -> & _).
    apply NoDup_ListNoDup, sublist_NoDup with (pending plan);
      [apply NoDup_ListNoDup, pending_NoDup | apply sublist_take]. }
  { intros i Hi. destruct (array_slice0_take count (pending plan)) as (k & E & _).
    rewrite E in Hi. apply list_elem_of_In in Hi.
    apply (subseteq_take k (pending plan)), list_elem_of_In in Hi.
    apply pending_spec in Hi as (b & Hb & _). exists b. exact Hb. }
  rewrite Hloop. destruct r as [[plan' generated]|m']; simpl.
  - unfold writePlan, writeFile, ret. simpl. discriminate.
  - intros _. rewrite Hplan. exact Ep.
Qed.

Lemma sliced_positions count plan :
  List.NoDup (array_slice0 count (pending plan))
  /\ (forall i, In i (array_slice0 count (pending plan)) ->
        exists b, plan !! i = Some b /\ brief_status b <> generated)
  /\ length (array_slice0 count (pending plan))
     <= length plan - generated_count plan.
Proof.
  destruct (array_slice0_take count (pending plan)) as (k & -> & Hk).
  split; [|split].
  - apply NoDup_ListNoDup, sublist_NoDup with (pending plan);
      [apply NoDup_ListNoDup, pending_NoDup | apply sublist_take].
  - intros i Hi. apply list_elem_of_In in Hi.
    apply (subseteq_take k (pending plan)), list_elem_of_In in Hi.
    apply pending_spec. exact Hi.
  - rewrite length_take, <- pending_length. lia.
Qed.

(** C2 (amended).  One run of Generate on a persisted plan invokes the
    generator only for briefs of the plan that are not yet generated, and
    for at most [N - K] of them ([N] briefs, [K] of them generated).  For a
    configured count that is not negative it invokes it for at most
    [min(count, N - K)] briefs, and for none when the count is [NaN]. *)
Theorem generate_resume_bound
        (outputDir : string) (count : number) (w : world)
        (analysis : SiteAnalysis) (plan : list ArticleBrief) :
  site_analysis _ w = Some analysis ->
  article_plan _ w = Some plan ->
  exists invoked,
    invocations _
      (generateArticles SiteAnalysis generateSingleArticle outputDir count w).1
    = invocations _ w ++ invoked
    /\ Forall (fun b => In b plan /\ brief_status b <> generated) invoked
    /\ length invoked <= length plan - generated_count plan
    /\ (forall c, count = Int c -> (0 <= c)%Z ->
          (Z.of_nat (length invoked)
           <= Z.min c (Z.of_nat (length plan - generated_count plan)))%Z)
    /\ (count = NaN -> invoked = []).
Proof.
  intros Ha Hp.
  destruct (sliced_positions count plan) as (Hnd & Hpos & Hlen).
  destruct (generate_loop_spec (Path.join [outputDir; "output"]) analysis
              (array_slice0 count (pending plan)) plan [] w Hnd)
    as (n & w' & r & Hloop & Hn & Hinv & _ & _ & _).
  { intros i Hi. destruct (Hpos i Hi) as (b & Hb & _). exists b. exact Hb. }
  exists (briefs_at plan (take n (array_slice0 count (pending plan)))).
  assert (length (briefs_at plan (take n (array_slice0 count (pending plan))))
          <= length (array_slice0 count (pending plan))) as Hle.
  { etransitivity; [apply briefs_at_length|]. rewrite length_take. lia. }
  split; [|split; [|split; [|split]]].
  - unfold generateArticles, bind, readAnalysis, readPlan.
    rewrite Ha, Hp, Hloop.
    destruct r as [[plan' generated]|m]; simpl; exact Hinv.
  - apply Forall_forall. intros b Hb.
    apply list_elem_of_omap in Hb as (i & Hi & Hb).
    apply (subseteq_take n), list_elem_of_In in Hi.
    destruct (Hpos i Hi) as (b' & Hb' & Hs).
    rewrite Hb in Hb'. injection Hb' as <-.
    split; [|exact Hs].
    apply list_elem_of_In, list_elem_of_lookup. exists i. exact Hb.
  - lia.
  - intros c -> Hc. rewrite array_slice0_nonneg in Hle by exact Hc.
    rewrite pending_length in Hle. lia.
  - intros ->. rewrite array_slice0_NaN, take_nil. reflexivity.
Qed.

End Generation.

(** A run with count 2 on the plan of three planned briefs: the generator
    is invoked for the first two. *)
Lemma generate_resume_bound_example :
  (exists invoked,
     invocations _
       (generateArticles unit Examples.generator_ok "/out/example.com" (Int 2)
          Examples.world0).1 = invoked
     /\ invoked = take 2 Examples.plan3
     /\ (Z.of_nat (length invoked) <= Z.min 2 3)%Z)
  /\ invocations _
       (generateArticles unit Examples.generator_ok "/out/example.com" NaN
          Examples.world0).1 = [].
Proof.
  split.
  - destruct (generate_resume_bound unit Examples.generator_ok
                "/out/example.com" (Int 2) Examples.world0 tt Examples.plan3
                eq_refl eq_refl)
      as (invoked & Hinv & _ & _ & Hcap & _).
    exists invoked. split; [exact Hinv|].
    split; [vm_compute in Hinv; rewrite <- Hinv; reflexivity|].
    apply (Hcap 2%Z eq_refl). lia.
  - destruct (generate_resume_bound unit Examples.generator_ok
                "/out/example.com" NaN Examples.world0 tt Examples.plan3
                eq_refl eq_refl)
      as (invoked & Hinv & _ & _ & _ & Hnan).
    rewrite Hinv, (Hnan eq_refl). reflexivity.
Defined.

(** C2 as stated fails for a negative count: [slice(0, -1)] drops the last
    pending brief only, so with count -1 the generator is invoked for two
    of the three planned briefs, which is more than [min(-1, 3)]. *)
Lemma negative_count_exceeds_bound :
  invocations _
    (generateArticles unit Examples.generator_ok "/out/example.com" (Int (-1))
       Examples.world0).1 = take 2 Examples.plan3
  /\ ~ (Z.of_nat
          (length
             (invocations _
                (generateArticles unit Examples.generator_ok
                   "/out/example.com" (Int (-1)) Examples.world0).1))
        <= Z.min (-1)
             (Z.of_nat (length Examples.plan3
                        - generated_count Examples.plan3)))%Z.
Proof. split; [vm_compute; reflexivity | vm_compute; intros H; apply H; reflexivity]. Qed.

(** C1.  The plan is written once, after the loop.  On the plan of three
    planned briefs, a first run in which the generator answers for briefs 1
    and 2 and fails on brief 3 ends with that error and leaves the persisted
    plan as it was, all three briefs planned; a second run then invokes the
    generator for briefs 1, 2 and 3 again, not for brief 3 only. *)
Theorem crash_forgets_completed_briefs :
  let run1 :=
    generateArticles unit (Examples.generator_failing_on "b3")
      "/out/example.com" (Int 10) Examples.world0 in
  let run2 :=
    generateArticles unit Examples.generator_ok
      "/out/example.com" (Int 10) run1.1 in
  run1.2 = Throw "generation failed"
  /\ invocations _ run1.1 = Examples.plan3
  /\ article_plan _ run1.1 = Some Examples.plan3
  /\ invocations _ run2.1 = invocations _ run1.1 ++ Examples.plan3
  /\ article_plan _ run2.1 = Some (List.map set_generated Examples.plan3).
Proof. vm_compute. repeat split; reflexivity. Qed.

End GenerateFacts.

(* ===================================================================== *)
(** * More about trimming and replacing *)
(* ===================================================================== *)

Module NormalFormFacts.
Import JsString JsStringSpec JsStringFacts WhitespaceFacts DomFacts Fetcher
       Storage StorageSpec StorageFacts.

Lemma trimEnd_fixed s : last_is is_space s = false -> trimEnd s = s.
Proof.
  induction s as [|c r IH]; [reflexivity|].
  destruct r as [|d r'].
  - simpl. intros ->. reflexivity.
  - intros H. change (last_is is_space (String c (String d r')))
      with (last_is is_space (String d r')) in H.
    change (trimEnd (String c (String d r')))
      with (match trimEnd (String d r') with
            | EmptyString =>
                if is_space c then EmptyString else String c EmptyString
            | r0 => String c r0
            end).
    rewrite (IH H). reflexivity.
Qed.

Lemma trim_fixed s :
  head_is is_space s = false -> last_is is_space s = false -> trim s = s.
Proof.
  intros Hh Hl. unfold trim. rewrite (trimStart_no_space s Hh).
  apply trimEnd_fixed, Hl.
Qed.

Lemma trim_idempotent s : trim (trim s) = trim s.
Proof.
  apply trim_fixed.
  - unfold trim. apply head_is_trimEnd, trimStart_head.
  - unfold trim. apply trimEnd_last.
Qed.

Lemma trim_chars (P : ascii -> Prop) s : all_chars P s -> all_chars P (trim s).
Proof. intros H. unfold trim. apply trimEnd_chars, trimStart_chars, H. Qed.

(** Replacing runs changes nothing in a text in which the class occurs
    only as single copies of the replacing character. *)
Lemma replace_runs_from_fixed p h b s :
  all_chars (fun c => p c = true -> c = h) s ->
  adjacent p s = false ->
  (b = true -> head_is p s = false) ->
  replace_runs_from p (String h "") b s = s.
Proof.
  revert b. induction s as [|c r IH]; intros b Hall Hadj Hb; [reflexivity|].
  apply all_chars_cons in Hall as [Hc Hall].
  cbn [adjacent] in Hadj. apply orb_false_iff in Hadj as [H1 H2].
  cbn [replace_runs_from]. destruct (p c) eqn:E.
  - simpl in H1. destruct b.
    + specialize (Hb eq_refl). simpl in Hb. congruence.
    + rewrite (Hc eq_refl), append_cons. simpl. f_equal.
      apply IH; auto.
  - f_equal. apply IH; auto. discriminate.
Qed.

Lemma no_class_no_adjacent p s :
  all_chars (fun c => p c = false) s ->
  adjacent p s = false /\ head_is p s = false.
Proof.
  induction s as [|c r IH]; intros H; [split; reflexivity|].
  apply all_chars_cons in H as [Hc Hr]. destruct (IH Hr) as [Ha _].
  cbn [adjacent head_is]. rewrite Hc, Ha. split; reflexivity.
Qed.

Lemma replace_runs_absent p h s :
  all_chars (fun c => p c = false) s -> replace_runs p (String h "") s = s.
Proof.
  intros H. unfold replace_runs. apply replace_runs_from_fixed.
  - eapply all_chars_impl; [|exact H]. simpl. congruence.
  - apply no_class_no_adjacent, H.
  - discriminate.
Qed.

Lemma space_or_ink_space c : space_or_ink c -> is_space c = true -> c = " "%char.
Proof. intros [H| ->]; congruence. Qed.

(** X1.  Cleaning white space is idempotent: the text that
    [extractMainContent] returns is already clean, so cleaning it again
    returns it unchanged. *)
Theorem clean_whitespace_idempotent (content : string) (html : Dom.document) :
  clean_whitespace (clean_whitespace content) = clean_whitespace content
  /\ clean_whitespace (extractMainContent html) = extractMainContent html.
Proof.
  assert (forall t, clean_whitespace (clean_whitespace t) = clean_whitespace t)
    as H; [|split; [apply H | apply (H (raw_content html))]].
  intros t.
  destruct (clean_whitespace_normal t) as (Hc & Ha & Hh & Hl).
  rewrite (clean_whitespace_collapse (clean_whitespace t)).
  unfold replace_runs. rewrite replace_runs_from_fixed.
  - apply trim_fixed; assumption.
  - eapply all_chars_impl; [|exact Hc]. apply space_or_ink_space.
  - exact Ha.
  - discriminate.
Qed.

Lemma map_fixed f s :
  all_chars (fun c => f c = c) s -> JsString.map f s = s.
Proof.
  induction s as [|c r IH]; intros H; [reflexivity|].
  apply all_chars_cons in H as [Hc Hr]. simpl. rewrite Hc, (IH Hr). reflexivity.
Qed.

Lemma keep_chars_fixed keep s :
  all_chars (fun c => keep c = true) s -> keep_chars keep s = s.
Proof.
  induction s as [|c r IH]; intros H; [reflexivity|].
  apply all_chars_cons in H as [Hc Hr]. simpl. rewrite Hc, (IH Hr). reflexivity.
Qed.

Lemma slug_char_lower c : is_slug_char c = true -> to_lower_char c = c.
Proof. destruct c as [[] [] [] [] [] [] [] []]; vm_compute; congruence. Qed.

Lemma slug_char_kept c : is_slug_char c = true -> slug_keep c = true.
Proof. destruct c as [[] [] [] [] [] [] [] []]; vm_compute; congruence. Qed.

Lemma hyphen_is_hyphen c : is_hyphen c = true -> c = "-"%char.
Proof. destruct c as [[] [] [] [] [] [] [] []]; vm_compute; congruence. Qed.

Lemma hyphenated_no_adjacent text : adjacent is_hyphen (hyphenated text) = false.
Proof.
  unfold hyphenated, replace_runs.
  apply (replace_runs_from_adjacent is_hyphen "-"%char false _ eq_refl).
Qed.

(** X2.  [slugify] is idempotent: a slug is its own slug.  Slugifying also
    does not depend on the letter case of the text. *)
Theorem slugify_idempotent (text : string) :
  slugify (slugify text) = slugify text
  /\ slugify (toLowerCase text) = slugify text.
Proof.
  split.
  - rewrite (slugify_hyphenated text).
    pose proof (hyphenated_chars text) as Hc.
    pose proof (hyphenated_no_adjacent text) as Ha.
    set (t := hyphenated text) in *.
    assert (all_chars (fun c => is_space c = false) t) as Hs
        by (eapply all_chars_impl; [apply slug_char_not_space | exact Hc]).
    unfold slugify, toLowerCase.
    rewrite map_fixed
      by (eapply all_chars_impl; [apply slug_char_lower | exact Hc]).
    rewrite keep_chars_fixed
      by (eapply all_chars_impl; [apply slug_char_kept | exact Hc]).
    rewrite (replace_runs_absent is_space "-"%char t Hs).
    unfold replace_runs. rewrite replace_runs_from_fixed.
    + apply trim_no_space, Hs.
    + unfold all_chars. apply Forall_forall. intros c _. apply hyphen_is_hyphen.
    + exact Ha.
    + discriminate.
  - unfold slugify, toLowerCase. do 4 f_equal.
    induction text as [|c r IH]; [reflexivity|]. simpl. rewrite IH. f_equal.
    destruct c as [[] [] [] [] [] [] [] []]; reflexivity.
Qed.

End NormalFormFacts.

(* ===================================================================== *)
(** * fetchPage: pauses; extractMetadata: keywords; findBlogLinks *)
(* ===================================================================== *)

Module FetcherFacts.
Import JsString JsStringSpec JsStringFacts WhitespaceFacts DomFacts
       NormalFormFacts Dom Fetcher FetcherSpec SetSpec SetFacts LinksSpec
       IncludesFacts.

Ltac split_outcome http k :=
  let d := fresh "d" in
  let st := fresh "st" in
  let m := fresh "m" in
  destruct (http k) as [d|st m|m];
  [| destruct (client_error (AxiosError st m)) |].

(** X3.  Whatever the requests answer, [fetchPage] pauses for at most
    3000 ms in all, and the last thing it does is a request: it never
    pauses after the final attempt, after a success or after an answer it
    does not retry. *)
Theorem fetchPage_pauses (url : string) (http : nat -> outcome) :
  (0 <= total_sleep (fetchPage url http).1 <= 3000)%Z
  /\ exists before attempt,
       (fetchPage url http).1 = before ++ [Get attempt]
       /\ 1 <= attempt <= 3.
Proof.
  unfold fetchPage, MAX_RETRIES. cbn [fetchPage_loop].
  unfold MAX_RETRIES, RETRY_DELAY.
  split_outcome http 1; cbn [message_of];
    try (split; [simpl; lia | exists [], 1; split; [reflexivity | lia]]).
  all: split_outcome http 2; cbn [message_of];
    try (split; [simpl; lia
                | exists [Get 1; Sleep 1000], 2; split; [reflexivity | lia]]).
  all: split_outcome http 3; cbn [message_of];
    (split; [simpl; lia
            | exists [Get 1; Sleep 1000; Get 2; Sleep 2000], 3;
              split; [reflexivity | lia]]).
Qed.

Lemma split_char_no_sep sep s :
  Forall (all_chars (fun c => c <> sep)) (split_char sep s).
Proof.
  induction s as [|c r IH]; simpl.
  - constructor; [apply all_chars_nil | constructor].
  - destruct (Ascii.eqb c sep) eqn:E.
    + constructor; [apply all_chars_nil | exact IH].
    + apply Ascii.eqb_neq in E.
      destruct (split_char sep r) as [|piece pieces].
      * constructor; [|constructor].
        apply all_chars_cons; split; [exact E | apply all_chars_nil].
      * inversion IH; subst. constructor; [|assumption].
        apply all_chars_cons; split; assumption.
Qed.

(** X4.  Every keyword of [extractMetadata] is a non-empty text without
    white space at its ends and without a comma. *)
Theorem extractMetadata_keywords_clean (html : document) :
  Forall (fun k => k <> ""
                   /\ trim k = k
                   /\ all_chars (fun c => c <> ","%char) k)
         (keywords (extractMetadata html)).
Proof.
  unfold extractMetadata. cbn [keywords].
  set (keywordsStr := default "" _).
  pose proof (split_char_no_sep ","%char keywordsStr) as H.
  induction H as [|piece pieces Hp _ IH]; simpl; [constructor|].
  destruct (truthy (trim piece)) eqn:E; [|exact IH].
  constructor; [|exact IH].
  split; [intros E'; rewrite E' in E; discriminate|].
  split; [apply trim_idempotent | apply trim_chars, Hp].
Qed.

Lemma endsWith_spec s t : endsWith s t = true <-> ends_with s t.
Proof.
  unfold ends_with. induction s as [|c r IH].
  - cbn [endsWith]. rewrite orb_false_r, String.eqb_eq. split.
    + intros <-. exists "". reflexivity.
    + intros ([|d pre] & H); [exact H | discriminate].
  - change (endsWith (String c r) t)
      with (String.eqb (String c r) t || endsWith r t).
    rewrite orb_true_iff, String.eqb_eq, IH. split.
    + intros [<-|(pre & ->)].
      * exists "". reflexivity.
      * exists (String c pre). reflexivity.
    + intros ([|d pre] & H).
      * left. exact H.
      * right. rewrite append_cons in H. injection H as -> ->.
        exists pre. reflexivity.
Qed.

Lemma includes_contains s t : includes s t = true <-> contains s t.
Proof. apply includes_spec. Qed.

Lemma test_pattern_spec p path :
  test_pattern p path = true <->
  exists w,
    (w = word p \/ (optional_s p = true /\ w = word p +:+ "s"))
    /\ if anchored p
       then ends_with (canonicalize path) ("/" +:+ w)
            \/ ends_with (canonicalize path) ("/" +:+ w +:+ "/")
       else contains (canonicalize path) ("/" +:+ w +:+ "/").
Proof.
  unfold test_pattern. destruct (anchored p).
  - rewrite orb_true_iff, andb_true_iff, !orb_true_iff, !endsWith_spec. split.
    + intros [H|[Hs H]].
      * exists (word p). split; [left; reflexivity | exact H].
      * exists (word p +:+ "s"). split; [right; auto | exact H].
    + intros (w & [->|[Hs ->]] & H); [left; exact H | right; auto].
  - rewrite orb_true_iff, andb_true_iff, !includes_contains. split.
    + intros [H|[Hs H]].
      * exists (word p). split; [left; reflexivity | exact H].
      * exists (word p +:+ "s"). split; [right; auto | exact H].
    + intros (w & [->|[Hs ->]] & H); [left; exact H | right; auto].
Qed.

Ltac blog_like_case w Ew :=
  first
    [ left; exists w; split; [rewrite Ew; vm_compute; tauto | tauto]
    | right; exists w; split; [rewrite Ew; vm_compute; tauto | tauto] ].

Lemma blog_patterns_spec path :
  existsb (fun p => test_pattern p path) blogPatterns = true <-> blog_like path.
Proof.
  rewrite existsb_exists. split.
  - intros (p & Hp & H). apply test_pattern_spec in H as (w & Hw & H).
    unfold blog_like. simpl in Hp.
    repeat (destruct Hp as [<-|Hp];
            [ cbn [anchored word optional_s] in *;
              destruct Hw as [Ew|[Hs Ew]]; try discriminate Hs;
              blog_like_case w Ew
            |]).
    destruct Hp.
  - intros [(w & Hw & H)|(w & Hw & H)]; simpl in Hw.
    + assert (exists pa pi,
                 In pa blogPatterns /\ In pi blogPatterns
                 /\ anchored pa = true /\ anchored pi = false
                 /\ (w = word pa
                     \/ (optional_s pa = true /\ w = word pa +:+ "s"))
                 /\ (w = word pi
                     \/ (optional_s pi = true /\ w = word pi +:+ "s")))
        as (pa & pi & Hpa & Hpi & Ha & Hi & Hwa & Hwi).
      { repeat (destruct Hw as [<-|Hw];
                [ first
                    [ exists (mkPattern "blog" false true),
                        (mkPattern "blog" false false); simpl; tauto
                    | exists (mkPattern "news" false true),
                        (mkPattern "news" false false); simpl; tauto
                    | exists (mkPattern "article" true true),
                        (mkPattern "article" true false); simpl; tauto
                    | exists (mkPattern "post" true true),
                        (mkPattern "post" true false); simpl; tauto ]
                |]).
        destruct Hw. }
      destruct H as [H|[H|H]].
      * exists pa. split; [exact Hpa|]. apply test_pattern_spec.
        exists w. split; [exact Hwa|]. rewrite Ha. left. exact H.
      * exists pa. split; [exact Hpa|]. apply test_pattern_spec.
        exists w. split; [exact Hwa|]. rewrite Ha. right. exact H.
      * exists pi. split; [exact Hpi|]. apply test_pattern_spec.
        exists w. split; [exact Hwi|]. rewrite Hi. exact H.
    + assert (exists pa,
                 In pa blogPatterns /\ anchored pa = true
                 /\ (w = word pa
                     \/ (optional_s pa = true /\ w = word pa +:+ "s")))
        as (pa & Hpa & Ha & Hwa).
      { repeat (destruct Hw as [<-|Hw];
                [ first
                    [ exists (mkPattern "insight" true true); simpl; tauto
                    | exists (mkPattern "resource" true true); simpl; tauto ]
                |]).
        destruct Hw. }
      exists pa. split; [exact Hpa|]. apply test_pattern_spec.
      exists w. split; [exact Hwa|]. rewrite Ha. exact H.
Qed.

End FetcherFacts.

Module FindBlogLinksFacts.
Import JsString Dom Fetcher FetcherSpec FetcherFacts SetSpec SetFacts LinksSpec
       LinksFacts.

Section Links.

Variable new_URL : string -> option URL.
Variable new_URL_in : string -> URL -> option URL.

Abbreviation blog_link := (blog_link new_URL_in).
Abbreviation resolved_link := (resolved_link new_URL_in).

Lemma findBlogLinks_step_link base links element :
  findBlogLinks_step new_URL_in base links element
  = links ++ option_list (blog_link base element).
Proof.
  unfold findBlogLinks_step, FetcherSpec.blog_link.
  destruct (attr "href" element) as [h|]; [|symmetry; apply app_nil_r].
  destruct (truthy h); cbn [negb]; [|symmetry; apply app_nil_r].
  destruct (new_URL_in h base) as [u|]; [|symmetry; apply app_nil_r].
  destruct (String.eqb (hostname u) (hostname base)
            && existsb (fun p => test_pattern p (pathname u)) blogPatterns);
    [reflexivity | symmetry; apply app_nil_r].
Qed.

Lemma findBlogLinks_fold base elements :
  forall links,
    fold_left (findBlogLinks_step new_URL_in base) elements links
    = links ++ omap (blog_link base) elements.
Proof.
  induction elements as [|el elements IH]; intros links; simpl;
    [symmetry; apply app_nil_r|].
  rewrite IH, findBlogLinks_step_link, <- app_assoc. f_equal.
  destruct (blog_link base el); reflexivity.
Qed.

Lemma blog_link_Some base element l :
  blog_link base element = Some l <->
  exists h u,
    attr "href" element = Some h /\ h <> ""
    /\ new_URL_in h base = Some u
    /\ hostname u = hostname base
    /\ blog_like (pathname u)
    /\ href u = l.
Proof.
  unfold FetcherSpec.blog_link. split.
  - destruct (attr "href" element) as [h|] eqn:Ea; [|discriminate].
    destruct (truthy h) eqn:Eh; [|discriminate].
    destruct (new_URL_in h base) as [u|] eqn:Eu; [|discriminate].
    destruct (String.eqb (hostname u) (hostname base)) eqn:E1;
      [|discriminate].
    destruct (existsb (fun p => test_pattern p (pathname u)) blogPatterns)
      eqn:E2; [|discriminate].
    intros [= <-]. exists h, u.
    apply String.eqb_eq in E1. apply blog_patterns_spec in E2.
    repeat split; try assumption; try reflexivity.
    intros ->. discriminate.
  - intros (h & u & -> & Hh & -> & Hhost & Hblog & <-).
    destruct h; [congruence|]. cbn [truthy].
    rewrite Hhost, String.eqb_refl.
    apply blog_patterns_spec in Hblog. rewrite Hblog. reflexivity.
Qed.

Lemma blog_link_resolved base element l :
  blog_link base element = Some l -> resolved_link base element = Some l.
Proof.
  intros H. apply blog_link_Some in H as (h & u & Ha & Hh & Hu & Hhost & _ & Hl).
  apply resolved_link_Some. exists h, u. auto.
Qed.

Lemma in_omap_blog_link base elements l :
  In l (omap (blog_link base) elements) <->
  exists element, In element elements /\ blog_link base element = Some l.
Proof.
  rewrite <- list_elem_of_In, list_elem_of_omap.
  split; intros (el & H1 & H2); exists el; split;
    try assumption; apply list_elem_of_In; assumption.
Qed.

(** X5.  With a base URL that parses, [findBlogLinks] returns, without
    duplicates, exactly the resolved URLs of the anchors that stay on the
    host of the base and whose path looks like a blog section (a segment
    blog, news, article(s), post(s), insight(s) or resource(s), in any
    letter case). *)
Theorem findBlogLinks_blog_like
        (html : document) (baseUrl : string) (base : URL) :
  new_URL baseUrl = Some base ->
  exists links,
    findBlogLinks new_URL new_URL_in html baseUrl = Ok links
    /\ List.NoDup links
    /\ forall l,
         In l links <->
         exists element h u,
           In element (select anchors_with_href html)
           /\ attr "href" element = Some h /\ h <> ""
           /\ new_URL_in h base = Some u
           /\ hostname u = hostname base
           /\ blog_like (pathname u)
           /\ href u = l.
Proof.
  intros Hbase. unfold findBlogLinks. rewrite Hbase.
  eexists. split; [reflexivity|].
  rewrite findBlogLinks_fold, set_spread_first_seen. simpl.
  fold anchors_with_href.
  split; [apply first_seen_NoDup|].
  intros l. rewrite first_seen_In, in_omap_blog_link. split.
  - intros (el & Hel & Hl). apply blog_link_Some in Hl as (h & u & Hl).
    exists el, h, u. tauto.
  - intros (el & h & u & Hel & Hl). exists el. split; [exact Hel|].
    apply blog_link_Some. exists h, u. exact Hl.
Qed.

(** X6.  The blog links of a page are among its links: every URL that
    [findBlogLinks] returns is also returned by [extractLinks] for the same
    page and base; and both throw when the base URL does not parse. *)
Theorem findBlogLinks_among_links (html : document) (baseUrl : string) :
  (forall base,
     new_URL baseUrl = Some base ->
     exists blogLinks links,
       findBlogLinks new_URL new_URL_in html baseUrl = Ok blogLinks
       /\ extractLinks new_URL new_URL_in html baseUrl = Ok links
       /\ forall l, In l blogLinks -> In l links)
  /\ (new_URL baseUrl = None ->
      (exists m, findBlogLinks new_URL new_URL_in html baseUrl = Throw m)
      /\ exists m, extractLinks new_URL new_URL_in html baseUrl = Throw m).
Proof.
  split.
  - intros base Hbase. unfold findBlogLinks, extractLinks. rewrite Hbase.
    eexists. eexists. split; [reflexivity|]. split; [reflexivity|].
    rewrite findBlogLinks_fold, extractLinks_fold, !set_spread_first_seen.
    simpl. intros l. rewrite !first_seen_In, in_omap_blog_link, in_omap_link.
    intros (el & Hel & Hl). exists el. split; [exact Hel|].
    apply blog_link_resolved, Hl.
  - intros Hbase. unfold findBlogLinks, extractLinks. rewrite Hbase.
    split; eexists; reflexivity.
Qed.

End Links.

(** On [links_page] with the small URL parser: one blog link, which is one
    of the two links of the page. *)
Lemma findBlogLinks_links_page :
  exists links,
    findBlogLinks Examples.example_new_URL Examples.example_new_URL_in
      Examples.links_page "https://example.com/" = Ok links
    /\ List.NoDup links
    /\ links = [ "https://example.com/blog/first" ].
Proof.
  destruct (findBlogLinks_blog_like
              Examples.example_new_URL Examples.example_new_URL_in
              Examples.links_page "https://example.com/"
              (mkURL "https://example.com/" "example.com" "/") eq_refl)
    as (links & Hok & Hnd & _).
  exists links. split; [exact Hok|]. split; [exact Hnd|].
  vm_compute in Hok. congruence.
Defined.

Lemma findBlogLinks_among_links_page :
  (exists blogLinks links,
     findBlogLinks Examples.example_new_URL Examples.example_new_URL_in
       Examples.links_page "https://example.com/" = Ok blogLinks
     /\ extractLinks Examples.example_new_URL Examples.example_new_URL_in
          Examples.links_page "https://example.com/" = Ok links
     /\ forall l, In l blogLinks -> In l links)
  /\ exists m,
       findBlogLinks Examples.example_new_URL Examples.example_new_URL_in
         Examples.links_page "example.com" = Throw m.
Proof.
  pose proof (findBlogLinks_among_links
                Examples.example_new_URL Examples.example_new_URL_in
                Examples.links_page "https://example.com/") as [H _].
  pose proof (findBlogLinks_among_links
                Examples.example_new_URL Examples.example_new_URL_in
                Examples.links_page "example.com") as [_ H'].
  split.
  - exact (H (mkURL "https://example.com/" "example.com" "/") eq_refl).
  - exact (proj1 (H' eq_refl)).
Defined.

End FindBlogLinksFacts.

(* ===================================================================== *)
(** * path.join: segments *)
(* ===================================================================== *)

Module PathFacts.
Import JsString JsStringSpec JsStringFacts DomFacts Fetcher FetcherFacts
       Path PathSpec.

Lemma split_char_cons sep s : exists piece pieces, split_char sep s = piece :: pieces.
Proof.
  induction s as [|c r (piece & pieces & IH)]; cbn [split_char].
  - eauto.
  - destruct (Ascii.eqb c sep); [eauto|]. rewrite IH. eauto.
Qed.

Lemma split_char_app sep a b :
  split_char sep (a +:+ String sep b) = split_char sep a ++ split_char sep b.
Proof.
  induction a as [|c a IH].
  - change ("" +:+ String sep b) with (String sep b).
    cbn [split_char]. rewrite Ascii.eqb_refl. reflexivity.
  - rewrite append_cons. cbn [split_char]. rewrite IH.
    destruct (Ascii.eqb c sep); [reflexivity|].
    destruct (split_char_cons sep a) as (piece & pieces & ->). reflexivity.
Qed.

Lemma split_char_plain sep s :
  all_chars (fun c => c <> sep) s -> split_char sep s = [s].
Proof.
  induction s as [|c r IH]; intros H; [reflexivity|].
  apply all_chars_cons in H as [Hc H]. cbn [split_char].
  apply Ascii.eqb_neq in Hc. rewrite Hc, (IH H). reflexivity.
Qed.

Lemma plain_not_empty s : plain_segment s -> truthy s = true.
Proof. intros (H & _). destruct s; [congruence | reflexivity]. Qed.

Lemma plain_head s : plain_segment s -> startsWith "/" s = false.
Proof.
  intros (Hne & _ & _ & H). destruct s as [|c r]; [reflexivity|].
  apply all_chars_cons in H as [Hc _]. cbn [startsWith].
  replace (Ascii.eqb "/" c) with false; [reflexivity|].
  symmetry. apply Ascii.eqb_neq. congruence.
Qed.

Lemma normalize_segment_plain allow res s :
  plain_segment s -> normalize_segment allow res s = s :: res.
Proof.
  intros (H1 & H2 & H3 & _). unfold normalize_segment.
  apply String.eqb_neq in H1, H2, H3. rewrite H1, H2, H3. reflexivity.
Qed.

Lemma normalize_segment_skip allow res s :
  s = "" \/ s = "." -> normalize_segment allow res s = res.
Proof. intros [->| ->]; reflexivity. Qed.

Lemma fold_plain allow segs :
  Forall plain_segment segs ->
  forall res,
    fold_left (normalize_segment allow) segs res = rev segs ++ res.
Proof.
  induction 1 as [|s segs Hs _ IH]; intros res; [reflexivity|].
  cbn [fold_left rev]. rewrite (normalize_segment_plain _ _ _ Hs), IH.
  rewrite <- app_assoc. reflexivity.
Qed.

Lemma fold_dots segs :
  Forall (fun s => s = "..") segs ->
  forall res,
    Forall (fun s => s = "..") res ->
    fold_left (normalize_segment true) segs res = rev segs ++ res.
Proof.
  induction 1 as [|s segs -> _ IH]; intros res Hres; [reflexivity|].
  cbn [fold_left rev].
  assert (normalize_segment true res ".." = ".." :: res) as ->.
  { destruct Hres as [|r res -> _]; reflexivity. }
  rewrite IH by (constructor; [reflexivity | exact Hres]).
  rewrite <- app_assoc. reflexivity.
Qed.

(** Normalizing the kept segments again keeps them all. *)
Lemma fold_kept allow res :
  kept_shape allow res ->
  fold_left (normalize_segment allow) (rev res) [] = res.
Proof.
  intros (tops & dots & -> & Ht & Hd & Ha).
  rewrite rev_app_distr, fold_left_app.
  assert (fold_left (normalize_segment allow) (rev dots) [] = dots) as ->.
  { destruct allow.
    - rewrite fold_dots by (try apply Forall_rev; auto).
      rewrite rev_involutive. apply app_nil_r.
    - rewrite (Ha eq_refl). reflexivity. }
  rewrite fold_plain by (apply Forall_rev, Ht).
  rewrite rev_involutive. reflexivity.
Qed.

Lemma kept_shape_nil allow : kept_shape allow [].
Proof. exists [], []. repeat split; auto. Qed.

Lemma kept_shape_plain allow res s :
  kept_shape allow res -> plain_segment s -> kept_shape allow (s :: res).
Proof.
  intros (tops & dots & -> & Ht & Hd & Ha) Hs.
  exists (s :: tops), dots. repeat split; auto.
Qed.

Lemma kept_shape_step allow res s :
  kept_shape allow res ->
  all_chars (fun c => c <> "/"%char) s ->
  kept_shape allow (normalize_segment allow res s).
Proof.
  intros Hres Hs. unfold normalize_segment.
  destruct (String.eqb s "") eqn:E1; [exact Hres|].
  destruct (String.eqb s ".") eqn:E2; [exact Hres|]. cbn [orb].
  destruct (String.eqb s "..") eqn:E3.
  - destruct Hres as (tops & dots & -> & Ht & Hd & Ha).
    destruct tops as [|t tops].
    + cbn [app]. destruct dots as [|d dots].
      * destruct allow; [|apply kept_shape_nil].
        exists [], [".."]. repeat split; auto. discriminate.
      * inversion Hd as [|? ? -> Hd']; subst. cbn [String.eqb Ascii.eqb].
        change (String.eqb ".." "..") with true. cbn match.
        destruct allow.
        -- exists [], (".." :: ".." :: dots). repeat split; auto.
           discriminate.
        -- exists [], (".." :: dots). repeat split; auto.
    + inversion Ht as [|? ? Hp Ht']; subst. cbn [app].
      replace (String.eqb t "..") with false
        by (symmetry; apply String.eqb_neq, Hp).
      exists tops, dots. repeat split; auto.
  - apply kept_shape_plain; [exact Hres|].
    apply String.eqb_neq in E1, E2, E3. repeat split; auto.
Qed.

Lemma kept_shape_fold allow segs :
  Forall (all_chars (fun c => c <> "/"%char)) segs ->
  forall res,
    kept_shape allow res ->
    kept_shape allow (fold_left (normalize_segment allow) segs res).
Proof.
  induction 1 as [|s segs Hs _ IH]; intros res Hres; [exact Hres|].
  cbn [fold_left]. apply IH, kept_shape_step; assumption.
Qed.

Lemma kept_segments_shape path :
  exists res,
    kept_segments path = rev res
    /\ kept_shape (negb (isAbsolute path)) res.
Proof.
  eexists. split; [reflexivity|].
  apply kept_shape_fold; [apply split_char_no_sep | apply kept_shape_nil].
Qed.

Lemma kept_shape_segments allow res :
  kept_shape allow res ->
  Forall (fun s => truthy s = true /\ startsWith "/" s = false
                   /\ all_chars (fun c => c <> "/"%char) s) res.
Proof.
  intros (tops & dots & -> & Ht & Hd & _). apply Forall_app. split.
  - eapply Forall_impl; [exact Ht|]. intros s Hs.
    split; [apply plain_not_empty, Hs|].
    split; [apply plain_head, Hs | apply Hs].
  - eapply Forall_impl; [exact Hd|]. intros s ->.
    repeat split. unfold all_chars. cbn.
    repeat (constructor; [discriminate|]). constructor.
Qed.

Lemma join_with_cons sep s t rest :
  join_with sep (s :: t :: rest) = s +:+ sep +:+ join_with sep (t :: rest).
Proof. reflexivity. Qed.

Lemma split_join_with segs :
  segs <> [] ->
  Forall (all_chars (fun c => c <> "/"%char)) segs ->
  split_char SLASH (join_with "/" segs) = segs.
Proof.
  unfold SLASH.
  intros Hne H. induction H as [|s segs Hs H IH]; [congruence|].
  destruct segs as [|t segs].
  - apply split_char_plain, Hs.
  - rewrite join_with_cons.
    change (s +:+ "/" +:+ join_with "/" (t :: segs))
      with (s +:+ String "/" (join_with "/" (t :: segs))).
    rewrite split_char_app, (split_char_plain _ _ Hs), IH by discriminate.
    reflexivity.
Qed.

Lemma truthy_app s t : truthy (s +:+ t) = truthy s || truthy t.
Proof. destruct s; [reflexivity | reflexivity]. Qed.

Lemma startsWith_app_l t s u :
  truthy s = true -> startsWith (String t "") (s +:+ u) = startsWith (String t "") s.
Proof. destruct s as [|c s]; [discriminate|]. intros _. reflexivity. Qed.

Lemma join_with_truthy segs :
  segs <> [] ->
  Forall (fun s => truthy s = true) segs ->
  truthy (join_with "/" segs) = true.
Proof.
  intros Hne H. destruct H as [|s segs Hs H]; [congruence|].
  destruct segs; [exact Hs|].
  rewrite join_with_cons, truthy_app, Hs. reflexivity.
Qed.

Lemma join_with_head segs :
  Forall (fun s => truthy s = true /\ startsWith "/" s = false) segs ->
  startsWith "/" (join_with "/" segs) = false.
Proof.
  intros H. destruct H as [|s segs [Hs Hh] H]; [reflexivity|].
  destruct segs; [exact Hh|].
  rewrite join_with_cons, startsWith_app_l; assumption.
Qed.

Lemma endsWith_slash s :
  endsWith s "/" = last_is (fun c => Ascii.eqb c "/") s.
Proof.
  induction s as [|c r IH]; [reflexivity|].
  cbn [endsWith last_is]. rewrite IH.
  destruct r as [|d r].
  - cbn. destruct (Ascii.eqb c "/"); reflexivity.
  - cbn [String.eqb]. destruct (Ascii.eqb c "/"); reflexivity.
Qed.

Lemma last_is_app p s t :
  truthy t = true -> last_is p (s +:+ t) = last_is p t.
Proof.
  intros Ht. induction s as [|c s IH]; [reflexivity|].
  rewrite append_cons. cbn [last_is]. rewrite IH.
  destruct (s +:+ t) eqn:E; [|reflexivity].
  destruct s; [|discriminate]. change (t = "") in E. subst t. discriminate.
Qed.

Lemma last_is_noslash s :
  all_chars (fun c => c <> "/"%char) s ->
  last_is (fun c => Ascii.eqb c "/") s = false.
Proof.
  induction s as [|c r IH]; intros H; [reflexivity|].
  apply all_chars_cons in H as [Hc H]. cbn [last_is].
  destruct r; [apply Ascii.eqb_neq, Hc | apply IH, H].
Qed.

Lemma join_with_last segs :
  segs <> [] ->
  Forall (fun s => truthy s = true
                   /\ all_chars (fun c => c <> "/"%char) s) segs ->
  endsWith (join_with "/" segs) "/" = false.
Proof.
  rewrite endsWith_slash. intros Hne H.
  induction H as [|s segs [Hs Hc] H IH]; [congruence|].
  destruct segs as [|t segs]; [apply last_is_noslash, Hc|].
  rewrite join_with_cons, last_is_app.
  - change ("/" +:+ join_with "/" (t :: segs))
      with (String "/" "" +:+ join_with "/" (t :: segs)).
    rewrite last_is_app; [apply IH; discriminate|].
    apply join_with_truthy; [discriminate|].
    eapply Forall_impl; [exact H|]. intros x [Hx _]. exact Hx.
  - reflexivity.
Qed.

Lemma fold_skip allow s segs res :
  s = "" \/ s = "." ->
  fold_left (normalize_segment allow) (s :: segs) res
  = fold_left (normalize_segment allow) segs res.
Proof. intros H. cbn [fold_left]. rewrite normalize_segment_skip; auto. Qed.

(** A rendered list of kept segments reads back as itself. *)
Lemma kept_rendered absolute res :
  kept_shape (negb absolute) res -> res <> [] ->
  isAbsolute (rendered absolute (rev res)) = absolute
  /\ kept_segments (rendered absolute (rev res)) = rev res
  /\ truthy (rendered absolute (rev res)) = true
  /\ endsWith (rendered absolute (rev res)) "/" = false.
Proof.
  intros Hshape Hne.
  pose proof (kept_shape_segments _ _ Hshape) as Hall.
  apply Forall_rev in Hall.
  assert (rev res <> []) as Hne'.
  { intros E. apply Hne. rewrite <- (rev_involutive res), E. reflexivity. }
  assert (truthy (join_with "/" (rev res)) = true) as Htruthy.
  { apply join_with_truthy; [exact Hne'|].
    eapply Forall_impl; [exact Hall|]. intros s H. apply H. }
  assert (endsWith (join_with "/" (rev res)) "/" = false) as Hlast.
  { apply join_with_last; [exact Hne'|].
    eapply Forall_impl; [exact Hall|]. intros s H. split; apply H. }
  assert (split_char SLASH (join_with "/" (rev res)) = rev res) as Hsplit.
  { apply split_join_with; [exact Hne'|].
    eapply Forall_impl; [exact Hall|]. intros s H. apply H. }
  assert (isAbsolute (rendered absolute (rev res)) = absolute) as Habs.
  { unfold rendered, isAbsolute. destruct absolute; [reflexivity|].
    change ("" +:+ join_with "/" (rev res)) with (join_with "/" (rev res)).
    apply join_with_head.
    eapply Forall_impl; [exact Hall|]. intros s H. split; apply H. }
  split; [exact Habs|]. split; [|split].
  - unfold kept_segments. rewrite Habs. unfold rendered.
    destruct absolute.
    + change ("/" +:+ join_with "/" (rev res))
        with ("" +:+ String SLASH (join_with "/" (rev res))).
      rewrite split_char_app, Hsplit.
      change (split_char SLASH "" ++ rev res) with ("" :: rev res).
      rewrite fold_skip by (left; reflexivity).
      rewrite (fold_kept _ _ Hshape). reflexivity.
    + change ("" +:+ join_with "/" (rev res)) with (join_with "/" (rev res)).
      rewrite Hsplit, (fold_kept _ _ Hshape). reflexivity.
  - unfold rendered. rewrite truthy_app, Htruthy. apply orb_true_r.
  - unfold rendered. rewrite endsWith_slash, last_is_app by exact Htruthy.
    rewrite <- endsWith_slash. exact Hlast.
Qed.

Lemma normalize_rendered absolute res :
  kept_shape (negb absolute) res -> res <> [] ->
  normalize (rendered absolute (rev res)) = rendered absolute (rev res).
Proof.
  intros Hshape Hne.
  destruct (kept_rendered absolute res Hshape Hne) as (Ha & Hk & Ht & He).
  unfold normalize, normalizeString. rewrite Ht, He, Hk, Ha.
  replace (truthy (join_with "/" (rev res))) with true.
  - unfold rendered. rewrite append_empty. reflexivity.
  - symmetry. unfold rendered in Ht. rewrite truthy_app in Ht.
    destruct absolute; [|exact Ht].
    apply join_with_truthy.
    + intros E. apply Hne. rewrite <- (rev_involutive res), E. reflexivity.
    + apply Forall_rev. eapply Forall_impl;
        [apply (kept_shape_segments _ _ Hshape)|]. intros s H. apply H.
Qed.

Lemma isAbsolute_app a b :
  truthy a = true -> isAbsolute (a +:+ b) = isAbsolute a.
Proof. destruct a; [discriminate | reflexivity]. Qed.

(** The segments of [a/b]. *)
Lemma kept_segments_app a b :
  truthy a = true ->
  kept_segments (a +:+ String SLASH b)
  = rev (fold_left (normalize_segment (negb (isAbsolute a)))
           (split_char SLASH b)
           (fold_left (normalize_segment (negb (isAbsolute a)))
              (split_char SLASH a) [])).
Proof.
  intros Ha. unfold kept_segments.
  rewrite (isAbsolute_app a _ Ha), split_char_app, fold_left_app.
  reflexivity.
Qed.

Lemma kept_segments_fold a :
  fold_left (normalize_segment (negb (isAbsolute a))) (split_char SLASH a) []
  = rev (kept_segments a).
Proof. unfold kept_segments. rewrite rev_involutive. reflexivity. Qed.

Lemma plain_noslash s : plain_segment s -> all_chars (fun c => c <> "/"%char) s.
Proof. intros H. apply H. Qed.

Lemma kept_segments_empty : kept_segments "" = [] /\ isAbsolute "" = false.
Proof. split; reflexivity. Qed.

Lemma kept_segments_plain s :
  plain_segment s -> kept_segments s = [s] /\ isAbsolute s = false.
Proof.
  intros Hs. pose proof (plain_head s Hs) as Hh.
  split; [|exact Hh]. unfold kept_segments, isAbsolute. rewrite Hh.
  unfold SLASH. rewrite (split_char_plain _ _ (plain_noslash s Hs)).
  cbn [fold_left]. rewrite (normalize_segment_plain _ _ _ Hs). reflexivity.
Qed.

(** Joining a directory and a plain segment: the segments that the
    directory keeps, then the segment. *)
Lemma join_segment a b :
  plain_segment b -> Path.join [a; b] = under a [b].
Proof.
  intros Hb. pose proof (plain_not_empty b Hb) as Htb.
  unfold Path.join, under. cbn [List.filter]. rewrite Htb.
  destruct (kept_segments_shape a) as (res & Hres & Hshape).
  pose proof (kept_shape_plain _ _ _ Hshape Hb) as Hshape'.
  assert (kept_segments a ++ [b] = rev (b :: res)) as Hrev
      by (rewrite Hres; reflexivity).
  destruct (truthy a) eqn:Ha.
  - cbn [join_with].
    change (a +:+ "/" +:+ b) with (a +:+ String SLASH b).
    destruct (kept_rendered (isAbsolute a) (b :: res) Hshape')
      as (_ & _ & Ht & _); [discriminate|].
    assert (kept_segments (a +:+ String SLASH b) = kept_segments a ++ [b])
      as Hk.
    { rewrite (kept_segments_app a b Ha), kept_segments_fold.
      unfold SLASH.
      rewrite (split_char_plain _ _ (plain_noslash b Hb)).
      cbn [fold_left]. rewrite (normalize_segment_plain _ _ _ Hb).
      cbn [rev]. rewrite rev_involutive. reflexivity. }
    unfold normalize, normalizeString.
    rewrite truthy_app, Ha. cbn [orb].
    rewrite Hk, (isAbsolute_app a _ Ha).
    replace (endsWith (a +:+ String SLASH b) "/") with false.
    + replace (truthy (join_with "/" (kept_segments a ++ [b]))) with true.
      * unfold rendered. rewrite append_empty. reflexivity.
      * symmetry. rewrite Hrev. apply join_with_truthy.
        -- rewrite <- Hrev. destruct (kept_segments a); discriminate.
        -- apply Forall_rev. eapply Forall_impl;
             [apply (kept_shape_segments _ _ Hshape')|]. intros s H. apply H.
    + symmetry. rewrite endsWith_slash.
      change (a +:+ String SLASH b) with (a +:+ (String SLASH "" +:+ b)).
      rewrite last_is_app, last_is_app by (rewrite ?truthy_app, ?Htb; auto).
      apply last_is_noslash, Hb.
  - destruct a; [|discriminate]. cbn [join_with].
    destruct kept_segments_empty as [-> ->].
    destruct (kept_segments_plain b Hb) as [Hk Hab].
    unfold normalize, normalizeString. rewrite Htb, Hk, Hab.
    cbn [join_with app]. rewrite Htb.
    replace (endsWith b "/") with false.
    + unfold rendered. rewrite append_empty. reflexivity.
    + symmetry. rewrite endsWith_slash. apply last_is_noslash, Hb.
Qed.

Lemma kept_segments_trailing x :
  truthy x = true ->
  kept_segments (x +:+ "/") = kept_segments x
  /\ isAbsolute (x +:+ "/") = isAbsolute x.
Proof.
  intros Hx. split; [|apply isAbsolute_app, Hx].
  change (x +:+ "/") with (x +:+ String SLASH "").
  rewrite (kept_segments_app x "" Hx), kept_segments_fold.
  cbn [split_char fold_left]. rewrite normalize_segment_skip by auto.
  apply rev_involutive.
Qed.

(** Normalizing keeps the segments and the root. *)
Lemma normalize_kept path :
  kept_segments (normalize path) = kept_segments path
  /\ isAbsolute (normalize path) = isAbsolute path.
Proof.
  destruct (kept_segments_shape path) as (res & Hres & Hshape).
  unfold normalize, normalizeString.
  destruct (truthy path) eqn:Hp.
  2:{ destruct path; [|discriminate]. split; reflexivity. }
  destruct res as [|s res].
  - cbn [rev] in Hres. rewrite Hres. cbn [join_with truthy].
    destruct (isAbsolute path); [split; reflexivity|].
    destruct (endsWith path "/"); split; reflexivity.
  - destruct (kept_rendered (isAbsolute path) (s :: res) Hshape)
      as (Ha & Hk & Ht & He); [discriminate|].
    rewrite <- Hres in Ha, Hk, Ht, He.
    replace (truthy (join_with "/" (kept_segments path))) with true.
    + fold (rendered (isAbsolute path) (kept_segments path)).
      rewrite <- append_assoc.
      fold (rendered (isAbsolute path) (kept_segments path)).
      destruct (endsWith path "/").
      * destruct (kept_segments_trailing _ Ht) as [-> ->]. auto.
      * rewrite append_empty. auto.
    + symmetry. rewrite Hres. apply join_with_truthy.
      * rewrite <- Hres. intros E. rewrite E in Hres.
        symmetry in Hres. apply (f_equal (@length _)) in Hres.
        rewrite length_rev in Hres. discriminate.
      * apply Forall_rev. eapply Forall_impl;
          [apply (kept_shape_segments _ _ Hshape)|]. intros x H. apply H.
Qed.

Lemma kept_shape_plains allow res segs :
  kept_shape allow res -> Forall plain_segment segs ->
  kept_shape allow (rev segs ++ res).
Proof.
  intros (tops & dots & -> & Ht & Hd & Ha) Hs.
  exists (rev segs ++ tops), dots. rewrite app_assoc.
  repeat split; auto. apply Forall_app. split; [apply Forall_rev, Hs | exact Ht].
Qed.

(** A path under a directory keeps the segments of the directory and
    those it was made of. *)
Lemma kept_under dir segs :
  Forall plain_segment segs -> segs <> [] ->
  isAbsolute (under dir segs) = isAbsolute dir
  /\ kept_segments (under dir segs) = kept_segments dir ++ segs
  /\ normalize (under dir segs) = under dir segs.
Proof.
  intros Hs Hne.
  destruct (kept_segments_shape dir) as (res & Hres & Hshape).
  pose proof (kept_shape_plains _ _ _ Hshape Hs) as Hshape'.
  assert (kept_segments dir ++ segs = rev (rev segs ++ res)) as Hrev
      by (rewrite rev_app_distr, rev_involutive, Hres; reflexivity).
  assert (rev segs ++ res <> []) as Hne'.
  { intros E. apply app_eq_nil in E as [E _]. apply Hne.
    rewrite <- (rev_involutive segs), E. reflexivity. }
  unfold under. rewrite Hrev.
  destruct (kept_rendered _ _ Hshape' Hne') as (Ha & Hk & _).
  split; [exact Ha|]. split; [exact Hk|].
  apply normalize_rendered; assumption.
Qed.

Lemma under_under dir segs more :
  Forall plain_segment segs -> segs <> [] ->
  under (under dir segs) more = under dir (segs ++ more).
Proof.
  intros Hs Hne. destruct (kept_under dir segs Hs Hne) as (Ha & Hk & _).
  unfold under at 1. rewrite Ha, Hk, <- app_assoc. reflexivity.
Qed.

(** [path.join] with a segment that may be empty, as a slug may be. *)
Lemma join_under dir segs b :
  Forall plain_segment segs -> segs <> [] ->
  (plain_segment b -> Path.join [under dir segs; b] = under dir (segs ++ [b]))
  /\ Path.join [under dir segs; ""] = under dir segs.
Proof.
  intros Hs Hne. split.
  - intros Hb. rewrite (join_segment _ b Hb). apply under_under; assumption.
  - destruct (kept_under dir segs Hs Hne) as (_ & _ & Hn).
    unfold Path.join. cbn [List.filter truthy].
    destruct (truthy (under dir segs)) eqn:Ht.
    + cbn [join_with]. exact Hn.
    + destruct (under dir segs); [|discriminate]. discriminate Hn.
Qed.

Lemma join_normalized a b :
  plain_segment b -> Path.join [normalize a; b] = under a [b].
Proof.
  intros Hb. rewrite (join_segment _ b Hb). unfold under.
  destruct (normalize_kept a) as [-> ->]. reflexivity.
Qed.

Lemma join_empty a : Path.join [a; ""] = normalize a.
Proof.
  unfold Path.join. cbn [List.filter truthy].
  destruct (truthy a) eqn:Ha; [reflexivity|].
  destruct a; [reflexivity | discriminate].
Qed.

End PathFacts.

(* ===================================================================== *)
(** * slugify: the directory of an article *)
(* ===================================================================== *)

Module SlugFacts.
Import JsString JsStringSpec JsStringFacts DomFacts Storage StorageSpec
       StorageFacts PathSpec PathFacts SlugSpec.

Lemma keep_chars_app q s t :
  keep_chars q (s +:+ t) = keep_chars q s +:+ keep_chars q t.
Proof.
  induction s as [|c s IH]; [reflexivity|].
  rewrite append_cons. cbn [keep_chars]. rewrite IH.
  destruct (q c); reflexivity.
Qed.

Lemma keep_chars_replace_runs q p h b s :
  (forall c, p c = true -> q c = false) -> q h = false ->
  keep_chars q (replace_runs_from p (String h "") b s) = keep_chars q s.
Proof.
  intros Hp Hh. revert b.
  induction s as [|c s IH]; intros b; [reflexivity|].
  cbn [replace_runs_from keep_chars]. destruct (p c) eqn:E.
  - rewrite (Hp c E). destruct b; [apply IH|].
    rewrite keep_chars_app. cbn [keep_chars]. rewrite Hh. apply IH.
  - cbn [keep_chars]. rewrite IH. reflexivity.
Qed.

Lemma keep_chars_keep q k s :
  (forall c, q c = true -> k c = true) ->
  keep_chars q (keep_chars k s) = keep_chars q s.
Proof.
  intros H. induction s as [|c s IH]; [reflexivity|].
  cbn [keep_chars]. destruct (k c) eqn:E; cbn [keep_chars].
  - rewrite IH. reflexivity.
  - destruct (q c) eqn:Eq; [|exact IH].
    rewrite (H c Eq) in E. discriminate.
Qed.

Lemma word_not_space c : is_space c = true -> is_word c = false.
Proof. destruct c as [[] [] [] [] [] [] [] []]; vm_compute; congruence. Qed.

Lemma word_not_hyphen c : is_hyphen c = true -> is_word c = false.
Proof. destruct c as [[] [] [] [] [] [] [] []]; vm_compute; congruence. Qed.

Lemma word_kept c : is_word c = true -> slug_keep c = true.
Proof. unfold slug_keep. intros ->. reflexivity. Qed.

(** The letters, digits and underscores of a slug are those of the text. *)
Lemma slugify_word_chars text :
  keep_chars is_word (slugify text) = keep_chars is_word (toLowerCase text).
Proof.
  rewrite slugify_hyphenated. unfold hyphenated, replace_runs.
  rewrite keep_chars_replace_runs;
    [|apply word_not_hyphen | reflexivity].
  rewrite keep_chars_replace_runs;
    [|apply word_not_space | reflexivity].
  apply keep_chars_keep, word_kept.
Qed.

Lemma replace_runs_empty p h s :
  replace_runs p (String h "") s = "" <-> s = "".
Proof.
  split; [|intros ->; reflexivity].
  unfold replace_runs. destruct s as [|c s]; [reflexivity|].
  cbn [replace_runs_from]. destruct (p c); discriminate.
Qed.

Lemma keep_chars_empty k s :
  keep_chars k s = "" <-> all_chars (fun c => k c = false) s.
Proof.
  induction s as [|c s IH]; cbn [keep_chars].
  - split; [intros _; apply all_chars_nil | reflexivity].
  - rewrite all_chars_cons. destruct (k c).
    + split; [discriminate | intros [H _]; discriminate].
    + rewrite IH. tauto.
Qed.

Lemma all_chars_map (P : ascii -> Prop) f s :
  all_chars P (JsString.map f s) <-> all_chars (fun c => P (f c)) s.
Proof.
  induction s as [|c s IH]; cbn [JsString.map].
  - split; intros _; apply all_chars_nil.
  - rewrite !all_chars_cons, IH. tauto.
Qed.

Lemma slug_keep_lower c : slug_keep (to_lower_char c) = slug_keep c.
Proof. destruct c as [[] [] [] [] [] [] [] []]; reflexivity. Qed.

(** The slug is empty exactly for a text without letter, digit,
    underscore, white space and hyphen. *)
Lemma slugify_empty text :
  slugify text = "" <-> all_chars (fun c => slug_keep c = false) text.
Proof.
  rewrite slugify_hyphenated. unfold hyphenated.
  rewrite !replace_runs_empty, keep_chars_empty.
  unfold toLowerCase. rewrite all_chars_map.
  split; apply all_chars_impl; intros c; rewrite slug_keep_lower; auto.
Qed.

Lemma all_chars_in (P : ascii -> Prop) s c pre post :
  all_chars P s -> s = pre +:+ String c post -> P c.
Proof.
  intros H ->. revert H. induction pre as [|d pre IH].
  - intros H. apply all_chars_cons in H. apply H.
  - rewrite append_cons. intros H. apply all_chars_cons in H. apply IH, H.
Qed.

(** A slug that is not empty is a plain segment. *)
Lemma slugify_plain text :
  slugify text <> "" -> plain_segment (slugify text).
Proof.
  intros Hne.
  pose proof (hyphenated_chars text) as H.
  rewrite <- slugify_hyphenated in H.
  assert (all_chars (fun c => c <> "/"%char /\ c <> "\"%char
                              /\ c <> "."%char) (slugify text)) as Hsafe
      by (eapply all_chars_impl; [apply slug_char_path_safe | exact H]).
  split; [exact Hne|]. split; [|split].
  - intros E. apply (all_chars_in _ _ "."%char "" "" Hsafe) in E.
    destruct E as (_ & _ & E). congruence.
  - intros E. apply (all_chars_in _ _ "."%char "" "." Hsafe) in E.
    destruct E as (_ & _ & E). congruence.
  - eapply all_chars_impl; [|exact Hsafe]. intros c Hc. apply Hc.
Qed.

Lemma slug_segments_plain title : Forall plain_segment (slug_segments title).
Proof.
  unfold slug_segments. destruct (truthy (slugify title)) eqn:E;
    constructor; [|constructor].
  apply slugify_plain. intros E'. rewrite E' in E. discriminate.
Qed.

(** The directory of an article, and a file in it. *)
Lemma article_dir dir title :
  Path.join [dir; slugify title]
  = if truthy (slugify title) then under dir [slugify title]
    else Path.normalize dir.
Proof.
  destruct (truthy (slugify title)) eqn:E.
  - apply join_segment, slugify_plain. intros E'. rewrite E' in E.
    discriminate.
  - destruct (slugify title); [apply join_empty | discriminate].
Qed.

Lemma article_path dir title name :
  plain_segment name ->
  Path.join [Path.join [dir; slugify title]; name]
  = under dir (slug_segments title ++ [name]).
Proof.
  intros Hn. rewrite article_dir. unfold slug_segments.
  destruct (truthy (slugify title)) eqn:E.
  - apply (join_under dir [slugify title] name); [|discriminate|exact Hn].
    constructor; [|constructor].
    apply slugify_plain. intros E'. rewrite E' in E. discriminate.
  - apply join_normalized, Hn.
Qed.

Ltac plain_literal :=
  repeat split; try discriminate;
  unfold all_chars; cbn; repeat (constructor; [discriminate|]); constructor.




End SlugFacts.

(* ===================================================================== *)
(** * Discover: topics, excerpt, inventory *)
(* ===================================================================== *)

Module DiscoverMoreFacts.
Import JsString JsStringSpec JsStringFacts WhitespaceFacts DomFacts
       NormalFormFacts Dom Fetcher FetcherSpec FetcherFacts SetSpec SetFacts
       Discover DiscoverSpec DiscoverFacts DiscoverMoreSpec PathSpec.

Lemma topicPatterns_NoDup : List.NoDup topicPatterns.
Proof.
  apply NoDup_ListNoDup. apply (bool_decide_unpack _). vm_compute. reflexivity.
Qed.

Lemma topics_fold content keywords patterns :
  forall added,
    List.NoDup patterns ->
    (forall t, In t patterns -> ~ In t added) ->
    fold_left
      (fun topics pattern =>
         if includes (toLowerCase content) pattern
            && negb (array_includes topics pattern)
         then topics ++ [pattern] else topics)
      patterns (keywords ++ added)
    = keywords ++ added
      ++ List.filter
           (fun t => includes (toLowerCase content) t
                     && negb (array_includes keywords t))
           patterns.
Proof.
  induction patterns as [|t patterns IH]; intros added Hnd Hfresh.
  - simpl. rewrite app_nil_r. reflexivity.
  - inversion Hnd as [|? ? Hnot Hnd']; subst.
    cbn [fold_left List.filter].
    rewrite array_includes_app.
    assert (array_includes added t = false) as Ea.
    { destruct (array_includes added t) eqn:E; [|reflexivity].
      apply array_includes_In in E. exfalso.
      apply (Hfresh t); [left; reflexivity | exact E]. }
    rewrite Ea, orb_false_r.
    destruct (includes (toLowerCase content) t
              && negb (array_includes keywords t)).
    + rewrite <- app_assoc, (IH (added ++ [t]) Hnd').
      * rewrite <- app_assoc. reflexivity.
      * intros q Hq Hin. apply in_app_iff in Hin as [Hin|[<-|[]]].
        -- apply (Hfresh q); [right; exact Hq | exact Hin].
        -- contradiction.
    + apply IH; [exact Hnd'|].
      intros q Hq. apply Hfresh. right. exact Hq.
Qed.

(** X7.  [extractTopicsFromContent] returns at most 5 topics: the
    keywords first, then the words of the fixed vocabulary that occur in
    the content (in any letter case) and are not keywords already, in the
    order of the vocabulary.  With 5 or more keywords the content adds
    nothing. *)
Theorem extractTopicsFromContent_spec (content : string) (keywords : list string) :
  extractTopicsFromContent content keywords
  = take 5 (keywords ++ content_topics content keywords)
  /\ length (extractTopicsFromContent content keywords) <= 5
  /\ Forall (fun t => In t topicPatterns
                      /\ includes (toLowerCase content) t = true
                      /\ ~ In t keywords)
            (content_topics content keywords)
  /\ (5 <= length keywords ->
      extractTopicsFromContent content keywords = take 5 keywords).
Proof.
  assert (extractTopicsFromContent content keywords
          = take 5 (keywords ++ content_topics content keywords)) as E.
  { unfold extractTopicsFromContent, content_topics. f_equal.
    pose proof (topics_fold content keywords topicPatterns []
                  topicPatterns_NoDup) as Hf.
    rewrite app_nil_r in Hf. apply Hf. intros t _ []. }
  split; [exact E|]. rewrite E.
  split; [rewrite length_take; lia|]. split.
  - unfold content_topics. apply Forall_forall. intros t Ht.
    apply list_elem_of_In, filter_In in Ht as [Ht Hc].
    apply andb_true_iff in Hc as [Hc Hk]. split; [exact Ht|].
    split; [exact Hc|]. intros Hin.
    apply array_includes_In in Hin. rewrite Hin in Hk. discriminate.
  - intros H. apply take_app_le. exact H.
Qed.

Lemma length_append s t :
  String.length (s +:+ t) = String.length s + String.length t.
Proof.
  induction s as [|c s IH]; [reflexivity|].
  rewrite append_cons. simpl. rewrite IH. reflexivity.
Qed.

Lemma trimStart_length s : String.length (trimStart s) <= String.length s.
Proof.
  induction s as [|c s IH]; simpl; [lia|].
  destruct (is_space c); simpl; lia.
Qed.

Lemma trimEnd_length s : String.length (trimEnd s) <= String.length s.
Proof.
  induction s as [|c s IH]; simpl; [lia|].
  destruct (trimEnd s); [destruct (is_space c)|]; simpl in *; lia.
Qed.

Lemma trim_length s : String.length (trim s) <= String.length s.
Proof.
  unfold trim. etransitivity; [apply trimEnd_length | apply trimStart_length].
Qed.

Lemma replace_runs_from_length p h b s :
  String.length (replace_runs_from p (String h "") b s) <= String.length s.
Proof.
  revert b. induction s as [|c s IH]; intros b; [simpl; lia|].
  cbn [replace_runs_from String.length]. destruct (p c).
  - destruct b; [specialize (IH true); lia|].
    rewrite append_cons.
    change (String h (EmptyString +:+ ?t)) with (String h t).
    cbn [String.length]. specialize (IH true). lia.
  - cbn [String.length]. specialize (IH false). lia.
Qed.

Section Discovery.

Variable new_URL : string -> option URL.
Variable new_URL_in : string -> URL -> option URL.
Variable fetchPage : string -> result document.

Abbreviation accepted := (accepted fetchPage).

Lemma fetchArticle_excerpt url article :
  fetchArticle fetchPage url = Ok (Some article) ->
  exists html,
    fetchPage url = Ok html
    /\ excerpt article
       = if truthy (description (extractMetadata html))
         then description (extractMetadata html)
         else trim (replace_runs is_space " "
                      (slice0 200 (extractMainContent html))) +:+ "...".
Proof.
  unfold fetchArticle. destruct (fetchPage url) as [html|m]; [|discriminate].
  destruct (negb (truthy (title (extractMetadata html)))
            || (String.length (extractMainContent html) <? 100)%nat);
    [discriminate|].
  intros [= <-]. exists html. split; reflexivity.
Qed.

Lemma slice0_chars (P : ascii -> Prop) n :
  forall s, all_chars P s -> all_chars P (slice0 n s).
Proof.
  induction n as [|n IH]; intros s H; [apply all_chars_nil|].
  destruct s as [|c s]; [apply all_chars_nil|].
  apply all_chars_cons in H as [Hc H]. cbn [slice0].
  apply all_chars_cons. split; [exact Hc | apply IH, H].
Qed.

Lemma slice0_head p n s :
  head_is p s = false -> head_is p (slice0 n s) = false.
Proof. destruct n, s; auto. Qed.

Lemma slice0_adjacent p n :
  forall s, adjacent p s = false -> adjacent p (slice0 n s) = false.
Proof.
  induction n as [|n IH]; intros s H; [reflexivity|].
  destruct s as [|c s]; [reflexivity|].
  cbn [adjacent] in H. apply orb_false_iff in H as [H1 H2].
  cbn [slice0 adjacent]. rewrite (IH s H2), orb_false_r.
  apply andb_false_iff in H1 as [H1|H1]; [rewrite H1; reflexivity|].
  rewrite (slice0_head p n s H1). apply andb_false_r.
Qed.

(** The start of a cleaned text has no white space to collapse. *)
Lemma excerpt_collapse html :
  replace_runs is_space " " (slice0 200 (extractMainContent html))
  = slice0 200 (extractMainContent html).
Proof.
  destruct (clean_whitespace_normal (raw_content html))
    as (Hchars & Hadj & _).
  change (clean_whitespace (raw_content html))
    with (extractMainContent html) in Hchars, Hadj.
  unfold replace_runs. apply replace_runs_from_fixed.
  - apply slice0_chars. eapply all_chars_impl; [|exact Hchars].
    intros c Hc. apply space_or_ink_space, Hc.
  - apply slice0_adjacent, Hadj.
  - discriminate.
Qed.

(** X8.  The excerpt of an accepted article is never empty: it is the
    meta description of the page when there is one; otherwise it is the
    first 200 characters of the extracted content, trimmed and followed
    by three dots, which are at most 203 characters. *)
Theorem fetchArticle_excerpt_bounds (url : string) (article : ExistingArticle) :
  fetchArticle fetchPage url = Ok (Some article) ->
  exists html,
    fetchPage url = Ok html
    /\ excerpt article <> ""
    /\ (description (extractMetadata html) <> "" ->
        excerpt article = description (extractMetadata html))
    /\ (description (extractMetadata html) = "" ->
        excerpt article = trim (slice0 200 (extractMainContent html)) +:+ "..."
        /\ String.length (excerpt article) <= 203
        /\ ends_with (excerpt article) "...").
Proof.
  intros H. apply fetchArticle_excerpt in H as (html & Hf & He).
  exists html. split; [exact Hf|]. rewrite He, excerpt_collapse.
  pose proof (trim_length (slice0 200 (extractMainContent html))) as H1.
  pose proof (slice0_length 200 (extractMainContent html)) as H3.
  set (body := trim (slice0 200 (extractMainContent html))) in *.
  assert (String.length (body +:+ "...") = String.length body + 3) as Hlen
      by (rewrite length_append; reflexivity).
  destruct (description (extractMetadata html)) as [|c d] eqn:Ed;
    cbn [truthy].
  - split; [|split; [congruence|]].
    + intros E. rewrite E in Hlen. simpl in Hlen. lia.
    + intros _. split; [reflexivity|].
      split; [lia | exists body; reflexivity].
  - split; [discriminate|]. split; [reflexivity | discriminate].
Qed.

Lemma collect_urls articleUrls :
  forall articles,
    List.map url (fold_left (collect_step fetchPage) articleUrls articles)
    = List.map url articles ++ List.filter accepted articleUrls.
Proof.
  induction articleUrls as [|u urls IH]; intros articles; simpl;
    [symmetry; apply app_nil_r|].
  rewrite IH. unfold collect_step, DiscoverMoreSpec.accepted.
  destruct (fetchArticle fetchPage u) as [[a|]|m] eqn:E; try reflexivity.
  apply fetchArticle_accepts in E as (html & _ & _ & Hu & _).
  rewrite List.map_app, <- app_assoc. simpl. rewrite Hu. reflexivity.
Qed.

Lemma extractArticleLinks_NoDup html baseUrl articleUrls :
  extractArticleLinks new_URL new_URL_in html baseUrl = Ok articleUrls ->
  List.NoDup articleUrls.
Proof.
  unfold extractArticleLinks. destruct (new_URL baseUrl); [|discriminate].
  intros [= <-]. rewrite set_spread_first_seen. apply first_seen_NoDup.
Qed.

(** Where the articles of the inventory come from. *)
Lemma discoverArticles_origin url outputDir r inv :
  discoverArticles new_URL new_URL_in fetchPage url outputDir = Ok (r, inv) ->
  result_articles r = articles inv
  /\ articleCount inv = length (articles inv)
  /\ ((articles inv = [] /\ blogUrl inv = None)
      \/ exists listing listingHtml articleUrls,
           blogUrl inv = Some listing
           /\ fetchPage listing = Ok listingHtml
           /\ extractArticleLinks new_URL new_URL_in listingHtml listing
              = Ok articleUrls
           /\ articles inv = collect_articles fetchPage articleUrls).
Proof.
  unfold discoverArticles.
  destruct (getSiteOutputDir new_URL outputDir url); [|discriminate].
  destruct (fetchPage url) as [mainHtml|]; [|discriminate].
  destruct (findBlogLinks new_URL new_URL_in mainHtml url) as [found|];
    [|discriminate].
  match goal with
  | |- match ?probed with _ => _ end = _ -> _ =>
      destruct probed as [blogLinks|]; [|discriminate]
  end.
  destruct (find_listing new_URL blogLinks) as [listing|]; [|discriminate].
  match goal with
  | |- context [match ?b with
                | Some l => if truthy l then _ else Ok []
                | None => Ok []
                end] =>
      destruct b as [l|]
  end.
  - destruct (truthy l).
    + destruct (fetchPage l) as [listingHtml|m] eqn:Hl; [|discriminate].
      destruct (extractArticleLinks new_URL new_URL_in listingHtml l)
        as [articleUrls|m] eqn:Hx; [|discriminate].
      intros [= <- <-]. simpl. split; [reflexivity|]. split; [reflexivity|].
      right. exists l, listingHtml, articleUrls. auto.
    + intros [= <- <-]. simpl. auto.
  - intros [= <- <-]. simpl. auto.
Qed.

(** X9.  The inventory that [discoverArticles] writes holds at most 20
    articles, no URL twice, and its [articleCount] is the number of its
    articles.  Its articles are the accepted candidates among the first 20
    article links of the listing page, in their order; without a listing
    page it is empty. *)
Theorem discoverArticles_inventory_shape
        (url outputDir : string) (r : DiscoverResult) (inv : inventory) :
  discoverArticles new_URL new_URL_in fetchPage url outputDir = Ok (r, inv) ->
  length (articles inv) <= 20
  /\ List.NoDup (List.map Discover.url (articles inv))
  /\ articleCount inv = length (articles inv)
  /\ result_articles r = articles inv
  /\ (blogUrl inv = None -> articles inv = [])
  /\ (forall listing,
        blogUrl inv = Some listing ->
        exists listingHtml articleUrls,
          fetchPage listing = Ok listingHtml
          /\ extractArticleLinks new_URL new_URL_in listingHtml listing
             = Ok articleUrls
          /\ List.map Discover.url (articles inv)
             = List.filter accepted (take 20 articleUrls)).
Proof.
  intros H. apply discoverArticles_origin in H as (Hr & Hc & Horigin).
  assert (forall articleUrls,
             List.map Discover.url (collect_articles fetchPage articleUrls)
             = List.filter accepted (take 20 articleUrls)) as Hurls.
  { intros articleUrls. unfold collect_articles. apply (collect_urls _ []). }
  destruct Horigin as [[Hempty Hnone]
                      |(listing & listingHtml & articleUrls
                        & Hb & Hl & Hx & Ha)].
  - rewrite Hempty. simpl. split; [lia|]. split; [constructor|].
    split; [rewrite Hc, Hempty; reflexivity|]. split; [rewrite Hr; assumption|].
    split; [reflexivity|]. intros listing E. congruence.
  - pose proof (Hurls articleUrls) as Hu. rewrite <- Ha in Hu.
    split.
    { rewrite <- (length_map Discover.url), Hu.
      etransitivity; [apply filter_length_le|]. rewrite length_take. lia. }
    split.
    { rewrite Hu. apply List.NoDup_filter.
      apply NoDup_ListNoDup, sublist_NoDup with articleUrls;
        [apply NoDup_ListNoDup; eapply extractArticleLinks_NoDup; exact Hx
        | apply sublist_take]. }
    split; [exact Hc|]. split; [exact Hr|].
    split; [intros E; congruence|].
    intros listing' E. rewrite Hb in E. injection E as <-.
    exists listingHtml, articleUrls. auto.
Qed.

Lemma probe_all_fail base paths :
  forall blogLinks,
    (forall p b, In p paths -> new_URL_in p base = Some b ->
                 exists m, fetchPage (href b) = Throw m) ->
    probe_common_paths new_URL new_URL_in fetchPage base paths blogLinks
    = blogLinks.
Proof.
  induction paths as [|p paths IH]; intros blogLinks H; [reflexivity|].
  cbn [probe_common_paths].
  destruct (new_URL_in p base) as [b|] eqn:E.
  - destruct (H p b (or_introl eq_refl) E) as (m & ->).
    apply IH. intros q c Hq. apply H. right. exact Hq.
  - apply IH. intros q c Hq. apply H. right. exact Hq.
Qed.

(** X10.  Discovery fails fast on its own page and is lenient elsewhere: a
    main page that cannot be fetched aborts [discoverArticles] with the
    error of the fetch; but when the main page shows no blog link and none
    of the common blog paths can be fetched, it succeeds with an empty
    inventory that names no blog URL. *)
Theorem discoverArticles_without_blog (url outputDir : string) (base : URL) :
  new_URL url = Some base ->
  (forall m, fetchPage url = Throw m ->
             discoverArticles new_URL new_URL_in fetchPage url outputDir
             = Throw m)
  /\ (forall mainHtml,
        fetchPage url = Ok mainHtml ->
        findBlogLinks new_URL new_URL_in mainHtml url = Ok [] ->
        (forall p b, In p commonPaths -> new_URL_in p base = Some b ->
                     exists m, fetchPage (href b) = Throw m) ->
        exists r,
          discoverArticles new_URL new_URL_in fetchPage url outputDir
          = Ok (r, {| blogUrl := None; articleCount := 0; articles := [] |})
          /\ result_articles r = []).
Proof.
  intros Hbase. unfold discoverArticles, getSiteOutputDir. rewrite Hbase.
  split.
  - intros m ->. reflexivity.
  - intros mainHtml -> -> Hprobe.
    rewrite (probe_all_fail base commonPaths [] Hprobe).
    cbn [find_listing head]. eexists. split; reflexivity.
Qed.

(** X11.  The site directory does not depend on a leading [www.]: a URL
    and the same URL with [www.] before its host name give the same
    directory, [path.join] of the output directory and the host name
    without [www.].  For a host name that is a plain segment this is the
    output directory, normalized, followed by the one segment of the host
    name.  A URL that does not parse is refused with a message that
    quotes it. *)
Theorem getSiteOutputDir_www (outputDir url1 url2 : string) (p1 p2 : URL) :
  new_URL url1 = Some p1 ->
  new_URL url2 = Some p2 ->
  hostname p2 = "www." +:+ hostname p1 ->
  startsWith "www." (hostname p1) = false ->
  getSiteOutputDir new_URL outputDir url1
  = Ok (Path.join [outputDir; hostname p1])
  /\ getSiteOutputDir new_URL outputDir url2
     = getSiteOutputDir new_URL outputDir url1
  /\ (plain_segment (hostname p1) ->
      getSiteOutputDir new_URL outputDir url1
      = Ok (under outputDir [hostname p1]))
  /\ forall bad, new_URL bad = None ->
                 getSiteOutputDir new_URL outputDir bad
                 = Throw ("Invalid URL: " +:+ bad).
Proof.
  intros H1 H2 Hw Hn. unfold getSiteOutputDir, strip_www.
  rewrite H1, H2, Hw, Hn. split; [reflexivity|]. split; [reflexivity|].
  split.
  - intros Hp. rewrite (PathFacts.join_segment outputDir _ Hp). reflexivity.
  - intros bad ->. reflexivity.
Qed.

End Discovery.

End DiscoverMoreFacts.

Module DiscoverMoreExamples.
Import JsString Dom Fetcher FetcherSpec Discover DiscoverMoreSpec
       DiscoverMoreFacts.

(** Six keywords leave no room for topics of the content; one keyword is
    followed by the topics found in the content. *)
Lemma extractTopicsFromContent_examples :
  extractTopicsFromContent "Cloud and AI"
    [ "one"; "two"; "three"; "four"; "five"; "six" ]
  = [ "one"; "two"; "three"; "four"; "five" ]
  /\ extractTopicsFromContent "Our SaaS product uses AI" [ "saas" ]
     = [ "saas"; "ai"; "product" ].
Proof.
  split.
  - apply (extractTopicsFromContent_spec "Cloud and AI"
             [ "one"; "two"; "three"; "four"; "five"; "six" ]).
    simpl. lia.
  - rewrite (proj1 (extractTopicsFromContent_spec
                      "Our SaaS product uses AI" [ "saas" ])).
    vm_compute. reflexivity.
Defined.

(** The good article of the small site has no meta description. *)
Lemma fetchArticle_excerpt_example :
  exists article html,
    fetchArticle Examples.example_web "https://example.com/blog/good"
    = Ok (Some article)
    /\ Examples.example_web "https://example.com/blog/good" = Ok html
    /\ excerpt article <> ""
    /\ excerpt article = trim (slice0 200 (extractMainContent html)) +:+ "..."
    /\ String.length (excerpt article) <= 203
    /\ ends_with (excerpt article) "...".
Proof.
  destruct (fetchArticle Examples.example_web "https://example.com/blog/good")
    as [[article|]|m] eqn:Hrun.
  2,3: (vm_compute in Hrun; discriminate).
  destruct (fetchArticle_excerpt_bounds Examples.example_web _ _ Hrun)
    as (html & Hf & Hne & _ & Hshort).
  exists article, html. split; [reflexivity|]. split; [exact Hf|].
  split; [exact Hne|].
  apply Hshort. vm_compute in Hf. injection Hf as <-. vm_compute. reflexivity.
Defined.

Lemma discoverArticles_inventory_example :
  exists r inv,
    discoverArticles Examples.example_new_URL Examples.example_new_URL_in
      Examples.example_web "https://example.com/" "/out" = Ok (r, inv)
    /\ length (articles inv) <= 20
    /\ List.NoDup (List.map url (articles inv))
    /\ articleCount inv = length (articles inv)
    /\ blogUrl inv = Some "https://example.com/blog".
Proof.
  destruct (discoverArticles Examples.example_new_URL
              Examples.example_new_URL_in Examples.example_web
              "https://example.com/" "/out") as [[r inv]|m] eqn:Hrun.
  2:{ vm_compute in Hrun. discriminate. }
  destruct (discoverArticles_inventory_shape _ _ _ _ _ _ _ Hrun)
    as (Hlen & Hnd & Hc & _).
  exists r, inv. split; [reflexivity|]. split; [exact Hlen|].
  split; [exact Hnd|]. split; [exact Hc|].
  vm_compute in Hrun. injection Hrun as <- <-. reflexivity.
Defined.

Lemma discoverArticles_without_blog_example :
  discoverArticles Examples.example_new_URL Examples.example_new_URL_in
    MoreExamples.plain_web "https://plain.example/missing" "/out"
  = Throw "Failed to fetch https://plain.example/missing: 404"
  /\ exists r,
       discoverArticles Examples.example_new_URL Examples.example_new_URL_in
         MoreExamples.plain_web "https://plain.example/" "/out"
       = Ok (r, {| blogUrl := None; articleCount := 0; articles := [] |})
       /\ result_articles r = [].
Proof.
  split.
  - apply (proj1 (discoverArticles_without_blog
                    Examples.example_new_URL Examples.example_new_URL_in
                    MoreExamples.plain_web "https://plain.example/missing"
                    "/out"
                    (mkURL "https://plain.example/missing" "plain.example"
                       "/missing") eq_refl)).
    reflexivity.
  - apply (proj2 (discoverArticles_without_blog
                    Examples.example_new_URL Examples.example_new_URL_in
                    MoreExamples.plain_web "https://plain.example/" "/out"
                    (mkURL "https://plain.example/" "plain.example" "/")
                    eq_refl)
             (Examples.page [ Examples.anchor "/about" "About" ])).
    + reflexivity.
    + reflexivity.
    + intros p b Hp. simpl in Hp.
      repeat (destruct Hp as [<-|Hp];
              [intros [= <-]; eexists; reflexivity|]).
      destruct Hp.
Defined.

Lemma getSiteOutputDir_www_example :
  getSiteOutputDir Examples.example_new_URL "./out/" "https://example.com/a"
  = Ok "out/example.com"
  /\ getSiteOutputDir Examples.example_new_URL "./out/"
       "https://www.example.com/a"
     = getSiteOutputDir Examples.example_new_URL "./out/"
         "https://example.com/a"
  /\ getSiteOutputDir Examples.example_new_URL "./out/" "example.com"
     = Throw "Invalid URL: example.com".
Proof.
  destruct (getSiteOutputDir_www Examples.example_new_URL "./out/"
              "https://example.com/a" "https://www.example.com/a"
              (mkURL "https://example.com/a" "example.com" "/a")
              (mkURL "https://www.example.com/a" "www.example.com" "/a")
              eq_refl eq_refl eq_refl eq_refl) as (_ & H2 & H1 & H3).
  split; [|split; [exact H2 | apply H3; reflexivity]].
  apply H1. SlugFacts.plain_literal.
Defined.

End DiscoverMoreExamples.

(* ===================================================================== *)
(** * generateArticles: the persisted plan and the files *)
(* ===================================================================== *)

Module GenerateMoreFacts.
Import JsString DomFacts Generate GenerateSpec GenerateFacts PathSpec
       PathFacts SlugSpec SlugFacts GenerateMoreSpec.

Lemma flip_all_cons i positions plan :
  flip_all (i :: positions) plan
  = flip_all positions (alter set_generated i plan).
Proof. reflexivity. Qed.

Lemma flip_all_length positions :
  forall plan, length (flip_all positions plan) = length plan.
Proof.
  induction positions as [|i l IH]; intros plan; [reflexivity|].
  rewrite flip_all_cons, IH. apply length_alter.
Qed.

(** A brief inside the positions is generated afterwards; a brief outside
    is untouched. *)
Lemma flip_all_lookup positions :
  forall plan i,
    flip_all positions plan !! i
    = if decide (i ∈ positions) then set_generated <$> plan !! i
      else plan !! i.
Proof.
  induction positions as [|p l IH]; intros plan i.
  - simpl. destruct (decide (i ∈ [])) as [H|_]; [|reflexivity].
    apply elem_of_nil in H. destruct H.
  - rewrite flip_all_cons, IH.
    destruct (decide (p = i)) as [->|Hne].
    + rewrite list_lookup_alter_eq.
      destruct (decide (i ∈ i :: l)) as [_|H];
        [|exfalso; apply H; left].
      destruct (decide (i ∈ l)); destruct (plan !! i); reflexivity.
    + rewrite list_lookup_alter_ne by exact Hne.
      destruct (decide (i ∈ l)) as [H|H];
        destruct (decide (i ∈ p :: l)) as [H'|H']; try reflexivity.
      * exfalso. apply H'. right. exact H.
      * exfalso. apply elem_of_cons in H' as [->|H']; [congruence | auto].
Qed.

Lemma titles_alter i plan :
  List.map brief_title (alter set_generated i plan) = List.map brief_title plan.
Proof.
  revert i. induction plan as [|b plan IH]; intros i; [reflexivity|].
  destruct i as [|i]; simpl; [reflexivity|]. f_equal. apply IH.
Qed.

Lemma output_dir outputDir :
  Path.join [outputDir; "output"] = under outputDir ["output"].
Proof. apply join_segment. plain_literal. Qed.

(** A file of an article, as the loop names it. *)
Lemma article_file_path outputDir title name :
  plain_segment name ->
  Path.join [Path.join [Path.join [outputDir; "output"];
                        Storage.slugify title]; name]
  = article_file outputDir title name.
Proof.
  intros Hn. rewrite article_path by exact Hn. rewrite output_dir.
  apply under_under; [|discriminate].
  constructor; [plain_literal | constructor].
Qed.

Lemma output_file_path outputDir name :
  plain_segment name ->
  Path.join [Path.join [outputDir; "output"]; name]
  = under outputDir ["output"; name].
Proof.
  intros Hn. rewrite output_dir.
  apply (join_under outputDir ["output"] name); [|discriminate|exact Hn].
  constructor; [plain_literal | constructor].
Qed.

Section Generation.

Variable SiteAnalysis : Type.
Variable generateSingleArticle :
  ArticleBrief -> SiteAnalysis -> result GeneratedArticle.

Abbreviation world := (world SiteAnalysis).

Lemma titles_lookup (plan : list ArticleBrief) i :
  List.map brief_title plan !! i = brief_title <$> plan !! i.
Proof.
  revert i. induction plan as [|b plan IH]; intros [|i]; try reflexivity.
  apply IH.
Qed.

(** The files of one turn of the loop. *)
Lemma generate_one_written outputDir analysis i plan acc (w : world) brief :
  plan !! i = Some brief ->
  exists files,
    written _
      (generate_one SiteAnalysis generateSingleArticle
         (Path.join [outputDir; "output"]) analysis i (plan, acc) w).1
    = written _ w ++ files
    /\ Forall (fun p => exists name,
                   In name article_file_names
                   /\ p = article_file outputDir (brief_title brief) name)
              files
    /\ (forall article,
           generateSingleArticle brief analysis = Ok article ->
           In (article_file outputDir (brief_title brief) "article.md") files
           /\ In (article_file outputDir (brief_title brief) "metadata.json")
                files).
Proof.
  intros H. unfold generate_one. rewrite H.
  unfold bind, invoke, writeFile, when, ret.
  destruct (generateSingleArticle brief analysis) as [article|m];
    cbn [fst written].
  - rewrite !article_file_path by plain_literal.
    destruct (is_truthy (mediumContent article)),
             (is_truthy (linkedinContent article));
      cbn [fst written]; rewrite <- ?app_assoc;
      (eexists; split; [reflexivity|]);
      (split; [repeat (constructor;
                       [eexists; split; [|reflexivity]; simpl; tauto|]);
               constructor
              | intros _ _; split; simpl; tauto]).
  - exists []. rewrite app_nil_r. split; [reflexivity|].
    split; [constructor | discriminate].
Qed.

Lemma generate_loop_written outputDir analysis titles positions :
  forall plan acc (w : world),
    List.map brief_title plan = titles ->
    exists files,
      written _
        (generate_loop SiteAnalysis generateSingleArticle
           (Path.join [outputDir; "output"]) analysis positions (plan, acc) w).1
      = written _ w ++ files
      /\ Forall (fun p => exists title name,
                     In title titles /\ In name article_file_names
                     /\ p = article_file outputDir title name)
                files
      /\ (forall st,
             (generate_loop SiteAnalysis generateSingleArticle
                (Path.join [outputDir; "output"]) analysis positions
                (plan, acc) w).2 = Ok st ->
             forall i title,
               In i positions -> titles !! i = Some title ->
               In (article_file outputDir title "article.md") files
               /\ In (article_file outputDir title "metadata.json") files).
Proof.
  induction positions as [|i rest IH]; intros plan acc w Ht.
  - exists []. rewrite app_nil_r. split; [reflexivity|].
    split; [constructor|]. intros _ _ j title [].
  - cbn [generate_loop]. unfold bind.
    destruct (plan !! i) as [brief|] eqn:Hb.
    + destruct (generate_one_written outputDir analysis i plan acc w brief Hb)
        as (files1 & Hw1 & Hf1 & Hin1).
      destruct (generate_one_spec SiteAnalysis generateSingleArticle
                  (Path.join [outputDir; "output"]) analysis i plan acc w
                  brief Hb)
        as (w1 & Hone & _).
      rewrite Hone in Hw1 |- *. cbn [fst] in Hw1.
      assert (Forall (fun p => exists title name,
                          In title titles /\ In name article_file_names
                          /\ p = article_file outputDir title name) files1)
        as Hf1'.
      { eapply Forall_impl; [exact Hf1|]. intros p (name & Hn & ->).
        exists (brief_title brief), name. split; [|auto].
        rewrite <- Ht. apply in_map, list_elem_of_In, list_elem_of_lookup.
        exists i. exact Hb. }
      destruct (generateSingleArticle brief analysis) as [article|m].
      * destruct (IH (alter set_generated i plan) (acc ++ [article]) w1)
          as (files2 & Hw2 & Hf2 & Hin2); [rewrite titles_alter; exact Ht|].
        exists (files1 ++ files2). rewrite Hw2, Hw1, app_assoc.
        split; [reflexivity|].
        split; [apply Forall_app; split; assumption|].
        intros st Hst j title [<-|Hj] Htitle.
        -- rewrite <- Ht, titles_lookup, Hb in Htitle.
           injection Htitle as <-.
           destruct (Hin1 article eq_refl) as [Ha Hm].
           split; apply in_or_app; left; assumption.
        -- destruct (Hin2 st Hst j title Hj Htitle) as [Ha Hm].
           split; apply in_or_app; right; assumption.
      * exists files1. split; [exact Hw1|]. split; [exact Hf1'|].
        intros st Hst. discriminate Hst.
    + unfold generate_one. rewrite Hb. unfold ret.
      destruct (IH plan acc w Ht) as (files & Hw & Hf & Hin).
      exists files. split; [exact Hw|]. split; [exact Hf|].
      intros st Hst j title [<-|Hj] Htitle.
      * rewrite <- Ht, titles_lookup, Hb in Htitle. discriminate Htitle.
      * apply (Hin st Hst j title Hj Htitle).
Qed.

(** The loop does not stop when the generator answers for every brief. *)
Lemma generate_loop_succeeds dir analysis positions :
  (forall b, exists article, generateSingleArticle b analysis = Ok article) ->
  forall plan acc (w : world),
    (forall i, In i positions -> is_Some (plan !! i)) ->
    exists w' plan' acc',
      generate_loop SiteAnalysis generateSingleArticle dir analysis
        positions (plan, acc) w = (w', Ok (plan', acc'))
      /\ length acc' = length acc + length positions.
Proof.
  intros Htotal.
  induction positions as [|i rest IH]; intros plan acc w Hin.
  - exists w, plan, acc. simpl. split; [reflexivity | lia].
  - destruct (Hin i (or_introl eq_refl)) as [brief Hb].
    destruct (generate_one_spec SiteAnalysis generateSingleArticle
                dir analysis i plan acc w brief Hb) as (w1 & Hone & _).
    destruct (Htotal brief) as (article & Hart).
    cbn [generate_loop]. unfold bind at 1. rewrite Hone, Hart.
    destruct (IH (alter set_generated i plan) (acc ++ [article]) w1)
      as (w' & plan' & acc' & Hloop & Hlen).
    { intros j Hj. destruct (Hin j (or_intror Hj)) as [b Hj'].
      apply lookup_lt_is_Some. rewrite length_alter.
      apply lookup_lt_Some in Hj'. exact Hj'. }
    exists w', plan', acc'. split; [exact Hloop|].
    rewrite Hlen, length_app. simpl. lia.
Qed.

(** What a run leaves on disk, and what it invoked, by its outcome. *)
Lemma generateArticles_outcome outputDir count (w : world) analysis plan :
  site_analysis _ w = Some analysis ->
  article_plan _ w = Some plan ->
  exists n w1 r1,
    generate_loop SiteAnalysis generateSingleArticle
      (Path.join [outputDir; "output"])
      analysis (array_slice0 count (pending plan)) (plan, []) w = (w1, r1)
    /\ invocations _ w1
       = invocations _ w
         ++ briefs_at plan (take n (array_slice0 count (pending plan)))
    /\ article_plan _ w1 = Some plan
    /\ site_analysis _ w1 = Some analysis
    /\ match r1 with
       | Throw m =>
           generateArticles SiteAnalysis generateSingleArticle outputDir
             count w = (w1, Throw m)
       | Ok (plan', generatedArticles) =>
           plan' = flip_all (array_slice0 count (pending plan)) plan
           /\ n = length (array_slice0 count (pending plan))
           /\ exists w2,
                generateArticles SiteAnalysis generateSingleArticle outputDir
                  count w
                = (w2, Ok {| generated_articles := generatedArticles;
                             outputPath := Path.join [outputDir; "output"] |})
                /\ article_plan _ w2 = Some plan'
                /\ site_analysis _ w2 = Some analysis
                /\ invocations _ w2 = invocations _ w1
                /\ written _ w2
                   = written _ w1
                     ++ [ under outputDir [ "output"; "blog.ts" ];
                          under outputDir [ "output"; "README.md" ] ]
       end.
Proof.
  intros Ha Hp.
  destruct (sliced_positions count plan) as (Hnd & Hpos & _).
  destruct (generate_loop_spec SiteAnalysis generateSingleArticle
              (Path.join [outputDir; "output"]) analysis
              (array_slice0 count (pending plan)) plan [] w Hnd)
    as (n & w1 & r1 & Hloop & _ & Hinv & Hplan & Han & Hok).
  { intros i Hi. destruct (Hpos i Hi) as (b & Hb & _). exists b. exact Hb. }
  exists n, w1, r1. split; [exact Hloop|]. split; [exact Hinv|].
  split; [congruence|]. split; [congruence|].
  unfold generateArticles, bind, readAnalysis, readPlan.
  rewrite Ha, Hp, Hloop.
  destruct r1 as [[plan' generatedArticles]|m]; [|reflexivity].
  destruct (Hok _ eq_refl) as [H1 H2]. cbn [fst] in H1.
  split; [exact H1|]. split; [exact H2|].
  eexists. split; [reflexivity|]. cbn [article_plan site_analysis invocations
                                         written].
  split; [reflexivity|]. split; [congruence|]. split; [reflexivity|].
  rewrite !output_file_path by plain_literal.
  rewrite <- app_assoc. reflexivity.
Qed.

(** X12.  Whatever a run of Generate does, the persisted plan keeps its
    briefs in place: afterwards it has the same length, and at every
    position the same brief (id, title, platform) whose status is the one
    it had or [generated].  A brief that was generated stays generated. *)
Theorem generateArticles_plan_advances
        (outputDir : string) (count : number) (w : world)
        (analysis : SiteAnalysis) (plan : list ArticleBrief) :
  site_analysis _ w = Some analysis ->
  article_plan _ w = Some plan ->
  exists plan',
    article_plan _
      (generateArticles SiteAnalysis generateSingleArticle outputDir count w).1
    = Some plan'
    /\ length plan' = length plan
    /\ forall i b,
         plan !! i = Some b ->
         exists b',
           plan' !! i = Some b' /\ advanced b b'
           /\ (brief_status b = generated -> brief_status b' = generated).
Proof.
  intros Ha Hp.
  destruct (generateArticles_outcome outputDir count w analysis plan Ha Hp)
    as (n & w1 & r1 & _ & _ & Hplan & _ & Hout).
  assert (forall i b, plan !! i = Some b ->
            exists b', plan !! i = Some b' /\ advanced b b'
                       /\ (brief_status b = generated ->
                           brief_status b' = generated)) as Hsame.
  { intros i b Hb. exists b. split; [exact Hb|].
    split; [|auto]. repeat split; auto. }
  destruct r1 as [[plan' generatedArticles]|m].
  - destruct Hout as (-> & _ & w2 & -> & Hplan2 & _).
    exists (flip_all (array_slice0 count (pending plan)) plan).
    split; [exact Hplan2|]. split; [apply flip_all_length|].
    intros i b Hb. rewrite flip_all_lookup, Hb.
    destruct (decide (i ∈ array_slice0 count (pending plan))).
    + exists (set_generated b). split; [reflexivity|].
      split; [|reflexivity]. repeat split; auto.
    + exists b. split; [reflexivity|]. split; [|auto]. repeat split; auto.
  - rewrite Hout. exists plan. split; [exact Hplan|]. split; [reflexivity|].
    exact Hsame.
Qed.

Lemma pending_nil plan :
  Forall (fun b => brief_status b = generated) plan -> pending plan = [].
Proof.
  intros H. destruct (pending plan) as [|i l] eqn:E; [reflexivity|].
  assert (In i (pending plan)) as Hi by (rewrite E; left; reflexivity).
  apply pending_spec in Hi as (b & Hb & Hs). exfalso. apply Hs.
  rewrite Forall_forall in H. apply H, list_elem_of_lookup. exists i. exact Hb.
Qed.

Lemma array_slice0_all {A} c (l : list A) :
  (Z.of_nat (length l) <= c)%Z -> array_slice0 (Int c) l = l.
Proof.
  intros H. unfold array_slice0.
  replace (c <? 0)%Z with false by lia.
  apply take_ge. lia.
Qed.

Lemma generateArticles_all
        (outputDir : string) (c : Z) (count' : number) (w : world)
        (analysis : SiteAnalysis) (plan : list ArticleBrief) :
  site_analysis _ w = Some analysis ->
  article_plan _ w = Some plan ->
  (forall b, exists article, generateSingleArticle b analysis = Ok article) ->
  (Z.of_nat (length plan - generated_count plan) <= c)%Z ->
  exists w1 res plan',
    generateArticles SiteAnalysis generateSingleArticle outputDir (Int c) w
    = (w1, Ok res)
    /\ length (generated_articles res) = length plan - generated_count plan
    /\ article_plan _ w1 = Some plan'
    /\ Forall (fun b => brief_status b = generated) plan'
    /\ invocations _
         (generateArticles SiteAnalysis generateSingleArticle outputDir
            count' w1).1 = invocations _ w1
    /\ article_plan _
         (generateArticles SiteAnalysis generateSingleArticle outputDir
            count' w1).1 = Some plan'.
Proof.
  intros Ha Hp Htotal Hc.
  assert (array_slice0 (Int c) (pending plan) = pending plan) as Hall
      by (apply array_slice0_all; rewrite pending_length; exact Hc).
  destruct (generateArticles_outcome outputDir (Int c) w analysis plan Ha Hp)
    as (n & w1 & r1 & Hloop & _ & _ & _ & Hout).
  destruct (generate_loop_succeeds (Path.join [outputDir; "output"]) analysis
              (array_slice0 (Int c) (pending plan)) Htotal plan [] w)
    as (w1' & plan1 & acc1 & Hloop' & Hlen).
  { intros i Hi. rewrite Hall in Hi.
    apply pending_spec in Hi as (b & Hb & _). exists b. exact Hb. }
  rewrite Hloop in Hloop'. injection Hloop' as <- ->.
  destruct Hout as (-> & _ & w2 & Hrun & Hplan2 & Ha2 & _).
  rewrite Hall in *.
  assert (Forall (fun b => brief_status b = generated)
                 (flip_all (pending plan) plan)) as Hgen.
  { apply Forall_forall. intros b Hb.
    apply list_elem_of_lookup in Hb as (i & Hb).
    rewrite flip_all_lookup in Hb.
    destruct (decide (i ∈ pending plan)) as [Hi|Hi].
    - destruct (plan !! i); [|discriminate].
      injection Hb as <-. reflexivity.
    - destruct (brief_status b) eqn:Es; try reflexivity;
        exfalso; apply Hi, list_elem_of_In, pending_spec;
        exists b; split; try exact Hb; congruence. }
  destruct (generateArticles_outcome outputDir count' w2 analysis
              (flip_all (pending plan) plan) Ha2 Hplan2)
    as (n2 & w3 & r3 & Hloop3 & Hinv3 & Hplan3 & _ & Hout3).
  rewrite (pending_nil _ Hgen) in *.
  assert (array_slice0 count' (@nil nat) = []) as Hnil
      by (unfold array_slice0; apply take_nil).
  rewrite Hnil in *. cbn in Hloop3. unfold ret in Hloop3.
  injection Hloop3 as <- <-.
  destruct Hout3 as (_ & _ & w4 & Hrun4 & Hplan4 & _ & Hinv4 & _).
  exists w2, {| generated_articles := acc1;
                outputPath := Path.join [outputDir; "output"] |},
    (flip_all (pending plan) plan).
  split; [exact Hrun|]. split; [cbn; rewrite Hlen, pending_length; reflexivity|].
  split; [exact Hplan2|]. split; [exact Hgen|].
  rewrite Hrun4. cbn [fst]. split; [exact Hinv4 | exact Hplan4].
Qed.

(** X13.  When the generator answers for every brief and the configured
    count is at least the number of briefs not yet generated, one run
    generates them all: it succeeds with that many articles, every brief
    of the persisted plan is then generated, and a further run (with any
    count) invokes the generator for no brief and leaves the plan as it
    is. *)
Theorem generateArticles_completes
        (outputDir : string) (c : Z) (count' : number) (w : world)
        (analysis : SiteAnalysis) (plan : list ArticleBrief) :
  site_analysis _ w = Some analysis ->
  article_plan _ w = Some plan ->
  (forall b, exists article, generateSingleArticle b analysis = Ok article) ->
  (Z.of_nat (length plan - generated_count plan) <= c)%Z ->
  exists w1 res plan',
    generateArticles SiteAnalysis generateSingleArticle outputDir (Int c) w
    = (w1, Ok res)
    /\ length (generated_articles res) = length plan - generated_count plan
    /\ article_plan _ w1 = Some plan'
    /\ Forall (fun b => brief_status b = generated) plan'
    /\ invocations _
         (generateArticles SiteAnalysis generateSingleArticle outputDir
            count' w1).1 = invocations _ w1
    /\ article_plan _
         (generateArticles SiteAnalysis generateSingleArticle outputDir
            count' w1).1 = Some plan'.
Proof. apply generateArticles_all. Qed.

(** X14.  Every file that a run of Generate writes is a file of the
    article of one of the briefs of the plan, or one of the two files of
    the whole output.  With the site directory as [path.join] normalizes
    it, a file of an article is [<site>/output/<slug of the title>/<name>]
    with one of the four names article.md, medium.md, linkedin.md,
    metadata.json, and for a title with an empty slug it is
    [<site>/output/<name>], next to [<site>/output/blog.ts] and
    [<site>/output/README.md].  A run that succeeds has written
    article.md and metadata.json for every brief it selected, and at the
    end blog.ts and README.md. *)
Theorem generateArticles_files
        (outputDir : string) (count : number) (w : world)
        (analysis : SiteAnalysis) (plan : list ArticleBrief) :
  site_analysis _ w = Some analysis ->
  article_plan _ w = Some plan ->
  let run :=
    generateArticles SiteAnalysis generateSingleArticle outputDir count w in
  exists files,
    written _ run.1 = written _ w ++ files
    /\ Forall (output_file outputDir plan) files
    /\ forall res,
         run.2 = Ok res ->
         (exists article_files,
             files = article_files
                       ++ [ under outputDir [ "output"; "blog.ts" ];
                            under outputDir [ "output"; "README.md" ] ])
         /\ forall i b,
              In i (array_slice0 count (pending plan)) ->
              plan !! i = Some b ->
              In (article_file outputDir (brief_title b) "article.md") files
              /\ In (article_file outputDir (brief_title b) "metadata.json")
                   files.
Proof.
  intros Ha Hp run. subst run.
  destruct (generateArticles_outcome outputDir count w analysis plan Ha Hp)
    as (n & w1 & r1 & Hloop & _ & _ & _ & Hout).
  destruct (generate_loop_written outputDir analysis
              (List.map brief_title plan)
              (array_slice0 count (pending plan)) plan [] w eq_refl)
    as (files & Hw & Hf & Hin).
  rewrite Hloop in Hw, Hin. cbn [fst snd] in Hw, Hin.
  assert (Forall (output_file outputDir plan) files) as Hf'.
  { eapply Forall_impl; [exact Hf|].
    intros p (title & name & Ht & Hn & ->). left.
    apply in_map_iff in Ht as (b & <- & Hb). exists b, name. auto. }
  destruct r1 as [[plan' generatedArticles]|m].
  - destruct Hout as (_ & _ & w2 & -> & _ & _ & _ & Hw2). cbn [fst snd].
    exists (files ++ [ under outputDir [ "output"; "blog.ts" ];
                       under outputDir [ "output"; "README.md" ] ]).
    rewrite Hw2, Hw, app_assoc. split; [reflexivity|]. split.
    + apply Forall_app. split; [exact Hf'|].
      constructor; [|constructor; [|constructor]].
      * right. left. reflexivity.
      * right. right. reflexivity.
    + intros res _. split; [exists files; reflexivity|].
      intros i b Hi Hb.
      destruct (Hin _ eq_refl i (brief_title b) Hi) as [H1 H2].
      { rewrite titles_lookup, Hb. reflexivity. }
      split; apply in_or_app; left; assumption.
  - rewrite Hout. cbn [fst snd]. exists files. split; [exact Hw|].
    split; [exact Hf'|]. intros res Hres. discriminate Hres.
Qed.

End Generation.

End GenerateMoreFacts.

Module GenerateMoreExamples.
Import JsString Generate GenerateSpec GenerateMoreSpec GenerateMoreFacts.

(** X12 on a run that fails on the third brief of a resumed plan. *)
Lemma generateArticles_plan_advances_example :
  exists plan',
    article_plan _
      (generateArticles unit (Examples.generator_failing_on "b3")
         "/out/example.com" (Int 5) MoreExamples.resumed_world).1
    = Some plan'
    /\ length plan' = length MoreExamples.resumed_plan
    /\ forall i b,
         MoreExamples.resumed_plan !! i = Some b ->
         exists b',
           plan' !! i = Some b' /\ advanced b b'
           /\ (brief_status b = generated -> brief_status b' = generated).
Proof.
  apply (generateArticles_plan_advances unit
           (Examples.generator_failing_on "b3") "/out/example.com" (Int 5)
           MoreExamples.resumed_world tt MoreExamples.resumed_plan).
  - reflexivity.
  - reflexivity.
Defined.

(** X13 on the resumed plan: two briefs are left and the count is five. *)
Lemma generateArticles_completes_example :
  exists w1 res plan',
    generateArticles unit Examples.generator_ok "/out/example.com" (Int 5)
      MoreExamples.resumed_world = (w1, Ok res)
    /\ length (generated_articles res)
       = length MoreExamples.resumed_plan
         - generated_count MoreExamples.resumed_plan
    /\ article_plan _ w1 = Some plan'
    /\ Forall (fun b => brief_status b = generated) plan'
    /\ invocations _
         (generateArticles unit Examples.generator_ok "/out/example.com"
            (Int 1) w1).1 = invocations _ w1
    /\ article_plan _
         (generateArticles unit Examples.generator_ok "/out/example.com"
            (Int 1) w1).1 = Some plan'.
Proof.
  apply (generateArticles_completes unit Examples.generator_ok
           "/out/example.com" 5 (Int 1) MoreExamples.resumed_world tt
           MoreExamples.resumed_plan).
  - reflexivity.
  - reflexivity.
  - intros b. eexists. reflexivity.
  - vm_compute. discriminate.
Defined.

(** X14 on a first run over three briefs with a count of two. *)
Lemma generateArticles_files_example :
  exists files,
    files = [ "/out/example.com/output/first-post/article.md";
              "/out/example.com/output/first-post/medium.md";
              "/out/example.com/output/first-post/metadata.json";
              "/out/example.com/output/second-post/article.md";
              "/out/example.com/output/second-post/medium.md";
              "/out/example.com/output/second-post/metadata.json";
              "/out/example.com/output/blog.ts";
              "/out/example.com/output/README.md" ]
    /\ written _
         (generateArticles unit Examples.generator_ok "/out/example.com/"
            (Int 2) Examples.world0).1
       = written _ Examples.world0 ++ files
    /\ Forall (output_file "/out/example.com/" Examples.plan3) files.
Proof.
  destruct (generateArticles_files unit Examples.generator_ok
              "/out/example.com/" (Int 2) Examples.world0 tt Examples.plan3
              eq_refl eq_refl) as (files & Hw & Hf & _).
  exists files. split; [|split; [exact Hw | exact Hf]].
  vm_compute in Hw. symmetry. exact Hw.
Defined.

End GenerateMoreExamples.

(* ===================================================================== *)
(** * utils/claude.ts: the code fences around a JSON answer *)
(* ===================================================================== *)

Module ClaudeFacts.
Import JsString JsStringSpec JsStringFacts WhitespaceFacts DomFacts
       IncludesFacts NormalFormFacts Fetcher FetcherSpec FetcherFacts
       DiscoverMoreFacts Claude WriterSpec.

Lemma slice0_app s t : slice0 (String.length s) (s +:+ t) = s.
Proof.
  induction s as [|c s IH]; [reflexivity|].
  rewrite append_cons. cbn [String.length slice0]. rewrite IH. reflexivity.
Qed.

Lemma drop_last_app s t : drop_last (String.length t) (s +:+ t) = s.
Proof.
  unfold drop_last. rewrite length_append.
  replace (String.length s + String.length t - String.length t)
    with (String.length s) by lia.
  apply slice0_app.
Qed.

Lemma drop_last_fence inner : drop_last 3 (inner +:+ "```") = inner.
Proof. apply (drop_last_app inner "```"). Qed.

Lemma startsWith_prefix t u s :
  startsWith (t +:+ u) s = true -> startsWith t s = true.
Proof.
  rewrite !startsWith_spec. intros (post & ->).
  exists (u +:+ post). apply append_assoc.
Qed.

Lemma startsWith_app t s : startsWith t (t +:+ s) = true.
Proof. apply startsWith_spec. exists s. reflexivity. Qed.

Lemma endsWith_app s t : endsWith (s +:+ t) t = true.
Proof. apply endsWith_spec. exists s. reflexivity. Qed.

Lemma startsWith_json inner :
  startsWith "json" inner = false ->
  startsWith "json" (inner +:+ "```") = false.
Proof.
  intros H.
  destruct (startsWith "json" (inner +:+ "```")) eqn:E; [|reflexivity].
  apply startsWith_spec in E as (post & E).
  destruct inner as [|a [|b [|c [|d r]]]]; cbn in E; try discriminate E.
  injection E as -> -> -> -> _. cbn in H. discriminate H.
Qed.

Lemma strip_fenced tag inner answer :
  fenced tag inner answer ->
  (tag = "json" \/ (tag = "" /\ startsWith "json" inner = false)) ->
  strip_code_fences answer = trim inner.
Proof.
  unfold fenced, strip_code_fences. intros -> [->|[-> Hj]].
  - change ("```" +:+ "json" +:+ inner +:+ "```")
      with ("```json" +:+ inner +:+ "```").
    rewrite startsWith_app.
    change (drop_chars 7 ("```json" +:+ inner +:+ "```"))
      with (inner +:+ "```").
    rewrite endsWith_app.
    rewrite drop_last_fence. reflexivity.
  - change ("```" +:+ "" +:+ inner +:+ "```") with ("```" +:+ inner +:+ "```").
    replace (startsWith "```json" ("```" +:+ inner +:+ "```")) with false
      by (symmetry; apply (startsWith_json inner Hj)).
    rewrite startsWith_app.
    change (drop_chars 3 ("```" +:+ inner +:+ "```")) with (inner +:+ "```").
    rewrite endsWith_app.
    rewrite drop_last_fence. reflexivity.
Qed.

(** X15.  [generateJsonWithClaude] parses what is inside the code fences:
    for an answer that is, up to white space around it, [inner] between
    an opening fence (with the tag json, or with no tag when [inner] does
    not start with json) and a closing fence, the text given to
    [JSON.parse] is [inner] trimmed.  An answer that neither starts nor
    ends with a fence is only trimmed. *)
Theorem strip_code_fences_spec (inner answer : string) :
  (fenced "json" inner answer -> strip_code_fences answer = trim inner)
  /\ (fenced "" inner answer -> startsWith "json" inner = false ->
      strip_code_fences answer = trim inner)
  /\ (startsWith "```" (trim answer) = false ->
      endsWith (trim answer) "```" = false ->
      strip_code_fences answer = trim answer).
Proof.
  split; [|split].
  - intros H. apply (strip_fenced "json" inner answer H). left. reflexivity.
  - intros H Hj. apply (strip_fenced "" inner answer H). right. auto.
  - intros Hs He. unfold strip_code_fences.
    replace (startsWith "```json" (trim answer)) with false.
    + rewrite Hs, He. apply trim_idempotent.
    + symmetry. destruct (startsWith "```json" (trim answer)) eqn:E;
        [|reflexivity].
      apply (startsWith_prefix "```" "json") in E. congruence.
Qed.

Section Claude.

Variable messages_create : string -> string -> result (list block).
Variable T : Type.
Variable JSON_parse : string -> option T.

(** X16.  A JSON answer inside json code fences is accepted: when the
    first text block of the answer of the model is fenced and the text
    inside the fences parses, [generateJsonWithClaude] returns the parsed
    value; when it does not parse, the error quotes at most 200
    characters of it. *)
Theorem generateJsonWithClaude_fenced
        (systemPrompt userPrompt inner answer : string)
        (content : list block) :
  messages_create (systemPrompt +:+ json_instruction) userPrompt = Ok content ->
  find_text content = Some answer ->
  fenced "json" inner answer ->
  match JSON_parse (trim inner) with
  | Some v =>
      generateJsonWithClaude messages_create T JSON_parse systemPrompt
        userPrompt = Ok v
  | None =>
      exists quoted,
        generateJsonWithClaude messages_create T JSON_parse systemPrompt
          userPrompt
        = Throw ("Failed to parse Claude response as JSON: "
                 +:+ quoted +:+ "...")
        /\ startsWith quoted (trim inner) = true
        /\ String.length quoted <= 200
  end.
Proof.
  intros Hm Hf Hfen.
  unfold generateJsonWithClaude, generateWithClaude. rewrite Hm, Hf.
  rewrite (strip_fenced "json" inner answer Hfen) by (left; reflexivity).
  destruct (JSON_parse (trim inner)) as [v|]; [reflexivity|].
  exists (slice0 200 (trim inner)). split; [reflexivity|].
  split; [|apply DiscoverFacts.slice0_length].
  generalize (trim inner). generalize 200. clear.
  induction n as [|n IH]; intros s; [reflexivity|].
  destruct s as [|c s]; [reflexivity|].
  cbn [slice0 startsWith]. rewrite Ascii.eqb_refl. apply IH.
Qed.

End Claude.

End ClaudeFacts.

(* ===================================================================== *)
(** * generator/article-writer.ts: excerpt and diagrams of an article *)
(* ===================================================================== *)

Module ArticleWriterFacts.
Import JsString JsStringSpec JsStringFacts WhitespaceFacts DomFacts
       IncludesFacts NormalFormFacts Fetcher FetcherSpec FetcherFacts
       DiscoverMoreFacts ClaudeFacts ArticleWriter WriterSpec.

Lemma find_line_filter p q (lines : list string) :
  find_line p (List.filter q lines) = find_line (fun l => q l && p l) lines.
Proof.
  induction lines as [|l lines IH]; [reflexivity|].
  cbn [List.filter find_line]. destruct (q l); cbn [find_line andb].
  - rewrite IH. reflexivity.
  - exact IH.
Qed.

Lemma find_line_first p (pre : list string) l post :
  Forall (fun x => p x = false) pre -> p l = true ->
  find_line p (pre ++ l :: post) = Some l.
Proof.
  intros Hpre Hl. induction Hpre as [|x pre Hx _ IH]; cbn [app find_line].
  - rewrite Hl. reflexivity.
  - rewrite Hx. exact IH.
Qed.

Lemma find_line_none p (lines : list string) :
  Forall (fun x => p x = false) lines -> find_line p lines = None.
Proof.
  intros H. induction H as [|x l Hx _ IH]; [reflexivity|].
  cbn [find_line]. rewrite Hx. exact IH.
Qed.

Lemma find_line_some p (lines : list string) l :
  find_line p lines = Some l -> In l lines /\ p l = true.
Proof.
  induction lines as [|x lines IH]; [discriminate|].
  cbn [find_line]. destruct (p x) eqn:E.
  - intros [= ->]. split; [left; reflexivity | exact E].
  - intros H. destruct (IH H). split; [right|]; assumption.
Qed.

Lemma truthy_append s t : truthy t = true -> truthy (s +:+ t) = true.
Proof. destruct s; [auto | reflexivity]. Qed.

Lemma extractExcerpt_find content :
  extractExcerpt content
  = match find_line paragraph_line (split_char LF content) with
    | Some l => trim (slice0 300 l) +:+ "..."
    | None => "undefined..."
    end.
Proof.
  unfold extractExcerpt. rewrite find_line_filter.
  change (fun l => truthy (trim l)
                   && (negb (startsWith "#" l) && (50 <? String.length l)%nat))
    with paragraph_line.
  destruct (find_line paragraph_line (split_char LF content)) as [l|].
  - rewrite truthy_append; reflexivity.
  - reflexivity.
Qed.

(** X17.  The excerpt of an article is the first paragraph line of its
    content (a line that is not blank, is no heading and has more than
    fifty characters), cut to 300 characters, trimmed and followed by
    three dots.  When the content has no such line the excerpt is the
    text "undefined...": the fallback to the empty text is never taken,
    and an excerpt is never empty and never longer than 303 characters. *)
Theorem extractExcerpt_spec (content : string) :
  (forall pre l post,
      split_char LF content = pre ++ l :: post ->
      Forall (fun x => paragraph_line x = false) pre ->
      paragraph_line l = true ->
      extractExcerpt content = trim (slice0 300 l) +:+ "...")
  /\ (Forall (fun x => paragraph_line x = false) (split_char LF content) ->
      extractExcerpt content = "undefined...")
  /\ extractExcerpt content <> ""
  /\ ends_with (extractExcerpt content) "..."
  /\ String.length (extractExcerpt content) <= 303.
Proof.
  rewrite extractExcerpt_find.
  split; [|split; [|split; [|split]]].
  - intros pre l post -> Hpre Hl.
    rewrite (find_line_first _ pre l post Hpre Hl). reflexivity.
  - intros H. rewrite (find_line_none _ _ H). reflexivity.
  - destruct (find_line paragraph_line (split_char LF content)) as [l|];
      [|discriminate].
    intros E. pose proof (truthy_append (trim (slice0 300 l)) "..." eq_refl) as H.
    rewrite E in H. discriminate H.
  - destruct (find_line paragraph_line (split_char LF content)) as [l|].
    + exists (trim (slice0 300 l)). reflexivity.
    + exists "undefined". reflexivity.
  - destruct (find_line paragraph_line (split_char LF content)) as [l|].
    + rewrite length_append.
      pose proof (trim_length (slice0 300 l)).
      pose proof (DiscoverFacts.slice0_length 300 l).
      change (String.length "...") with 3. lia.
    + change (String.length "undefined...") with 12. lia.
Qed.

(** ** Mermaid diagrams *)

Lemma find_fence_spec s :
  forall before behind,
    find_fence s = Some (before, behind) ->
    s = before +:+ fence +:+ behind /\ includes before fence = false.
Proof.
  induction s as [|c r IH]; intros before behind; [discriminate|].
  cbn [find_fence]. destruct (startsWith fence (String c r)) eqn:Es.
  - intros H. apply startsWith_spec in Es as (post & Es).
    rewrite Es in H |- *. injection H as <- <-. split; reflexivity.
  - destruct (find_fence r) as [[b1 b2]|]; [|discriminate].
    intros [= <- <-]. destruct (IH b1 b2 eq_refl) as [Hr Hi].
    split; [rewrite Hr at 1; reflexivity|].
    cbn [includes]. rewrite Hi, orb_false_r.
    destruct (startsWith fence (String c b1)) eqn:E; [|reflexivity].
    apply startsWith_spec in E as (post & E).
    assert (startsWith fence (String c r) = true) as Ht; [|congruence].
    apply startsWith_spec. exists (post +:+ fence +:+ b2).
    rewrite Hr, <- append_cons, E, append_assoc. reflexivity.
Qed.

Lemma trimStart_suffix s : exists pre, s = pre +:+ trimStart s.
Proof.
  induction s as [|c s [pre IH]]; [exists ""; reflexivity|].
  cbn [trimStart]. destruct (is_space c).
  - exists (String c pre). rewrite append_cons, <- IH. reflexivity.
  - exists "". reflexivity.
Qed.

Lemma trimEnd_prefix s : exists post, s = trimEnd s +:+ post.
Proof.
  induction s as [|c s [post IH]]; [exists ""; reflexivity|].
  cbn [trimEnd]. destruct (trimEnd s) as [|d r] eqn:E.
  - destruct (is_space c).
    + exists (String c s). reflexivity.
    + exists s. reflexivity.
  - exists post. rewrite append_cons, <- IH. reflexivity.
Qed.

Lemma trim_substring s : exists pre post, s = pre +:+ trim s +:+ post.
Proof.
  destruct (trimStart_suffix s) as [pre Hpre].
  destruct (trimEnd_prefix (trimStart s)) as [post Hpost].
  exists pre, post. unfold trim. rewrite <- Hpost. exact Hpre.
Qed.

Lemma trim_excludes s t : includes s t = false -> includes (trim s) t = false.
Proof.
  intros H. destruct (includes (trim s) t) eqn:E; [|reflexivity].
  apply includes_spec in E as (a & b & E).
  destruct (trim_substring s) as (pre & post & Hs).
  assert (includes s t = true) as Ht; [|congruence].
  apply includes_spec. exists (pre +:+ a), (b +:+ post).
  rewrite Hs, E, !append_assoc. reflexivity.
Qed.

Lemma drop_opener rest : drop_chars 11 (mermaid_open +:+ rest) = rest.
Proof. reflexivity. Qed.

Lemma opener_absent : startsWith mermaid_open "" = false.
Proof. reflexivity. Qed.

(** One match of the pattern. *)
Lemma diagrams_match fuel index s body behind :
  startsWith mermaid_open s = true ->
  find_fence (drop_chars 11 s) = Some (body, behind) ->
  extractMermaidDiagrams_from (S fuel) index s
  = {| diagram_id := "diagram-" +:+ pretty (N.of_nat index);
       diagram_description := "Diagram " +:+ pretty (N.of_nat (S index));
       code := trim body |}
      :: extractMermaidDiagrams_from fuel (S index) behind.
Proof.
  intros Ho Hf. destruct s as [|c r]; [discriminate Ho|].
  cbn [extractMermaidDiagrams_from]. rewrite Ho, Hf. reflexivity.
Qed.

Lemma diagrams_skip fuel index c r :
  startsWith mermaid_open (String c r) = false ->
  extractMermaidDiagrams_from (S fuel) index (String c r)
  = extractMermaidDiagrams_from fuel index r.
Proof.
  intros Ho. cbn [extractMermaidDiagrams_from]. rewrite Ho. reflexivity.
Qed.

Lemma diagrams_from_sound fuel :
  forall index s i d,
    extractMermaidDiagrams_from fuel index s !! i = Some d ->
    diagram_id d = "diagram-" +:+ pretty (N.of_nat (index + i))
    /\ diagram_description d = "Diagram " +:+ pretty (N.of_nat (S (index + i)))
    /\ exists pre body post,
         s = pre +:+ mermaid_open +:+ body +:+ fence +:+ post
         /\ includes body fence = false
         /\ code d = trim body.
Proof.
  induction fuel as [|f IH]; intros index s i d H; [discriminate H|].
  destruct s as [|c r]; [discriminate H|].
  assert (extractMermaidDiagrams_from f index r !! i = Some d ->
          diagram_id d = "diagram-" +:+ pretty (N.of_nat (index + i))
          /\ diagram_description d
             = "Diagram " +:+ pretty (N.of_nat (S (index + i)))
          /\ exists pre body post,
               String c r = pre +:+ mermaid_open +:+ body +:+ fence +:+ post
               /\ includes body fence = false
               /\ code d = trim body) as Hskip.
  { intros H'. destruct (IH index r i d H')
      as (H1 & H2 & pre & body & post & Hr & Hi & Hc).
    split; [exact H1|]. split; [exact H2|].
    exists (String c pre), body, post. rewrite Hr at 1. auto. }
  destruct (startsWith mermaid_open (String c r)) eqn:Eo.
  - destruct (find_fence (drop_chars 11 (String c r))) as [[body behind]|] eqn:Ef.
    + rewrite (diagrams_match f index _ body behind Eo Ef) in H.
      apply startsWith_spec in Eo as (rest & Es).
      rewrite Es, drop_opener in Ef.
      destruct (find_fence_spec rest body behind Ef) as [Hrest Hinc].
      rewrite lookup_cons in H. destruct i as [|i].
      * injection H as <-. cbn [diagram_id diagram_description code].
        rewrite Nat.add_0_r. split; [reflexivity|]. split; [reflexivity|].
        exists "", body, behind. rewrite Es, Hrest. auto.
      * destruct (IH (S index) behind i d H)
          as (H1 & H2 & pre & body' & post & Hb & Hi & Hc).
        replace (index + S i) with (S index + i) by lia.
        split; [exact H1|]. split; [exact H2|].
        exists (mermaid_open +:+ body +:+ fence +:+ pre), body', post.
        rewrite Es, Hrest, Hb at 1. rewrite !append_assoc. auto.
    + cbn [extractMermaidDiagrams_from] in H. rewrite Eo, Ef in H.
      apply Hskip, H.
  - rewrite (diagrams_skip f index c r Eo) in H. apply Hskip, H.
Qed.

Lemma append_cancel s a b : s +:+ a = s +:+ b -> a = b.
Proof.
  induction s as [|c s IH]; [auto|].
  rewrite !append_cons. intros [= H]. auto.
Qed.

Lemma diagrams_from_absent fuel :
  forall index s,
    includes s mermaid_open = false ->
    extractMermaidDiagrams_from fuel index s = [].
Proof.
  induction fuel as [|f IH]; intros index s H; [reflexivity|].
  destruct s as [|c r]; [reflexivity|].
  cbn [includes] in H. apply orb_false_iff in H as [Ho Hr].
  rewrite (diagrams_skip f index c r Ho). apply IH, Hr.
Qed.

(** X18.  The diagrams of an article are numbered in the order in which
    they occur: the diagram at position [i] has the id diagram-i and the
    description Diagram i+1, so no two have the same id.  Its code is the
    trimmed text between an opening mermaid fence of the content and the
    next fence, and holds no fence itself.  A content without an opening
    mermaid fence has no diagram. *)
Theorem extractMermaidDiagrams_sound (content : string) :
  (forall i d,
      extractMermaidDiagrams content !! i = Some d ->
      diagram_id d = "diagram-" +:+ pretty (N.of_nat i)
      /\ diagram_description d = "Diagram " +:+ pretty (N.of_nat (S i))
      /\ includes (code d) "```" = false
      /\ exists pre body post,
           content = pre +:+ mermaid_open +:+ body +:+ "```" +:+ post
           /\ code d = trim body)
  /\ NoDup (diagram_id <$> extractMermaidDiagrams content)
  /\ (includes content mermaid_open = false ->
      extractMermaidDiagrams content = []).
Proof.
  assert (forall i d,
             extractMermaidDiagrams content !! i = Some d ->
             diagram_id d = "diagram-" +:+ pretty (N.of_nat i)
             /\ diagram_description d = "Diagram " +:+ pretty (N.of_nat (S i))
             /\ includes (code d) "```" = false
             /\ exists pre body post,
                  content = pre +:+ mermaid_open +:+ body +:+ "```" +:+ post
                  /\ code d = trim body) as Hsound.
  { intros i d H.
    destruct (diagrams_from_sound _ 0 content i d H)
      as (H1 & H2 & pre & body & post & Hc & Hi & Hd).
    split; [exact H1|]. split; [exact H2|].
    split; [rewrite Hd; apply trim_excludes, Hi|].
    exists pre, body, post. auto. }
  split; [exact Hsound|]. split.
  - apply NoDup_alt. intros i j x Hi Hj.
    rewrite list_lookup_fmap in Hi, Hj.
    destruct (extractMermaidDiagrams content !! i) as [di|] eqn:Ei;
      [|discriminate].
    destruct (extractMermaidDiagrams content !! j) as [dj|] eqn:Ej;
      [|discriminate].
    destruct (Hsound i di Ei) as [Hdi _]. destruct (Hsound j dj Ej) as [Hdj _].
    cbn in Hi, Hj. injection Hi as Hi. injection Hj as Hj.
    rewrite Hdi in Hi. rewrite Hdj, <- Hi in Hj.
    apply append_cancel in Hj. apply (inj pretty) in Hj. lia.
  - intros H. apply diagrams_from_absent, H.
Qed.

Lemma length_drop_chars n s :
  String.length (drop_chars n s) <= String.length s.
Proof.
  revert s. induction n as [|n IH]; intros s; [reflexivity|].
  destruct s as [|c s]; [reflexivity|]. cbn [drop_chars String.length].
  specialize (IH s). lia.
Qed.

(** The bound on the characters looked at is never reached. *)
Lemma diagrams_from_fuel f1 :
  forall f2 index s,
    String.length s <= f1 -> String.length s <= f2 ->
    extractMermaidDiagrams_from f1 index s
    = extractMermaidDiagrams_from f2 index s.
Proof.
  induction f1 as [|f1 IH]; intros f2 index s H1 H2.
  - destruct s; [|simpl in H1; lia]. destruct f2; reflexivity.
  - destruct s as [|c r]; [destruct f2; reflexivity|].
    destruct f2 as [|f2]; [simpl in H2; lia|].
    cbn [String.length] in H1, H2.
    destruct (startsWith mermaid_open (String c r)) eqn:Eo.
    + destruct (find_fence (drop_chars 11 (String c r)))
        as [[body behind]|] eqn:Ef.
      * rewrite !(diagrams_match _ index _ body behind Eo Ef).
        f_equal. destruct (find_fence_spec _ _ _ Ef) as [Hd _].
        pose proof (length_drop_chars 10 r) as Hl.
        change (drop_chars 10 r) with (drop_chars 11 (String c r)) in Hl.
        rewrite Hd, !length_append in Hl.
        apply IH; lia.
      * cbn [extractMermaidDiagrams_from]. rewrite Eo, Ef. apply IH; lia.
    + rewrite !diagrams_skip by exact Eo. apply IH; lia.
Qed.

Lemma diagrams_from_codes fuel :
  forall i j s,
    List.map code (extractMermaidDiagrams_from fuel i s)
    = List.map code (extractMermaidDiagrams_from fuel j s).
Proof.
  induction fuel as [|f IH]; intros i j s; [reflexivity|].
  destruct s as [|c r]; [reflexivity|].
  cbn [extractMermaidDiagrams_from].
  destruct (startsWith mermaid_open (String c r)); [|apply IH].
  destruct (find_fence (drop_chars 11 (String c r))) as [[body behind]|];
    [|apply IH].
  cbn [List.map code]. f_equal. apply IH.
Qed.

Lemma find_fence_clean body post :
  all_chars (fun c => c <> backtick) body ->
  find_fence (body +:+ fence +:+ post) = Some (body, post).
Proof.
  induction body as [|c body IH]; intros H; [reflexivity|].
  apply all_chars_cons in H as [Hc H].
  rewrite append_cons. cbn [find_fence].
  replace (startsWith fence (String c (body +:+ fence +:+ post))) with false.
  - rewrite (IH H). reflexivity.
  - symmetry. cbn [startsWith fence].
    apply andb_false_iff. left. apply Ascii.eqb_neq. auto.
Qed.

Lemma diagrams_from_clean pre :
  all_chars (fun c => c <> backtick) pre ->
  forall index rest,
    extractMermaidDiagrams_from (String.length (pre +:+ rest)) index
      (pre +:+ rest)
    = extractMermaidDiagrams_from (String.length rest) index rest.
Proof.
  induction pre as [|c pre IH]; intros H index rest; [reflexivity|].
  apply all_chars_cons in H as [Hc H].
  rewrite append_cons. cbn [String.length].
  rewrite diagrams_skip; [apply IH, H|].
  cbn [startsWith mermaid_open append].
  apply andb_false_iff. left. apply Ascii.eqb_neq. auto.
Qed.

(** X19.  A mermaid block is extracted: for a content that holds, behind
    a text without backticks, an opening mermaid fence, a body without
    backticks and a closing fence, the codes of the diagrams are the
    trimmed body followed by the codes of the diagrams of the rest. *)
Theorem extractMermaidDiagrams_block (pre body post : string) :
  all_chars (fun c => c <> backtick) pre ->
  all_chars (fun c => c <> backtick) body ->
  List.map code
    (extractMermaidDiagrams (pre +:+ mermaid_open +:+ body +:+ "```" +:+ post))
  = trim body :: List.map code (extractMermaidDiagrams post).
Proof.
  intros Hpre Hbody. unfold extractMermaidDiagrams.
  rewrite (diagrams_from_clean pre Hpre).
  set (rest := body +:+ "```" +:+ post).
  assert (String.length (mermaid_open +:+ rest) = S (10 + String.length rest))
    as -> by (rewrite length_append; reflexivity).
  rewrite (diagrams_match _ 0 _ body post).
  - cbn [List.map code]. f_equal.
    rewrite (diagrams_from_fuel _ (String.length post) 1 post).
    + apply diagrams_from_codes.
    + unfold rest. rewrite !length_append. lia.
    + lia.
  - apply startsWith_app.
  - rewrite drop_opener. apply find_fence_clean, Hbody.
Qed.

End ArticleWriterFacts.

(* ===================================================================== *)
(** * generateArticles with generateSingleArticle: the files of a brief *)
(* ===================================================================== *)

Module PipelineFacts.
Import JsString Generate ArticleWriter PathSpec PathFacts SlugSpec SlugFacts
       PipelineSpec.

Section Writer.

Variable SiteAnalysis : Type.
Variable generateWithClaude : request SiteAnalysis -> result string.

Abbreviation ArticleRequest := (ArticleRequest SiteAnalysis).
Abbreviation MediumRequest := (MediumRequest SiteAnalysis).
Abbreviation LinkedInRequest := (LinkedInRequest SiteAnalysis).

(** X20.  The files of one brief.  When the model fails on the article,
    or on the Medium version of a brief whose platform is medium or both,
    or on the LinkedIn version of a brief whose platform is linkedin or
    both, the turn of the loop fails with the message of the model and
    writes no file, not even the article that was generated.  When the
    model answers all that the brief wants, the turn succeeds: it writes
    article.md, then medium.md if the platform is medium or both and the
    text for it is not empty, then linkedin.md if the platform is
    linkedin or both and the text for it is not empty, then
    metadata.json, all in the directory of the article (the output
    directory followed by the slug of the title, or the output directory
    itself when the slug is empty), and it marks the brief as
    generated. *)
Theorem generate_one_files
        (articlesOutputDir : string) (analysis : SiteAnalysis) (i : nat)
        (plan : list ArticleBrief) (acc : list GeneratedArticle)
        (w : world SiteAnalysis) (brief : ArticleBrief) :
  plan !! i = Some brief ->
  let run :=
    generate_one SiteAnalysis (generator SiteAnalysis generateWithClaude)
      articlesOutputDir analysis i (plan, acc) w in
  let file name :=
    under articlesOutputDir (slug_segments (brief_title brief) ++ [name]) in
  let medium_wanted := wants_medium (brief_platform brief) in
  let linkedin_wanted := wants_linkedin (brief_platform brief) in
  (forall m,
      generateWithClaude (ArticleRequest brief analysis) = Throw m ->
      run.2 = Throw m /\ written _ run.1 = written _ w)
  /\ forall content,
       generateWithClaude (ArticleRequest brief analysis) = Ok content ->
       let medium_answer := generateWithClaude (MediumRequest brief content) in
       let linkedin_answer := generateWithClaude (LinkedInRequest content) in
       (forall m,
           medium_wanted = true -> medium_answer = Throw m ->
           run.2 = Throw m /\ written _ run.1 = written _ w)
       /\ (forall m,
              (medium_wanted = true -> exists t, medium_answer = Ok t) ->
              linkedin_wanted = true -> linkedin_answer = Throw m ->
              run.2 = Throw m /\ written _ run.1 = written _ w)
       /\ ((medium_wanted = true -> exists t, medium_answer = Ok t) ->
           (linkedin_wanted = true -> exists t, linkedin_answer = Ok t) ->
           exists article,
             run.2 = Ok (alter set_generated i plan, acc ++ [article])
             /\ briefId article = id brief
             /\ generated_content article = content
             /\ written _ run.1
                = written _ w
                  ++ [ file "article.md" ]
                  ++ platform_file medium_wanted medium_answer
                       (file "medium.md")
                  ++ platform_file linkedin_wanted linkedin_answer
                       (file "linkedin.md")
                  ++ [ file "metadata.json" ]).
Proof.
  intros H run file medium_wanted linkedin_wanted.
  subst run file medium_wanted linkedin_wanted.
  unfold generate_one. rewrite H.
  unfold bind, invoke, writeFile, when, ret, generator, generateSingleArticle,
    platform_file.
  rewrite !article_path by plain_literal.
  split.
  { intros m ->. split; reflexivity. }
  intros content ->.
  destruct (wants_medium (brief_platform brief)) eqn:Wm;
    [destruct (generateWithClaude (MediumRequest brief content))
       as [mt|mm] eqn:Em|];
    (destruct (wants_linkedin (brief_platform brief)) eqn:Wl;
     [destruct (generateWithClaude (LinkedInRequest content))
        as [lt|lm] eqn:El|]);
    cbn [fst snd written article mediumContent linkedinContent is_truthy];
    (split; [intros m Hw Hm; try discriminate Hw; try discriminate Hm;
             try (injection Hm as <-); split; reflexivity|]);
    (split; [intros m Hmed Hw Hl; try discriminate Hw; try discriminate Hl;
             try (destruct (Hmed eq_refl) as [t Ht]; discriminate Ht);
             try (injection Hl as <-); split; reflexivity|]);
    intros Hmed Hlin;
    try (destruct (Hmed eq_refl) as [t Ht]; discriminate Ht);
    try (destruct (Hlin eq_refl) as [t Ht]; discriminate Ht);
    try destruct (truthy mt) eqn:Tm; try destruct (truthy lt) eqn:Tl;
    cbn [fst snd written];
    eexists; (split; [reflexivity|]); (split; [reflexivity|]);
    (split; [reflexivity|]);
    rewrite <- ?app_assoc; reflexivity.
Qed.

End Writer.

End PipelineFacts.

(* ===================================================================== *)
(** * planner/article-planner.ts: the briefs of a plan *)
(* ===================================================================== *)

Module PlannerFacts.
Import JsString Fetcher Generate GenerateSpec GenerateFacts GenerateMoreFacts
       Planner PlannerSpec.

Lemma or_else_cases a b :
  (defined a /\ or_else a b = a) \/ or_else a b = b.
Proof.
  unfold or_else. destruct a as [s|]; [|right; reflexivity].
  destruct (truthy s) eqn:E; [|right; reflexivity].
  left. split; [exists s; auto | reflexivity].
Qed.

Lemma or_else_defined a b : defined b -> defined (or_else a b).
Proof.
  intros Hb. destruct (or_else_cases a b) as [[Ha ->]| ->]; assumption.
Qed.

Lemma option_at (options : list string) i :
  options <> [] ->
  Forall (fun s => truthy s = true) options ->
  exists s, options !! (i mod length options) = Some s
            /\ In s options /\ truthy s = true.
Proof.
  intros Hne Hall.
  destruct (lookup_lt_is_Some_2 options (i mod length options)) as [s Hs].
  - apply Nat.mod_upper_bound. destruct options; [congruence | simpl; lia].
  - exists s. split; [exact Hs|].
    assert (s ∈ options) as Hin by (apply list_elem_of_lookup; eauto).
    split; [apply list_elem_of_In, Hin|].
    rewrite Forall_forall in Hall. apply Hall, Hin.
Qed.

Lemma or_else_option given (options : list string) i :
  options <> [] ->
  Forall (fun s => truthy s = true) options ->
  defined (or_else given (options !! (i mod length options)))
  /\ recommended_or given options
       (or_else given (options !! (i mod length options))).
Proof.
  intros Hne Hall.
  destruct (option_at options i Hne Hall) as (s & Hs & Hin & Ht).
  split.
  - apply or_else_defined. exists s. auto.
  - destruct (or_else_cases given (options !! (i mod length options)))
      as [[Hd ->]| ->].
    + left. auto.
    + right. exists s. auto.
Qed.

Lemma truthy_append_l s t : truthy t = true -> truthy (s +:+ t) = true.
Proof. destruct s; [auto | reflexivity]. Qed.

Lemma generated_count_planned (briefs : list brief) :
  Forall (fun b => status b = planned) briefs ->
  generated_count (as_generate_brief <$> briefs) = 0.
Proof.
  unfold generated_count. intros H.
  induction H as [|b l Hb _ IH]; [reflexivity|].
  rewrite fmap_cons. cbn [List.filter as_generate_brief brief_status].
  rewrite Hb. exact IH.
Qed.

Section Planner.

Variable randomUUID : nat -> string.

Lemma planned_briefs_lookup articles count i b :
  planned_briefs randomUUID articles count !! i = Some b ->
  exists a, articles !! i = Some a /\ b = plan_brief randomUUID i a.
Proof.
  unfold planned_briefs, array_slice0. rewrite list_lookup_imap.
  destruct (take _ articles !! i) as [a|] eqn:E; [|discriminate].
  intros [= <-]. exists a. split; [|reflexivity].
  apply lookup_take_Some in E. apply E.
Qed.

Lemma planned_briefs_planned articles count :
  Forall (fun b => status b = planned)
         (planned_briefs randomUUID articles count).
Proof.
  apply Forall_forall. intros b Hb.
  apply list_elem_of_lookup in Hb as (i & Hb).
  apply planned_briefs_lookup in Hb as (a & _ & ->). reflexivity.
Qed.

Lemma planned_briefs_length articles c :
  (0 <= c)%Z ->
  length (planned_briefs randomUUID articles (Int c))
  = Z.to_nat (Z.min c (Z.of_nat (length articles))).
Proof.
  intros Hc. unfold planned_briefs, array_slice0.
  rewrite length_imap, length_take.
  replace (c <? 0)%Z with false by lia. lia.
Qed.

(** X21.  The briefs of a plan.  The brief at position [i] comes from the
    recommendation at position [i]: it keeps its title, target length and
    platform, it is planned, and its id is article- followed by at most
    eight characters.  Its category, gradient, pattern and reading time
    are never missing or empty: the gradient and the pattern are the
    recommended ones or one of the options of the program, and a slug is
    always present.  With a count [c >= 0] the plan has [min c n] briefs
    for [n] recommendations. *)
Theorem planned_briefs_defaults
        (articles : list recommendation) (count : number) :
  (forall i b,
      planned_briefs randomUUID articles count !! i = Some b ->
      exists a,
        articles !! i = Some a
        /\ title b = rec_title a
        /\ targetLength b = rec_targetLength a
        /\ platform b = rec_platform a
        /\ status b = planned
        /\ (exists suffix,
              id b = "article-" +:+ suffix /\ String.length suffix <= 8)
        /\ is_Some (slug b)
        /\ defined (category b)
        /\ defined (readTime b)
        /\ defined (gradient b)
        /\ recommended_or (rec_gradient a) GRADIENT_OPTIONS (gradient b)
        /\ defined (pattern b)
        /\ recommended_or (rec_pattern a) PATTERN_OPTIONS (pattern b))
  /\ (forall c,
         count = Int c -> (0 <= c)%Z ->
         length (planned_briefs randomUUID articles count)
         = Z.to_nat (Z.min c (Z.of_nat (length articles)))).
Proof.
  split.
  - intros i b Hb. apply planned_briefs_lookup in Hb as (a & Ha & ->).
    exists a. split; [exact Ha|].
    cbn [plan_brief title targetLength platform status id slug category
         readTime gradient pattern].
    do 4 (split; [reflexivity|]).
    split; [exists (slice0 8 (randomUUID i));
            split; [reflexivity | apply DiscoverFacts.slice0_length]|].
    split.
    { destruct (or_else_cases (rec_slug a)
                  (Some (Storage.slugify (rec_title a))))
        as [[(s & Hs & _) ->]| ->]; [rewrite Hs|]; eexists; reflexivity. }
    split; [apply or_else_defined; exists "Engineering"; auto|].
    split.
    { apply or_else_defined. eexists. split; [reflexivity|].
      apply truthy_append_l. reflexivity. }
    assert (Forall (fun s => truthy s = true) GRADIENT_OPTIONS) as Hg
        by (repeat constructor).
    assert (Forall (fun s => truthy s = true) PATTERN_OPTIONS) as Hp
        by (repeat constructor).
    destruct (or_else_option (rec_gradient a) GRADIENT_OPTIONS i) as [G1 G2];
      [discriminate | exact Hg |].
    destruct (or_else_option (rec_pattern a) PATTERN_OPTIONS i) as [P1 P2];
      [discriminate | exact Hp |].
    auto.
  - intros c -> Hc. apply planned_briefs_length, Hc.
Qed.

Variable SiteAnalysis : Type.
Variable generateSingleArticle :
  ArticleBrief -> SiteAnalysis -> result GeneratedArticle.

(** X22.  Plan, then Generate with the same count [c >= 0]: when the
    generator answers for every brief, one run of Generate over the plan
    that Plan wrote generates every brief of it, [min c n] articles for
    [n] recommendations. *)
Theorem plan_then_generate
        (outputDir : string) (c : Z) (articles : list recommendation)
        (w : world SiteAnalysis) (analysis : SiteAnalysis) :
  (0 <= c)%Z ->
  site_analysis _ w = Some analysis ->
  article_plan _ w
  = Some (as_generate_brief <$> planned_briefs randomUUID articles (Int c)) ->
  (forall b, exists article, generateSingleArticle b analysis = Ok article) ->
  exists w1 res plan',
    generateArticles SiteAnalysis generateSingleArticle outputDir (Int c) w
    = (w1, Ok res)
    /\ length (generated_articles res)
       = Z.to_nat (Z.min c (Z.of_nat (length articles)))
    /\ article_plan _ w1 = Some plan'
    /\ Forall (fun b => brief_status b = generated) plan'.
Proof.
  intros Hc Ha Hp Htotal.
  pose proof (planned_briefs_length articles c Hc) as Hlen.
  pose proof (generated_count_planned _
                (planned_briefs_planned articles (Int c))) as Hzero.
  destruct (generateArticles_all SiteAnalysis generateSingleArticle
              outputDir c NaN w analysis _ Ha Hp Htotal)
    as (w1 & res & plan' & Hrun & Hres & Hplan & Hall & _).
  - rewrite Hzero, length_fmap, Hlen. lia.
  - exists w1, res, plan'. split; [exact Hrun|].
    split; [rewrite Hres, Hzero, length_fmap, Hlen; lia|].
    split; [exact Hplan | exact Hall].
Qed.

End Planner.

End PlannerFacts.

Module WriterExamples.
Import JsString JsStringSpec Fetcher FetcherSpec Generate Claude ArticleWriter
       Planner WriterSpec PipelineSpec PlannerSpec MoreExamples.

(** X15 on a fenced answer with white space around it, on an answer in
    plain fences and on an answer without fences. *)
Lemma strip_code_fences_examples :
  strip_code_fences fenced_answer = "{}"
  /\ strip_code_fences ("```" +:+ nl +:+ "[1]" +:+ nl +:+ "```") = "[1]"
  /\ strip_code_fences " {} " = "{}".
Proof.
  split; [|split].
  - apply (proj1 (ClaudeFacts.strip_code_fences_spec json_inner fenced_answer)).
    reflexivity.
  - apply (proj1 (proj2 (ClaudeFacts.strip_code_fences_spec
                           (nl +:+ "[1]" +:+ nl)
                           ("```" +:+ nl +:+ "[1]" +:+ nl +:+ "```"))));
      reflexivity.
  - apply (proj2 (proj2 (ClaudeFacts.strip_code_fences_spec "" " {} ")));
      reflexivity.
Defined.

(** X16 on the fenced answer behind a block that is no text. *)
Lemma generateJsonWithClaude_fenced_example :
  generateJsonWithClaude example_messages_create nat example_JSON_parse
    "You plan articles." "Plan five articles." = Ok 0.
Proof.
  apply (ClaudeFacts.generateJsonWithClaude_fenced example_messages_create nat
           example_JSON_parse "You plan articles." "Plan five articles."
           json_inner fenced_answer
           [ OtherBlock; TextBlock fenced_answer ]);
    reflexivity.
Defined.

(** X17 on the article, and on a text that has a heading only. *)
Lemma extractExcerpt_examples :
  extractExcerpt article_text = paragraph +:+ "..."
  /\ extractExcerpt "# Only a heading" = "undefined...".
Proof.
  split.
  - apply (proj1 (ArticleWriterFacts.extractExcerpt_spec article_text)
             [ "# Polite crawling"; "" ] paragraph
             [ ""; "```mermaid"; "graph TD; A-->B"; "```"; "The end." ]).
    + reflexivity.
    + repeat constructor.
    + reflexivity.
  - apply (proj1 (proj2 (ArticleWriterFacts.extractExcerpt_spec
                           "# Only a heading"))).
    repeat constructor.
Defined.

(** X18 on the diagram of the article, and on a text without diagram. *)
Lemma extractMermaidDiagrams_sound_example :
  (let d := {| diagram_id := "diagram-0";
               diagram_description := "Diagram 1";
               code := "graph TD; A-->B" |} in
   diagram_id d = "diagram-" +:+ pretty (N.of_nat 0)
   /\ diagram_description d = "Diagram " +:+ pretty (N.of_nat 1)
   /\ includes (code d) "```" = false
   /\ exists pre body post,
        article_text = pre +:+ mermaid_open +:+ body +:+ "```" +:+ post
        /\ code d = trim body)
  /\ extractMermaidDiagrams paragraph = [].
Proof.
  split.
  - apply (proj1 (ArticleWriterFacts.extractMermaidDiagrams_sound article_text)
             0). reflexivity.
  - apply (proj2 (proj2 (ArticleWriterFacts.extractMermaidDiagrams_sound
                           paragraph))). reflexivity.
Defined.

(** X19 on the article. *)
Lemma extractMermaidDiagrams_block_example :
  List.map code (extractMermaidDiagrams article_text)
  = trim diagram_body :: List.map code (extractMermaidDiagrams after_diagram).
Proof.
  apply (ArticleWriterFacts.extractMermaidDiagrams_block before_diagram
           diagram_body after_diagram).
  - unfold all_chars. cbn. repeat (constructor; [discriminate|]). constructor.
  - unfold all_chars. cbn. repeat (constructor; [discriminate|]). constructor.
Defined.

(** X20 on a brief for both platforms when the LinkedIn version fails:
    the article that was generated is not written. *)
Lemma generate_one_files_example :
  (generate_one unit (generator unit example_model)
     "/out/example.com/output" tt 0 (Examples.plan3, []) Examples.world0).2
  = Throw "429 rate limited"
  /\ written _
       (generate_one unit (generator unit example_model)
          "/out/example.com/output" tt 0 (Examples.plan3, [])
          Examples.world0).1
     = written _ Examples.world0.
Proof.
  apply (proj1 (proj2 (proj2 (PipelineFacts.generate_one_files unit
                                example_model "/out/example.com/output" tt 0
                                Examples.plan3 [] Examples.world0
                                (mkBrief "b1" "First Post" both planned)
                                eq_refl)
                               article_text eq_refl))).
  - intros _. exists "Medium version". reflexivity.
  - reflexivity.
  - reflexivity.
Defined.

(** X21 on the second recommendation, which leaves the visual theme out,
    and on a count of one. *)
Lemma planned_briefs_defaults_example :
  (exists a,
      recommendations !! 1 = Some a
      /\ title (plan_brief example_randomUUID 1 a) = rec_title a
      /\ gradient (plan_brief example_randomUUID 1 a) = Some "purple"
      /\ pattern (plan_brief example_randomUUID 1 a) = Some "grid"
      /\ defined (readTime (plan_brief example_randomUUID 1 a)))
  /\ length (planned_briefs example_randomUUID recommendations (Int 1)) = 1.
Proof.
  split.
  - destruct (proj1 (PlannerFacts.planned_briefs_defaults example_randomUUID
                       recommendations (Int 5)) 1 _ eq_refl)
      as (a & Ha & Ht & _ & _ & _ & _ & _ & _ & Hr & _).
    exists a. split; [exact Ha|].
    injection Ha as <-. split; [reflexivity|]. split; [reflexivity|].
    split; [reflexivity | exact Hr].
  - apply (proj2 (PlannerFacts.planned_briefs_defaults example_randomUUID
                    recommendations (Int 1)) 1%Z eq_refl). lia.
Defined.

(** X22 on the two recommendations with a count of five. *)
Lemma plan_then_generate_example :
  exists w1 res plan',
    generateArticles unit Examples.generator_ok "/out/example.com" (Int 5)
      (planned_world 5) = (w1, Ok res)
    /\ length (generated_articles res) = 2
    /\ article_plan _ w1 = Some plan'
    /\ Forall (fun b => brief_status b = generated) plan'.
Proof.
  apply (PlannerFacts.plan_then_generate example_randomUUID unit
           Examples.generator_ok "/out/example.com" 5 recommendations
           (planned_world 5) tt).
  - lia.
  - reflexivity.
  - reflexivity.
  - intros b. eexists. reflexivity.
Defined.

End WriterExamples.
